(** * livlogger: the request-telemetry logger of [lib/logger.js]

    A shallow embedding of [lib/logger.js] and of the parts of the Node.js
    runtime it calls (Buffer encodings, [JSON], [crypto]'s aes-256-cbc,
    [Number.prototype.toFixed], [fs]), followed by the properties of the
    specification stated over that embedding (Part III) and by further
    properties of the code: its errors, its invariants and what it leaves
    untouched (Part IV).

    Conventions.
    - A JavaScript string is the list of its UTF-16 code units ([jsstring]).
    - A Buffer is a list of bytes.
    - A JavaScript number is an exact rational, or NaN, or an infinity
      ([number]); the rounding of binary64 arithmetic is not part of the
      general statements, and the concrete examples about numbers are
      computed a second time in binary64 ([getCpuUsage_binary64],
      [elapsedTimeInMs_binary64]).
    - A thrown exception is the [Throw] case of [result]. *)

From Stdlib Require Import ZArith NArith QArith Qabs Lia Bool String Ascii List.
From Stdlib.Strings Require Import Byte.
From Stdlib Require Import DecimalN DecimalPos DecimalFacts Btauto Permutation.
From Corelib Require SpecFloat.
Import ListNotations.

Set Implicit Arguments.
Local Open Scope N_scope.

(* ================================================================== *)
(** * Part I. Definitions                                              *)
(* ================================================================== *)

(** ** Bytes and Buffers *)

Definition byte_of_N (n : N) : byte :=
  match Byte.of_N (n mod 256) with
  | Some b => b
  | None => x00
  end.

Abbreviation buffer := (list byte) (only parsing).

(** ** JavaScript strings *)

Abbreviation codeunit := N (only parsing).
Abbreviation jsstring := (list N) (only parsing).

(** A string literal of the source, as code units. *)
Definition str (s : string) : jsstring :=
  map N_of_ascii (list_ascii_of_string s).

Definition jsstring_eqb (a b : jsstring) : bool :=
  if list_eq_dec N.eq_dec a b then true else false.

(** [s.slice(start, stop)] for in-range, non-negative indices. *)
Definition slice (s : jsstring) (start stop : nat) : jsstring :=
  firstn (stop - start) (skipn start s).

(** Every element is a 16-bit code unit. *)
Definition valid_units (s : jsstring) : bool :=
  forallb (fun c => c <? 65536) s.

Definition is_high_surrogate (c : codeunit) : bool := (55296 <=? c) && (c <=? 56319).
Definition is_low_surrogate (c : codeunit) : bool := (56320 <=? c) && (c <=? 57343).
Definition is_surrogate (c : codeunit) : bool := (55296 <=? c) && (c <=? 57343).

(** ** UTF-8: [Buffer.from(s, 'utf8')] and [buf.toString('utf8')] *)

Definition utf8_of_codepoint (cp : N) : buffer :=
  if cp <? 128 then [byte_of_N cp]
  else if cp <? 2048 then
    [byte_of_N (192 + cp / 64); byte_of_N (128 + cp mod 64)]
  else if cp <? 65536 then
    [byte_of_N (224 + cp / 4096); byte_of_N (128 + (cp / 64) mod 64);
     byte_of_N (128 + cp mod 64)]
  else
    [byte_of_N (240 + cp / 262144); byte_of_N (128 + (cp / 4096) mod 64);
     byte_of_N (128 + (cp / 64) mod 64); byte_of_N (128 + cp mod 64)].

(** U+FFFD, which replaces a lone surrogate. *)
Definition replacement_char : codeunit := 65533.

Fixpoint utf8_encode (s : jsstring) : buffer :=
  match s with
  | [] => []
  | c :: s' =>
      if is_high_surrogate c then
        match s' with
        | d :: s'' =>
            if is_low_surrogate d
            then utf8_of_codepoint (65536 + (c - 55296) * 1024 + (d - 56320))
                   ++ utf8_encode s''
            else utf8_of_codepoint replacement_char ++ utf8_encode s'
        | [] => utf8_of_codepoint replacement_char
        end
      else if is_low_surrogate c
      then utf8_of_codepoint replacement_char ++ utf8_encode s'
      else utf8_of_codepoint c ++ utf8_encode s'
  end.

Definition is_continuation (b : byte) : bool :=
  (128 <=? Byte.to_N b) && (Byte.to_N b <? 192).

(** Decoding is exact on well-formed input; a byte that starts no well-formed
    sequence is replaced by U+FFFD and decoding resumes at the next byte. *)
Fixpoint utf8_decode (bs : buffer) : jsstring :=
  match bs with
  | [] => []
  | b0 :: r0 =>
      let n0 := Byte.to_N b0 in
      if n0 <? 128 then n0 :: utf8_decode r0
      else if (194 <=? n0) && (n0 <? 224) then
        match r0 with
        | b1 :: r1 =>
            if is_continuation b1
            then ((n0 - 192) * 64 + (Byte.to_N b1 - 128)) :: utf8_decode r1
            else replacement_char :: utf8_decode r0
        | [] => [replacement_char]
        end
      else if (224 <=? n0) && (n0 <? 240) then
        match r0 with
        | b1 :: r1 =>
            match r1 with
            | b2 :: r2 =>
                let cp := (n0 - 224) * 4096 + (Byte.to_N b1 - 128) * 64
                          + (Byte.to_N b2 - 128) in
                if is_continuation b1 && is_continuation b2
                   && (2048 <=? cp) && negb (is_surrogate cp)
                then cp :: utf8_decode r2
                else replacement_char :: utf8_decode r0
            | [] => replacement_char :: utf8_decode r0
            end
        | [] => [replacement_char]
        end
      else if (240 <=? n0) && (n0 <? 245) then
        match r0 with
        | b1 :: r1 =>
            match r1 with
            | b2 :: r2 =>
                match r2 with
                | b3 :: r3 =>
                    let cp := (n0 - 240) * 262144 + (Byte.to_N b1 - 128) * 4096
                              + (Byte.to_N b2 - 128) * 64 + (Byte.to_N b3 - 128) in
                    if is_continuation b1 && is_continuation b2
                       && is_continuation b3
                       && (65536 <=? cp) && (cp <? 1114112)
                    then (55296 + (cp - 65536) / 1024)
                           :: (56320 + (cp - 65536) mod 1024)
                           :: utf8_decode r3
                    else replacement_char :: utf8_decode r0
                | [] => replacement_char :: utf8_decode r0
                end
            | [] => replacement_char :: utf8_decode r0
            end
        | [] => [replacement_char]
        end
      else replacement_char :: utf8_decode r0
  end.

(** A string with no lone surrogate: the strings UTF-8 represents exactly. *)
Inductive well_formed : jsstring -> Prop :=
| wf_nil : well_formed []
| wf_unit c s :
    c < 65536 -> is_surrogate c = false -> well_formed s -> well_formed (c :: s)
| wf_pair h l s :
    is_high_surrogate h = true -> is_low_surrogate l = true ->
    well_formed s -> well_formed (h :: l :: s).

(** ** Hexadecimal: the ['hex'] encoding of Buffers *)

Definition hex_digit (n : N) : codeunit :=
  if n <? 10 then 48 + n else 87 + n.

Definition hex_encode (bs : buffer) : jsstring :=
  flat_map (fun b => [hex_digit (Byte.to_N b / 16); hex_digit (Byte.to_N b mod 16)]) bs.

Definition hex_value (c : codeunit) : option N :=
  if (48 <=? c) && (c <=? 57) then Some (c - 48)
  else if (97 <=? c) && (c <=? 102) then Some (c - 87)
  else if (65 <=? c) && (c <=? 70) then Some (c - 55)
  else None.

(** Decoding stops at the first pair that is not two hex digits. *)
Fixpoint hex_decode (s : jsstring) : buffer :=
  match s with
  | h :: s' =>
      match s' with
      | l :: s'' =>
          match hex_value h, hex_value l with
          | Some a, Some b => byte_of_N (16 * a + b) :: hex_decode s''
          | _, _ => []
          end
      | [] => []
      end
  | [] => []
  end.

(** ** Decimal digits *)

Fixpoint units_of_uint (d : Decimal.uint) : jsstring :=
  match d with
  | Decimal.Nil => []
  | Decimal.D0 d => 48 :: units_of_uint d
  | Decimal.D1 d => 49 :: units_of_uint d
  | Decimal.D2 d => 50 :: units_of_uint d
  | Decimal.D3 d => 51 :: units_of_uint d
  | Decimal.D4 d => 52 :: units_of_uint d
  | Decimal.D5 d => 53 :: units_of_uint d
  | Decimal.D6 d => 54 :: units_of_uint d
  | Decimal.D7 d => 55 :: units_of_uint d
  | Decimal.D8 d => 56 :: units_of_uint d
  | Decimal.D9 d => 57 :: units_of_uint d
  end.

(** The decimal representation of [n], with no leading zero. *)
Definition digits_of_N (n : N) : jsstring := units_of_uint (N.to_uint n).

Definition is_digit (c : codeunit) : bool := (48 <=? c) && (c <=? 57).

(** The number a run of decimal digits denotes, most significant first. *)
Fixpoint value_of_digits (acc : N) (s : jsstring) : N :=
  match s with
  | [] => acc
  | c :: s' => value_of_digits (10 * acc + (c - 48)) s'
  end.

(** The longest prefix of digits and what follows it. *)
Fixpoint span_digits (s : jsstring) : jsstring * jsstring :=
  match s with
  | c :: s' =>
      if is_digit c
      then let (ds, rest) := span_digits s' in (c :: ds, rest)
      else ([], s)
  | [] => ([], [])
  end.

(** ** Numbers and [Number.prototype.toFixed] *)

(** A JavaScript number: an exact rational, NaN or an infinity.  Binary64
    rounding and the sign of zero are not modelled. *)
Inductive number :=
| NaN
| Infinity (negative : bool)
| Num (q : Q).

Definition number_of_Z (z : Z) : number := Num (inject_Z z).
Definition number_of_N (n : N) : number := Num (inject_Z (Z.of_N n)).

Definition Qneg (q : Q) : bool := (Qnum q <? 0)%Z.
Definition Qzero (q : Q) : bool := (Qnum q =? 0)%Z.

(** [a / b] *)
Definition js_div (a b : number) : number :=
  match a, b with
  | NaN, _ | _, NaN => NaN
  | Infinity _, Infinity _ => NaN
  | Infinity s, Num q => Infinity (xorb s (Qneg q))
  | Num _, Infinity _ => Num 0
  | Num p, Num q =>
      if Qzero q
      then (if Qzero p then NaN else Infinity (Qneg p))
      else Num (p / q)
  end.

(** [a * b] *)
Definition js_mul (a b : number) : number :=
  match a, b with
  | NaN, _ | _, NaN => NaN
  | Infinity s, Infinity t => Infinity (xorb s t)
  | Infinity s, Num q | Num q, Infinity s =>
      if Qzero q then NaN else Infinity (xorb s (Qneg q))
  | Num p, Num q => Num (p * q)
  end.

(** [a + b] *)
Definition js_add (a b : number) : number :=
  match a, b with
  | NaN, _ | _, NaN => NaN
  | Infinity s, Infinity t => if Bool.eqb s t then Infinity s else NaN
  | Infinity s, Num _ | Num _, Infinity s => Infinity s
  | Num p, Num q => Num (p + q)
  end.

(** The integer [n] for which [n - q] is as close to zero as possible, the
    larger one when there are two ([q] not negative). *)
Definition round_half_up (q : Q) : N :=
  Z.to_N ((2 * Qnum q + Zpos (Qden q)) / (2 * Zpos (Qden q))).

(** The digits of [n], a decimal point before the last [d] of them. *)
Definition fixed_notation (d : nat) (n : N) : jsstring :=
  let m := digits_of_N n in
  match d with
  | O => m
  | _ =>
      let m := repeat 48 (d + 1 - length m) ++ m in
      let k := length m in
      firstn (k - d) m ++ [46] ++ skipn (k - d) m
  end.

(** [x.toFixed(d)].  Above 10^21 the runtime switches to exponent notation;
    the values formatted by the logger (percentages, elapsed milliseconds)
    are far below. *)
Definition toFixed (d : nat) (x : number) : jsstring :=
  match x with
  | NaN => str "NaN"
  | Infinity false => str "Infinity"
  | Infinity true => str "-Infinity"
  | Num q =>
      (if Qneg q then [45] else [])
        ++ fixed_notation d (round_half_up (Qabs q * inject_Z (10 ^ Z.of_nat d)))
  end.

(** The value of a numeral in fixed notation, as [(n, d)] for [n / 10^d]:
    digits, then optionally a point and [d] digits. *)
Definition fixed_value (s : jsstring) : option (N * nat) :=
  let (ip, r) := span_digits s in
  match ip, r with
  | [], _ => None
  | _ :: _, [] => Some (value_of_digits 0 ip, O)
  | _ :: _, c :: r' =>
      if c =? 46 then
        let (fp, r'') := span_digits r' in
        match fp, r'' with
        | _ :: _, [] => Some (value_of_digits 0 (ip ++ fp), length fp)
        | _, _ => None
        end
      else None
  end.

(** *** Binary64 *)

(** The format of a JavaScript number, with the operations of IEEE 754
    (round to nearest, ties to even). *)
Definition binary64 := SpecFloat.spec_float.

Definition binary64_of_Z (z : Z) : binary64 :=
  SpecFloat.binary_normalize 53 1024 z 0 false.
Definition binary64_of_N (n : N) : binary64 := binary64_of_Z (Z.of_N n).

Definition binary64_add : binary64 -> binary64 -> binary64 := SpecFloat.SFadd 53 1024.
Definition binary64_mul : binary64 -> binary64 -> binary64 := SpecFloat.SFmul 53 1024.
Definition binary64_div : binary64 -> binary64 -> binary64 := SpecFloat.SFdiv 53 1024.

(** The number a binary64 value stands for, exactly. *)
Definition number_of_binary64 (x : binary64) : number :=
  match x with
  | SpecFloat.S754_zero _ => Num 0
  | SpecFloat.S754_infinity s => Infinity s
  | SpecFloat.S754_nan => NaN
  | SpecFloat.S754_finite s m e =>
      let q := (inject_Z (Zpos m) * Qpower 2 e)%Q in
      Num (if s then Qopp q else q)
  end.

(** ** JSON *)

(** The values [JSON] handles.  Numbers are the integers (every number of a
    log record is one); an object is the list of its properties in order. *)
#[local] Unset Elimination Schemes.
Inductive json :=
| JNull
| JBool (b : bool)
| JNum (n : Z)
| JStr (s : jsstring)
| JArr (items : list json)
| JObj (members : list (jsstring * json)).
#[local] Set Elimination Schemes.

Definition hex4 (c : N) : jsstring :=
  [hex_digit (c / 4096 mod 16); hex_digit (c / 256 mod 16);
   hex_digit (c / 16 mod 16); hex_digit (c mod 16)].

(** The escape [\uXXXX]. *)
Definition unicode_escape (c : codeunit) : jsstring := 92 :: 117 :: hex4 c.

Definition quote_unit (c : codeunit) : jsstring :=
  if c =? 8 then [92; 98]
  else if c =? 9 then [92; 116]
  else if c =? 10 then [92; 110]
  else if c =? 12 then [92; 102]
  else if c =? 13 then [92; 114]
  else if c =? 34 then [92; 34]
  else if c =? 92 then [92; 92]
  else if (c <? 32) || is_surrogate c then unicode_escape c
  else [c].

(** QuoteJSONString without the enclosing quotes: a surrogate pair is kept,
    a lone surrogate is escaped. *)
Fixpoint quote_units (s : jsstring) : jsstring :=
  match s with
  | [] => []
  | c :: s' =>
      if is_high_surrogate c then
        match s' with
        | d :: s'' =>
            if is_low_surrogate d
            then c :: d :: quote_units s''
            else quote_unit c ++ quote_units s'
        | [] => quote_unit c
        end
      else quote_unit c ++ quote_units s'
  end.

Definition quote (s : jsstring) : jsstring := 34 :: quote_units s ++ [34].

Definition integer_to_string (n : Z) : jsstring :=
  (if (n <? 0)%Z then [45] else []) ++ digits_of_N (Z.abs_N n).

(** A line break and the current indentation, when a gap is in use. *)
Definition newline_indent (gap indent : nat) : jsstring :=
  match gap with
  | O => []
  | _ => 10 :: repeat 32 indent
  end.

Definition colon (gap : nat) : jsstring :=
  match gap with
  | O => [58]
  | _ => [58; 32]
  end.

(** SerializeJSONProperty with a gap of [gap] spaces at indentation [indent]. *)
Fixpoint serialize (gap indent : nat) (v : json) : jsstring :=
  match v with
  | JNull => str "null"
  | JBool true => str "true"
  | JBool false => str "false"
  | JNum n => integer_to_string n
  | JStr s => quote s
  | JArr [] => [91; 93]
  | JArr (x :: xs) =>
      let inner := (indent + gap)%nat in
      91 :: newline_indent gap inner ++ serialize gap inner x
        ++ (fix items (l : list json) : jsstring :=
              match l with
              | [] => []
              | y :: l' =>
                  44 :: newline_indent gap inner ++ serialize gap inner y ++ items l'
              end) xs
        ++ newline_indent gap indent ++ [93]
  | JObj [] => [123; 125]
  | JObj ((k, x) :: kxs) =>
      let inner := (indent + gap)%nat in
      123 :: newline_indent gap inner ++ quote k ++ colon gap
        ++ serialize gap inner x
        ++ (fix members (l : list (jsstring * json)) : jsstring :=
              match l with
              | [] => []
              | (k', y) :: l' =>
                  44 :: newline_indent gap inner ++ quote k' ++ colon gap
                    ++ serialize gap inner y ++ members l'
              end) kxs
        ++ newline_indent gap indent ++ [125]
  end.

(** [JSON.stringify(v)] and [JSON.stringify(v, null, 2)]. *)
Definition JSON_stringify (v : json) : jsstring := serialize 0 0 v.
Definition JSON_stringify_indent2 (v : json) : jsstring := serialize 2 0 v.

Definition is_ws (c : codeunit) : bool :=
  (c =? 32) || (c =? 10) || (c =? 13) || (c =? 9).

Fixpoint skip_ws (s : jsstring) : jsstring :=
  match s with
  | c :: s' => if is_ws c then skip_ws s' else s
  | [] => []
  end.

Definition unescape (e : codeunit) : option codeunit :=
  if e =? 34 then Some 34
  else if e =? 92 then Some 92
  else if e =? 47 then Some 47
  else if e =? 98 then Some 8
  else if e =? 102 then Some 12
  else if e =? 110 then Some 10
  else if e =? 114 then Some 13
  else if e =? 116 then Some 9
  else None.

Definition hex4_value (h1 h2 h3 h4 : codeunit) : option codeunit :=
  match hex_value h1, hex_value h2, hex_value h3, hex_value h4 with
  | Some a, Some b, Some c, Some d => Some (4096 * a + 256 * b + 16 * c + d)
  | _, _, _, _ => None
  end.

Definition cons_unit (c : codeunit) (r : option (jsstring * jsstring))
  : option (jsstring * jsstring) :=
  match r with
  | Some (s, rest) => Some (c :: s, rest)
  | None => None
  end.

(** The characters of a string literal after its opening quote, up to the
    closing one, and what follows. *)
Fixpoint parse_string (s : jsstring) : option (jsstring * jsstring) :=
  match s with
  | [] => None
  | c :: r =>
      if c =? 34 then Some ([], r)
      else if c =? 92 then
        match r with
        | e :: r1 =>
            if e =? 117 then
              match r1 with
              | h1 :: r2 =>
                  match r2 with
                  | h2 :: r3 =>
                      match r3 with
                      | h3 :: r4 =>
                          match r4 with
                          | h4 :: r5 =>
                              match hex4_value h1 h2 h3 h4 with
                              | Some u => cons_unit u (parse_string r5)
                              | None => None
                              end
                          | [] => None
                          end
                      | [] => None
                      end
                  | [] => None
                  end
              | [] => None
              end
            else
              match unescape e with
              | Some u => cons_unit u (parse_string r1)
              | None => None
              end
        | [] => None
        end
      else if c <? 32 then None
      else cons_unit c (parse_string r)
  end.

(** An integer literal: an optional minus sign, then [0] or digits that do not
    start with [0].  A fraction or an exponent is outside the model and is
    refused. *)
Definition parse_integer (s : jsstring) : option (Z * jsstring) :=
  let (neg, s1) :=
    match s with
    | c :: s' => if c =? 45 then (true, s') else (false, s)
    | [] => (false, s)
    end in
  let (ds, rest) := span_digits s1 in
  let follows_ok :=
    match rest with
    | c :: _ => negb ((c =? 46) || (c =? 101) || (c =? 69))
    | [] => true
    end in
  match ds with
  | [] => None
  | d :: ds' =>
      if ((d =? 48) && negb (length ds' =? 0)%nat) || negb follows_ok then None
      else
        let n := Z.of_N (value_of_digits 0 ds) in
        Some ((if neg then - n else n)%Z, rest)
  end.

Definition starts_with (p s : jsstring) : option jsstring :=
  if jsstring_eqb (firstn (length p) s) p then Some (skipn (length p) s) else None.

Fixpoint parse_value (fuel : nat) (s : jsstring) : option (json * jsstring) :=
  match fuel with
  | O => None
  | S fuel' =>
      match skip_ws s with
      | [] => None
      | c :: r =>
          if c =? 34 then
            match parse_string r with
            | Some (t, rest) => Some (JStr t, rest)
            | None => None
            end
          else if c =? 91 then
            match skip_ws r with
            | c' :: r' =>
                if c' =? 93 then Some (JArr [], r')
                else
                  match parse_items fuel' r with
                  | Some (vs, rest) => Some (JArr vs, rest)
                  | None => None
                  end
            | [] => None
            end
          else if c =? 123 then
            match skip_ws r with
            | c' :: r' =>
                if c' =? 125 then Some (JObj [], r')
                else
                  match parse_members fuel' r with
                  | Some (kvs, rest) => Some (JObj kvs, rest)
                  | None => None
                  end
            | [] => None
            end
          else if c =? 110 then
            match starts_with (str "null") (c :: r) with
            | Some rest => Some (JNull, rest)
            | None => None
            end
          else if c =? 116 then
            match starts_with (str "true") (c :: r) with
            | Some rest => Some (JBool true, rest)
            | None => None
            end
          else if c =? 102 then
            match starts_with (str "false") (c :: r) with
            | Some rest => Some (JBool false, rest)
            | None => None
            end
          else
            match parse_integer (c :: r) with
            | Some (n, rest) => Some (JNum n, rest)
            | None => None
            end
      end
  end
with parse_items (fuel : nat) (s : jsstring) : option (list json * jsstring) :=
  match fuel with
  | O => None
  | S fuel' =>
      match parse_value fuel' s with
      | Some (v, r) =>
          match skip_ws r with
          | c :: r' =>
              if c =? 44 then
                match parse_items fuel' r' with
                | Some (vs, rest) => Some (v :: vs, rest)
                | None => None
                end
              else if c =? 93 then Some ([v], r')
              else None
          | [] => None
          end
      | None => None
      end
  end
with parse_members (fuel : nat) (s : jsstring)
  : option (list (jsstring * json) * jsstring) :=
  match fuel with
  | O => None
  | S fuel' =>
      match skip_ws s with
      | q :: r0 =>
          if q =? 34 then
            match parse_string r0 with
            | Some (k, r1) =>
                match skip_ws r1 with
                | c1 :: r2 =>
                    if c1 =? 58 then
                      match parse_value fuel' r2 with
                      | Some (v, r3) =>
                          match skip_ws r3 with
                          | c :: r' =>
                              if c =? 44 then
                                match parse_members fuel' r' with
                                | Some (kvs, rest) => Some ((k, v) :: kvs, rest)
                                | None => None
                                end
                              else if c =? 125 then Some ([(k, v)], r')
                              else None
                          | [] => None
                          end
                      | None => None
                      end
                    else None
                | [] => None
                end
            | None => None
            end
          else None
      | [] => None
      end
  end.

(** [JSON.parse(text)]: [None] stands for the SyntaxError it throws. *)
Definition JSON_parse (text : jsstring) : option json :=
  match parse_value (S (length text)) text with
  | Some (v, rest) =>
      match skip_ws rest with
      | [] => Some v
      | _ :: _ => None
      end
  | None => None
  end.

(** The elements after the first, and the properties after the first, as
    [serialize] writes them. *)
Definition serialize_items (gap inner : nat) : list json -> jsstring :=
  fix items (l : list json) : jsstring :=
    match l with
    | [] => []
    | y :: l' =>
        44 :: newline_indent gap inner ++ serialize gap inner y ++ items l'
    end.

Definition serialize_members (gap inner : nat) : list (jsstring * json) -> jsstring :=
  fix members (l : list (jsstring * json)) : jsstring :=
    match l with
    | [] => []
    | (k, y) :: l' =>
        44 :: newline_indent gap inner ++ quote k ++ colon gap
          ++ serialize gap inner y ++ members l'
    end.

(** Induction on a JSON value, with the hypothesis for every element and every
    property value. *)
Section JsonInduction.
Variable P : json -> Prop.
Hypothesis Hnull : P JNull.
Hypothesis Hbool : forall b, P (JBool b).
Hypothesis Hnum : forall n, P (JNum n).
Hypothesis Hstr : forall s, P (JStr s).
Hypothesis Harr : forall l, Forall P l -> P (JArr l).
Hypothesis Hobj : forall l, Forall (fun kv => P (snd kv)) l -> P (JObj l).

Fixpoint json_ind (v : json) : P v :=
  match v with
  | JNull => Hnull
  | JBool b => Hbool b
  | JNum n => Hnum n
  | JStr s => Hstr s
  | JArr l =>
      Harr ((fix all (l : list json) : Forall P l :=
               match l with
               | [] => Forall_nil P
               | x :: l' => Forall_cons x (json_ind x) (all l')
               end) l)
  | JObj l =>
      Hobj ((fix all (l : list (jsstring * json)) : Forall (fun kv => P (snd kv)) l :=
               match l with
               | [] => Forall_nil _
               | kv :: l' => Forall_cons kv (json_ind (snd kv)) (all l')
               end) l)
  end.
End JsonInduction.

(** The recursion depth [parse_value] needs for the text of a value. *)
Fixpoint weight (v : json) : nat :=
  match v with
  | JArr l =>
      S ((fix sum (l : list json) : nat :=
            match l with
            | [] => O
            | x :: l' => S (weight x + sum l')
            end) l)
  | JObj l =>
      S ((fix sum (l : list (jsstring * json)) : nat :=
            match l with
            | [] => O
            | (_, x) :: l' => S (weight x + sum l')
            end) l)
  | _ => 1%nat
  end.

Fixpoint weight_items (l : list json) : nat :=
  match l with
  | [] => O
  | x :: l' => S (weight x + weight_items l')
  end.

Fixpoint weight_members (l : list (jsstring * json)) : nat :=
  match l with
  | [] => O
  | (_, x) :: l' => S (weight x + weight_members l')
  end.

(** What may follow an integer literal: anything but a digit, a point or an
    exponent mark. *)
Definition ends_number (rest : jsstring) : bool :=
  match rest with
  | [] => true
  | c :: _ => negb (is_digit c || (c =? 46) || (c =? 101) || (c =? 69))
  end.

(** What the parser does on the text of [v], whatever follows. *)
Definition reads_back (v : json) : Prop :=
  forall gap ind rest fuel,
    (weight v <= fuel)%nat -> ends_number rest = true ->
    parse_value fuel (serialize gap ind v ++ rest) = Some (v, rest).

(** Every string of the value consists of 16-bit code units. *)
Fixpoint valid_json (v : json) : bool :=
  match v with
  | JStr s => valid_units s
  | JArr l => forallb valid_json l
  | JObj l => forallb (fun kv => valid_units (fst kv) && valid_json (snd kv)) l
  | _ => true
  end.

(** ** AES-256 in CBC mode with PKCS#7 padding: [crypto]'s ['aes-256-cbc'] *)

Module Aes.

Definition bits : Type :=
  (bool * (bool * (bool * (bool * (bool * (bool * (bool * bool)))))))%type.

Definition bits_xor (a b : bits) : bits :=
  let '(a0, (a1, (a2, (a3, (a4, (a5, (a6, a7))))))) := a in
  let '(b0, (b1, (b2, (b3, (b4, (b5, (b6, b7))))))) := b in
  (xorb a0 b0, (xorb a1 b1, (xorb a2 b2, (xorb a3 b3,
   (xorb a4 b4, (xorb a5 b5, (xorb a6 b6, xorb a7 b7))))))).

(** Addition in GF(2^8). *)
Definition bxor (a b : byte) : byte :=
  Byte.of_bits (bits_xor (Byte.to_bits a) (Byte.to_bits b)).

(** Multiplication by x modulo x^8 + x^4 + x^3 + x + 1. *)
Definition xtime (a : byte) : byte :=
  let '(b0, (b1, (b2, (b3, (b4, (b5, (b6, b7))))))) := Byte.to_bits a in
  Byte.of_bits (b7, (xorb b0 b7, (b1, (xorb b2 b7, (xorb b3 b7, (b4, (b5, b6))))))).

Definition scale (c : bool) (a : byte) : byte := if c then a else x00.

(** Multiplication in GF(2^8): [a] times the polynomial of [k]. *)
Definition gmul (a k : byte) : byte :=
  let '(k0, (k1, (k2, (k3, (k4, (k5, (k6, k7))))))) := Byte.to_bits k in
  let a1 := xtime a in
  let a2 := xtime a1 in
  let a3 := xtime a2 in
  let a4 := xtime a3 in
  let a5 := xtime a4 in
  let a6 := xtime a5 in
  let a7 := xtime a6 in
  bxor (scale k0 a) (bxor (scale k1 a1) (bxor (scale k2 a2) (bxor (scale k3 a3)
    (bxor (scale k4 a4) (bxor (scale k5 a5) (bxor (scale k6 a6) (scale k7 a7))))))).

(** The multiplicative inverse, a^254 (zero goes to zero). *)
Definition gf_inv (a : byte) : byte :=
  let a2 := gmul a a in
  let a4 := gmul a2 a2 in
  let a8 := gmul a4 a4 in
  let a16 := gmul a8 a8 in
  let a32 := gmul a16 a16 in
  let a64 := gmul a32 a32 in
  let a128 := gmul a64 a64 in
  gmul a2 (gmul a4 (gmul a8 (gmul a16 (gmul a32 (gmul a64 a128))))).

Definition affine (a : byte) : byte :=
  let '(b0, (b1, (b2, (b3, (b4, (b5, (b6, b7))))))) := Byte.to_bits a in
  let x a b c d e := xorb a (xorb b (xorb c (xorb d e))) in
  Byte.of_bits (negb (x b0 b4 b5 b6 b7), (negb (x b1 b5 b6 b7 b0),
    (x b2 b6 b7 b0 b1, (x b3 b7 b0 b1 b2, (x b4 b0 b1 b2 b3,
    (negb (x b5 b1 b2 b3 b4), (negb (x b6 b2 b3 b4 b5), x b7 b3 b4 b5 b6))))))).

Definition inv_affine (a : byte) : byte :=
  let '(b0, (b1, (b2, (b3, (b4, (b5, (b6, b7))))))) := Byte.to_bits a in
  let x a b c := xorb a (xorb b c) in
  Byte.of_bits (negb (x b2 b5 b7), (x b3 b6 b0, (negb (x b4 b7 b1),
    (x b5 b0 b2, (x b6 b1 b3, (x b7 b2 b4, (x b0 b3 b5, x b1 b4 b6))))))).

(** The S-box and its inverse. *)
Definition sub_byte (a : byte) : byte := affine (gf_inv a).
Definition inv_sub_byte (a : byte) : byte := gf_inv (inv_affine a).

(** A column of the state and the state, column by column. *)
Definition word : Type := (byte * byte * byte * byte)%type.
Definition block : Type := (word * word * word * word)%type.

Definition map_word (f : byte -> byte) (w : word) : word :=
  let '(a, b, c, d) := w in (f a, f b, f c, f d).

Definition xor_word (v w : word) : word :=
  let '(a, b, c, d) := v in
  let '(a', b', c', d') := w in
  (bxor a a', bxor b b', bxor c c', bxor d d').

Definition map_block (f : word -> word) (s : block) : block :=
  let '(a, b, c, d) := s in (f a, f b, f c, f d).

Definition xor_block (s t : block) : block :=
  let '(a, b, c, d) := s in
  let '(a', b', c', d') := t in
  (xor_word a a', xor_word b b', xor_word c c', xor_word d d').

Definition sub_bytes : block -> block := map_block (map_word sub_byte).
Definition inv_sub_bytes : block -> block := map_block (map_word inv_sub_byte).

(** Row [r] of the state moves [r] columns to the left. *)
Definition shift_rows (s : block) : block :=
  let '((a0, a1, a2, a3), (b0, b1, b2, b3), (c0, c1, c2, c3), (e0, e1, e2, e3)) := s in
  ((a0, b1, c2, e3), (b0, c1, e2, a3), (c0, e1, a2, b3), (e0, a1, b2, c3)).

Definition inv_shift_rows (s : block) : block :=
  let '((a0, a1, a2, a3), (b0, b1, b2, b3), (c0, c1, c2, c3), (e0, e1, e2, e3)) := s in
  ((a0, e1, c2, b3), (b0, a1, e2, c3), (c0, b1, a2, e3), (e0, c1, b2, a3)).

Definition xor4 (a b c d : byte) : byte := bxor a (bxor b (bxor c d)).

Definition mix_column (w : word) : word :=
  let '(a, b, c, d) := w in
  (xor4 (gmul a x02) (gmul b x03) c d,
   xor4 a (gmul b x02) (gmul c x03) d,
   xor4 a b (gmul c x02) (gmul d x03),
   xor4 (gmul a x03) b c (gmul d x02)).

Definition inv_mix_column (w : word) : word :=
  let '(a, b, c, d) := w in
  (xor4 (gmul a x0e) (gmul b x0b) (gmul c x0d) (gmul d x09),
   xor4 (gmul a x09) (gmul b x0e) (gmul c x0b) (gmul d x0d),
   xor4 (gmul a x0d) (gmul b x09) (gmul c x0e) (gmul d x0b),
   xor4 (gmul a x0b) (gmul b x0d) (gmul c x09) (gmul d x0e)).

Definition mix_columns : block -> block := map_block mix_column.
Definition inv_mix_columns : block -> block := map_block inv_mix_column.

Definition add_round_key (s k : block) : block := xor_block s k.

(** The round keys: the first, the thirteen of the full rounds, the last. *)
Record schedule := { first_key : block; middle_keys : list block; last_key : block }.

Definition round (s k : block) : block :=
  add_round_key (mix_columns (shift_rows (sub_bytes s))) k.

Definition inv_round (s k : block) : block :=
  inv_sub_bytes (inv_shift_rows (inv_mix_columns (add_round_key s k))).

(** Cipher and InvCipher of FIPS 197. *)
Definition encrypt_block (ks : schedule) (p : block) : block :=
  add_round_key
    (shift_rows (sub_bytes
       (fold_left round (middle_keys ks) (add_round_key p (first_key ks)))))
    (last_key ks).

Definition decrypt_block (ks : schedule) (c : block) : block :=
  add_round_key
    (fold_left inv_round (rev (middle_keys ks))
       (inv_sub_bytes (inv_shift_rows (add_round_key c (last_key ks)))))
    (first_key ks).

(** KeyExpansion for Nk = 8: [n] more words after the ones of [rev_ws] (latest
    first), the next word having index [i]. *)
Definition zero_word : word := (x00, x00, x00, x00).
Definition rot_word (w : word) : word := let '(a, b, c, d) := w in (b, c, d, a).

Fixpoint expand (n i : nat) (rc : byte) (rev_ws : list word) : list word :=
  match n with
  | O => rev rev_ws
  | S n' =>
      let prev := nth 0 rev_ws zero_word in
      let back := nth 7 rev_ws zero_word in
      if (i mod 8 =? 0)%nat then
        expand n' (S i) (xtime rc)
          (xor_word back
             (xor_word (map_word sub_byte (rot_word prev)) (rc, x00, x00, x00))
           :: rev_ws)
      else if (i mod 8 =? 4)%nat then
        expand n' (S i) rc (xor_word back (map_word sub_byte prev) :: rev_ws)
      else expand n' (S i) rc (xor_word back prev :: rev_ws)
  end.

Fixpoint words_of_bytes (bs : buffer) : list word :=
  match bs with
  | a :: b :: c :: d :: rest => (a, b, c, d) :: words_of_bytes rest
  | _ => []
  end.

Fixpoint blocks_of_words (ws : list word) : list block :=
  match ws with
  | a :: b :: c :: d :: rest => (a, b, c, d) :: blocks_of_words rest
  | _ => []
  end.

Definition zero_block : block := (zero_word, zero_word, zero_word, zero_word).

(** The key schedule of a 32-byte key. *)
Definition key_schedule (key : buffer) : schedule :=
  let rks := blocks_of_words (expand 52 8 x01 (rev (words_of_bytes key))) in
  {| first_key := hd zero_block rks;
     middle_keys := firstn 13 (tl rks);
     last_key := nth 14 rks zero_block |}.

Definition bytes_of_word (w : word) : buffer := let '(a, b, c, d) := w in [a; b; c; d].

Definition bytes_of_block (s : block) : buffer :=
  let '(a, b, c, d) := s in
  bytes_of_word a ++ bytes_of_word b ++ bytes_of_word c ++ bytes_of_word d.

Definition join_blocks (bs : list block) : buffer := flat_map bytes_of_block bs.

(** The complete 16-byte blocks at the front of [data], and the rest. *)
Fixpoint split_blocks (data : buffer) : list block * buffer :=
  match data with
  | a0 :: a1 :: a2 :: a3 :: b0 :: b1 :: b2 :: b3
    :: c0 :: c1 :: c2 :: c3 :: e0 :: e1 :: e2 :: e3 :: rest =>
      let (bs, r) := split_blocks rest in
      (((a0, a1, a2, a3), (b0, b1, b2, b3), (c0, c1, c2, c3), (e0, e1, e2, e3)) :: bs, r)
  | _ => ([], data)
  end.

(** CBC chaining over whole blocks; the last ciphertext block is the next
    chaining value. *)
Fixpoint cbc_encrypt (ks : schedule) (chain : block) (ps : list block)
  : list block * block :=
  match ps with
  | [] => ([], chain)
  | p :: ps' =>
      let c := encrypt_block ks (xor_block p chain) in
      let (cs, chain') := cbc_encrypt ks c ps' in
      (c :: cs, chain')
  end.

Fixpoint cbc_decrypt (ks : schedule) (chain : block) (cs : list block)
  : list block * block :=
  match cs with
  | [] => ([], chain)
  | c :: cs' =>
      let p := xor_block (decrypt_block ks c) chain in
      let (ps, chain') := cbc_decrypt ks c cs' in
      (p :: ps, chain')
  end.

(** PKCS#7: [16 - n mod 16] bytes of that value complete the last block. *)
Definition padding (n : nat) : buffer :=
  let k := (16 - n mod 16)%nat in repeat (byte_of_N (N.of_nat k)) k.

(** The plaintext of a final block, when its padding is well formed. *)
Definition unpad (last : buffer) : option buffer :=
  let n := N.to_nat (Byte.to_N (List.last last x00)) in
  if ((1 <=? n) && (n <=? 16))%nat
     && forallb (fun b => Byte.eqb b (List.last last x00)) (skipn (16 - n) last)
  then Some (firstn (16 - n) last)
  else None.

End Aes.

(** ** Exceptions *)

Inductive JsError :=
| Err (message : jsstring)          (* [new Error(message)] *)
| TypeError (message : jsstring)
| SyntaxError                        (* thrown by [JSON.parse] *)
| InvalidIV                          (* crypto: ERR_CRYPTO_INVALID_IV *)
| InvalidKeyLength                   (* crypto: ERR_CRYPTO_INVALID_KEYLEN *)
| WrongFinalBlockLength              (* crypto: the ciphertext is no whole number of blocks *)
| BadDecrypt                         (* crypto: the padding of the last block is malformed *)
| SystemError (code : jsstring)      (* fs: ENOENT, EACCES, ... *)
| ClientError (message : jsstring).  (* a rejection of the database client *)

Inductive result (A : Type) :=
| Ok (a : A)
| Throw (e : JsError).
Arguments Ok {A} a.
Arguments Throw {A} e.

Definition bind_result {A B} (r : result A) (k : A -> result B) : result B :=
  match r with
  | Ok a => k a
  | Throw e => Throw e
  end.

(** ** [crypto.createCipheriv('aes-256-cbc', key, iv)] and its decipher *)

(** A Cipher or Decipher object: the round keys, the chaining value and the
    input not yet processed. *)
Record Cipher := {
  keys : Aes.schedule;
  chain : Aes.block;
  pending : buffer
}.

(** The state of a fresh cipher or decipher. *)
Definition fresh (ks : Aes.schedule) (iv : Aes.block) : Cipher :=
  {| keys := ks; chain := iv; pending := [] |}.

(** The initialization vector is checked first, then the key. *)
Definition createCipheriv (key iv : buffer) : result Cipher :=
  if negb (length iv =? 16)%nat then Throw InvalidIV
  else if negb (length key =? 32)%nat then Throw InvalidKeyLength
  else Ok (fresh (Aes.key_schedule key)
                 (hd Aes.zero_block (fst (Aes.split_blocks iv)))).

Definition createDecipheriv (key iv : buffer) : result Cipher :=
  createCipheriv key iv.

(** [cipher.update(data)]: the complete blocks are encrypted, the rest waits. *)
Definition cipher_update (c : Cipher) (data : buffer) : Cipher * buffer :=
  let (ps, rest) := Aes.split_blocks (pending c ++ data) in
  let (cs, chain') := Aes.cbc_encrypt (keys c) (chain c) ps in
  ({| keys := keys c; chain := chain'; pending := rest |}, Aes.join_blocks cs).

(** [cipher.final()]: the padded last block. *)
Definition cipher_final (c : Cipher) : buffer :=
  let (ps, _) := Aes.split_blocks (pending c ++ Aes.padding (length (pending c))) in
  Aes.join_blocks (fst (Aes.cbc_encrypt (keys c) (chain c) ps)).

(** [decipher.update(data)]: as for a cipher, but a complete block that ends
    the input so far is held back, for it may carry the padding. *)
Definition decipher_update (c : Cipher) (data : buffer) : Cipher * buffer :=
  let (cs, rest) := Aes.split_blocks (pending c ++ data) in
  match rest, rev cs with
  | [], held :: rev_cs =>
      let (ps, chain') := Aes.cbc_decrypt (keys c) (chain c) (rev rev_cs) in
      ({| keys := keys c; chain := chain'; pending := Aes.bytes_of_block held |},
       Aes.join_blocks ps)
  | _, _ =>
      let (ps, chain') := Aes.cbc_decrypt (keys c) (chain c) cs in
      ({| keys := keys c; chain := chain'; pending := rest |}, Aes.join_blocks ps)
  end.

(** [decipher.final()]: the block held back, without its padding. *)
Definition decipher_final (c : Cipher) : result buffer :=
  match Aes.split_blocks (pending c) with
  | ([held], []) =>
      match Aes.unpad (Aes.join_blocks (fst (Aes.cbc_decrypt (keys c) (chain c) [held]))) with
      | Some plain => Ok plain
      | None => Throw BadDecrypt
      end
  | _ => Throw WrongFinalBlockLength
  end.

(** ** The process and its environment *)

(** [process.hrtime()]: seconds and nanoseconds of the monotonic clock. *)
Record HrTime := { seconds : N; nanoseconds : N }.

(** [process.memoryUsage()] *)
Record MemoryUsage := { rss : N; heapTotal : N; heapUsed : N; external : N }.

(** The [times] of one entry of [os.cpus()]: ticks spent in each state. *)
Record CpuTimes := { t_user : N; t_nice : N; t_sys : N; t_idle : N; t_irq : N }.

Record Process := {
  hrtime_now : HrTime;
  memory : MemoryUsage;
  cpus : list CpuTimes;
  date_iso : jsstring            (* [new Date().toISOString()] *)
}.

Record Request := { req_method : jsstring; req_url : jsstring }.
Record Response := { res_statusCode : Z }.

(** The database behind [sqlClient] or [mongoClient]: the rows stored by
    table or collection, and the error with which it rejects a command, if it
    does. *)
Record Database := {
  rows : list (jsstring * json);
  fault : option JsError
}.

Record World := {
  files : jsstring -> option buffer;        (* path to content; [None]: no such file *)
  write_error : jsstring -> option JsError; (* paths that cannot be written, and why *)
  console : list (jsstring * JsError);      (* what [console.error] printed *)
  database : Database;
  process : Process;
  sent : list Response                      (* the responses already sent *)
}.

(** Computations that read and change the world and may throw. *)
Definition M (A : Type) : Type := World -> result A * World.

Definition ret {A} (a : A) : M A := fun w => (Ok a, w).
Definition throw {A} (e : JsError) : M A := fun w => (Throw e, w).

Definition bind {A B} (m : M A) (k : A -> M B) : M B :=
  fun w =>
    match m w with
    | (Ok a, w') => k a w'
    | (Throw e, w') => (Throw e, w')
    end.

Definition lift {A} (r : result A) : M A := fun w => (r, w).

(** [try { body } catch (error) { handler(error) }] *)
Definition try_catch {A} (body : M A) (handler : JsError -> M A) : M A :=
  fun w =>
    match body w with
    | (Ok a, w') => (Ok a, w')
    | (Throw e, w') => handler e w'
    end.

Declare Scope js_scope.
Delimit Scope js_scope with js.
Notation "x <- m ;; k" := (bind m (fun x => k))
  (at level 61, m at next level, right associativity) : js_scope.
Notation "m ;;; k" := (bind m (fun _ => k))
  (at level 61, right associativity) : js_scope.
Local Open Scope js_scope.

Definition set_files (w : World) (f : jsstring -> option buffer) : World :=
  {| files := f; write_error := write_error w; console := console w;
     database := database w; process := process w; sent := sent w |}.

Definition set_console (w : World) (c : list (jsstring * JsError)) : World :=
  {| files := files w; write_error := write_error w; console := c;
     database := database w; process := process w; sent := sent w |}.

Definition set_database (w : World) (d : Database) : World :=
  {| files := files w; write_error := write_error w; console := console w;
     database := d; process := process w; sent := sent w |}.


Definition path_error : JsError :=
  TypeError (str "The path argument must be of type string").

(** [fs.existsSync(path)] *)
Definition fs_existsSync (path : option jsstring) : M bool :=
  fun w =>
    match path with
    | Some p => (Ok (match files w p with Some _ => true | None => false end), w)
    | None => (Ok false, w)
    end.

(** [fs.readFileSync(path, 'utf8')] *)
Definition fs_readFileSync (path : option jsstring) : M jsstring :=
  fun w =>
    match path with
    | Some p =>
        match files w p with
        | Some content => (Ok (utf8_decode content), w)
        | None => (Throw (SystemError (str "ENOENT")), w)
        end
    | None => (Throw path_error, w)
    end.

(** [fs.writeFileSync(path, data, 'utf8')] *)
Definition fs_writeFileSync (path : option jsstring) (data : jsstring) : M unit :=
  fun w =>
    match path with
    | Some p =>
        match write_error w p with
        | Some e => (Throw e, w)
        | None =>
            (Ok tt,
             set_files w (fun q => if jsstring_eqb q p then Some (utf8_encode data)
                                   else files w q))
        end
    | None => (Throw path_error, w)
    end.

(** [console.error(message, error)] *)
Definition console_error (message : jsstring) (error : JsError) : M unit :=
  fun w => (Ok tt, set_console w (console w ++ [(message, error)])).

(** [await sqlClient.query('INSERT INTO table ...', values)] and
    [await collection.insertOne(document)]. *)
Definition db_insert (table : jsstring) (row : json) : M unit :=
  fun w =>
    match fault (database w) with
    | Some e => (Throw e, w)
    | None =>
        (Ok tt,
         set_database w {| rows := rows (database w) ++ [(table, row)];
                           fault := fault (database w) |})
    end.


(** [process.hrtime(start)]: the time since [start]. *)
Definition process_hrtime_since (start : HrTime) : M (Z * Z) :=
  fun w =>
    let now := hrtime_now (process w) in
    let sec := (Z.of_N (seconds now) - Z.of_N (seconds start))%Z in
    let nsec := (Z.of_N (nanoseconds now) - Z.of_N (nanoseconds start))%Z in
    (Ok (if (nsec <? 0)%Z then (sec - 1, nsec + 1000000000) else (sec, nsec))%Z, w).

Definition process_memoryUsage : M MemoryUsage := fun w => (Ok (memory (process w)), w).
Definition os_cpus : M (list CpuTimes) := fun w => (Ok (cpus (process w)), w).
Definition date_toISOString : M jsstring := fun w => (Ok (date_iso (process w)), w).

(* ------------------------------------------------------------------ *)
(** ** [lib/logger.js]                                                 *)
(* ------------------------------------------------------------------ *)

(** *** The configuration file *)

Record TextConfig := {
  file_path : option jsstring;
  enable_log_security : option bool;
  log_security_encryption_key : option jsstring
}.

Record DbConfig := {
  connectionString : option jsstring;
  collectionName : option jsstring
}.

Record Config := {
  database_type : option jsstring;
  text : option TextConfig;
  sql : option DbConfig;
  nosql : option DbConfig
}.

(** Truthiness of an optional string and of an optional boolean. *)
Definition truthy_string (s : option jsstring) : bool :=
  match s with
  | Some (_ :: _) => true
  | _ => false
  end.

Definition truthy_bool (b : option bool) : bool :=
  match b with
  | Some true => true
  | _ => false
  end.

(** [a || b] on optional strings. *)
Definition or_default (a : option jsstring) (b : jsstring) : jsstring :=
  match a with
  | Some (c :: s) => c :: s
  | _ => b
  end.

(** The module-level variables once the module is loaded (lines 17-81). *)
Record Context := {
  config : Config;
  dbType : jsstring;
  logFilePath : option jsstring;
  enableTextEncryption : bool;
  encryptionKey : option jsstring
}.

(** [path.resolve(process.cwd(), p)]: paths are the keys of [files]. *)
Definition path_resolve (p : jsstring) : jsstring := p.

(** Lines 17-81: what loading the module does with the configuration.  The
    connections that the sql and nosql branches open (lines 36-59, 64-65)
    complete after the module is loaded and do not decide whether it loads;
    what they leave behind is the [database] of the world. *)
Definition load (config : Config) : result Context :=
  if negb (truthy_string (database_type config)) then
    Throw (Err (str "Database type is not specified in the configuration file"))
  else
    let dbType := or_default (database_type config) [] in
    bind_result
      (if jsstring_eqb dbType (str "text") then
         match text config with
         | Some t =>
             if truthy_string (file_path t)
             then Ok (Some (path_resolve (or_default (file_path t) [])))
             else Throw (Err (str "Text file path is not specified in the configuration file"))
         | None =>
             Throw (Err (str "Text file path is not specified in the configuration file"))
         end
       else if jsstring_eqb dbType (str "sql") then
         match sql config with
         | Some s =>
             if truthy_string (connectionString s) then Ok None
             else Throw (Err (str "SQL connection string is not specified in the configuration file"))
         | None =>
             Throw (Err (str "SQL connection string is not specified in the configuration file"))
         end
       else if jsstring_eqb dbType (str "nosql") then
         match nosql config with
         | Some s =>
             if truthy_string (connectionString s) then Ok None
             else Throw (Err (str "NoSQL connection string is not specified in the configuration file"))
         | None =>
             Throw (Err (str "NoSQL connection string is not specified in the configuration file"))
         end
       else Throw (Err (str "Unsupported database type: " ++ dbType)))
      (fun logFilePath =>
         let enableTextEncryption :=
           if jsstring_eqb dbType (str "text")
           then match text config with
                | Some t => truthy_bool (enable_log_security t)
                | None => false
                end
           else false in
         if enableTextEncryption then
           let encryptionKey :=
             match text config with
             | Some t => log_security_encryption_key t
             | None => None
             end in
           if negb (truthy_string encryptionKey) then
             Throw (Err (str "Encryption key is not set in the configuration file"))
           else
             Ok {| config := config; dbType := dbType; logFilePath := logFilePath;
                   enableTextEncryption := true; encryptionKey := encryptionKey |}
         else
           Ok {| config := config; dbType := dbType; logFilePath := logFilePath;
                 enableTextEncryption := false; encryptionKey := None |}).

(** *** [encryptLogData] and [decryptLogData] *)

Definition undefined_key_error : JsError :=
  TypeError (str "Cannot read properties of undefined (reading 'slice')").

(** Lines 88-97.  The result is [log] itself when encryption is off, and the
    hex string of the ciphertext otherwise. *)
Definition encryptLogData (ctx : Context) (log : json) : result json :=
  if negb (enableTextEncryption ctx) then Ok log
  else
    match encryptionKey ctx with
    | None => Throw undefined_key_error
    | Some encryptionKey =>
        let iv := utf8_encode (slice encryptionKey 0 16) in
        bind_result (createCipheriv (utf8_encode encryptionKey) iv) (fun cipher =>
        let (cipher, updated) := cipher_update cipher (utf8_encode (JSON_stringify log)) in
        let encrypted := hex_encode updated in
        let encrypted := encrypted ++ hex_encode (cipher_final cipher) in
        Ok (JStr encrypted))
    end.

(** Lines 104-110.  The two chunks the decipher returns are decoded by one
    decoder, so that a character split between them is decoded whole. *)
Definition decryptLogData (ctx : Context) (data : json) : result json :=
  match encryptionKey ctx with
  | None => Throw undefined_key_error
  | Some encryptionKey =>
      let iv := utf8_encode (slice encryptionKey 0 16) in
      bind_result (createDecipheriv (utf8_encode encryptionKey) iv) (fun decipher =>
      match data with
      | JStr data =>
          let (decipher, updated) := decipher_update decipher (hex_decode data) in
          bind_result (decipher_final decipher) (fun final =>
          let decrypted := utf8_decode (updated ++ final) in
          match JSON_parse decrypted with
          | Some v => Ok v
          | None => Throw SyntaxError
          end)
      | _ => Throw (TypeError (str "The data argument must be of type string"))
      end)
  end.

(** *** [getCpuUsage] *)

Record CpuUsage := {
  user : jsstring;
  system : jsstring;
  idle : jsstring;
  total : N
}.

(** Lines 116-136, on the result of [os.cpus()]. *)
Definition getCpuUsage (cpus : list CpuTimes) : CpuUsage :=
  let user := fold_left (fun acc cpu => acc + t_user cpu) cpus 0 in
  let nice := fold_left (fun acc cpu => acc + t_nice cpu) cpus 0 in
  let sys := fold_left (fun acc cpu => acc + t_sys cpu) cpus 0 in
  let idle := fold_left (fun acc cpu => acc + t_idle cpu) cpus 0 in
  let irq := fold_left (fun acc cpu => acc + t_irq cpu) cpus 0 in
  let total := user + nice + sys + idle + irq in
  {| user := toFixed 2 (js_mul (js_div (number_of_N user) (number_of_N total))
                               (number_of_N 100));
     system := toFixed 2 (js_mul (js_div (number_of_N sys) (number_of_N total))
                                 (number_of_N 100));
     idle := toFixed 2 (js_mul (js_div (number_of_N idle) (number_of_N total))
                               (number_of_N 100));
     total := total |}.

(** Lines 116-136 with every sum, quotient and product rounded to binary64. *)
Definition getCpuUsage_binary64 (cpus : list CpuTimes) : CpuUsage :=
  let sum f :=
    fold_left (fun acc cpu => binary64_add acc (binary64_of_N (f cpu))) cpus
              (binary64_of_Z 0) in
  let user := sum t_user in
  let nice := sum t_nice in
  let sys := sum t_sys in
  let idle := sum t_idle in
  let irq := sum t_irq in
  let total :=
    binary64_add (binary64_add (binary64_add (binary64_add user nice) sys) idle) irq in
  let percent x :=
    toFixed 2 (number_of_binary64
                 (binary64_mul (binary64_div x total) (binary64_of_Z 100))) in
  {| user := percent user;
     system := percent sys;
     idle := percent idle;
     total := match number_of_binary64 total with
              | Num q => Z.to_N (Qnum q / Zpos (Qden q))
              | _ => 0
              end |}.

(** *** The log record *)

Record LogRecord := {
  method : jsstring;
  url : jsstring;
  statusCode : Z;
  responseTime : jsstring;
  timestamp : jsstring;
  memoryUsage : MemoryUsage;
  cpuUsage : CpuUsage
}.

Definition memoryUsage_object (m : MemoryUsage) : json :=
  JObj [(str "rss", JNum (Z.of_N (rss m)));
        (str "heapTotal", JNum (Z.of_N (heapTotal m)));
        (str "heapUsed", JNum (Z.of_N (heapUsed m)));
        (str "external", JNum (Z.of_N (external m)))].

Definition cpuUsage_object (c : CpuUsage) : json :=
  JObj [(str "user", JStr (user c));
        (str "system", JStr (system c));
        (str "idle", JStr (idle c));
        (str "total", JNum (Z.of_N (total c)))].

(** The object [log] of lines 151-164. *)
Definition log_object (r : LogRecord) : json :=
  JObj [(str "method", JStr (method r));
        (str "url", JStr (url r));
        (str "statusCode", JNum (statusCode r));
        (str "responseTime", JStr (responseTime r));
        (str "timestamp", JStr (timestamp r));
        (str "memoryUsage", memoryUsage_object (memoryUsage r));
        (str "cpuUsage", cpuUsage_object (cpuUsage r))].

(** Lines 147-164: the record of a request that started at [start]. *)
Definition make_log (start : HrTime) (req : Request) (res : Response) : M LogRecord :=
  elapsed <- process_hrtime_since start ;;
  let elapsedTimeInMs :=
    js_add (js_mul (number_of_Z (fst elapsed)) (number_of_Z 1000))
           (js_div (number_of_Z (snd elapsed)) (number_of_Z 1000000)) in
  memoryUsage <- process_memoryUsage ;;
  cpus <- os_cpus ;;
  let cpuUsage := getCpuUsage cpus in
  timestamp <- date_toISOString ;;
  ret {| method := req_method req;
         url := req_url req;
         statusCode := res_statusCode res;
         responseTime := toFixed 3 elapsedTimeInMs;
         timestamp := timestamp;
         memoryUsage := {| rss := rss memoryUsage;
                           heapTotal := heapTotal memoryUsage;
                           heapUsed := heapUsed memoryUsage;
                           external := external memoryUsage |};
         cpuUsage := cpuUsage |}.

(** The response time of line 155 with the product, the quotient and the sum
    of line 148 rounded to binary64. *)
Definition elapsedTimeInMs_binary64 (elapsed : Z * Z) : binary64 :=
  binary64_add (binary64_mul (binary64_of_Z (fst elapsed)) (binary64_of_Z 1000))
               (binary64_div (binary64_of_Z (snd elapsed)) (binary64_of_Z 1000000)).

(** *** The write of a record (the [try] block, lines 167-185) *)

Definition not_an_array : JsError := TypeError (str "logs.push is not a function").

Definition table_of (c : option DbConfig) : jsstring :=
  or_default (match c with Some d => collectionName d | None => None end)
             (str "loggerData").

Definition write_log (ctx : Context) (log : LogRecord) : M unit :=
  if jsstring_eqb (dbType ctx) (str "text") then
    encryptedLog <- lift (encryptLogData ctx (log_object log)) ;;
    present <- fs_existsSync (logFilePath ctx) ;;
    logs <- (if present then
               fileData <- fs_readFileSync (logFilePath ctx) ;;
               match fileData with
               | [] => ret (JArr [])
               | _ :: _ =>
                   match JSON_parse fileData with
                   | Some v => ret v
                   | None => throw SyntaxError
                   end
               end
             else ret (JArr [])) ;;
    match logs with
    | JArr logs =>
        fs_writeFileSync (logFilePath ctx)
          (JSON_stringify_indent2 (JArr (logs ++ [encryptedLog])))
    | _ => throw not_an_array
    end
  else if jsstring_eqb (dbType ctx) (str "sql") then
    db_insert (table_of (sql (config ctx)))
      (JArr [JStr (method log); JStr (url log); JNum (statusCode log);
             JStr (responseTime log); JStr (timestamp log);
             JStr (JSON_stringify (memoryUsage_object (memoryUsage log)));
             JStr (JSON_stringify (cpuUsage_object (cpuUsage log)))])
  else if jsstring_eqb (dbType ctx) (str "nosql") then
    db_insert (table_of (nosql (config ctx))) (log_object log)
  else ret tt.

(** Lines 166-188: the write, and the [catch] that reports its failure. *)
Definition store (ctx : Context) (log : LogRecord) : M unit :=
  try_catch (write_log ctx log)
            (fun error => console_error (str "Error logging data:") error).

(** The listener of the response's ['finish'] event (lines 146-189). *)
Definition on_finish (ctx : Context) (start : HrTime) (req : Request) (res : Response)
  : M unit :=
  log <- make_log start req res ;;
  store ctx log.


(** *** [readTextLogs] (lines 197-212) *)

Definition not_a_list : JsError := TypeError (str "logs.map is not a function").

Fixpoint map_result {A B} (f : A -> result B) (l : list A) : result (list B) :=
  match l with
  | [] => Ok []
  | x :: l' =>
      bind_result (f x) (fun y =>
      bind_result (map_result f l') (fun ys => Ok (y :: ys)))
  end.

Definition readTextLogs (ctx : Context) : M json :=
  if negb (jsstring_eqb (dbType ctx) (str "text")) then
    throw (Err (str "Text file path is not specified in the configuration file"))
  else
    fileData <- fs_readFileSync (logFilePath ctx) ;;
    match fileData with
    | [] => throw (Err (str "Log file is empty"))
    | _ :: _ =>
        match JSON_parse fileData with
        | None => throw SyntaxError
        | Some logs =>
            match text (config ctx) with
            | None => throw (TypeError (str "Cannot read properties of undefined"))
            | Some t =>
                if truthy_bool (enable_log_security t) then
                  match logs with
                  | JArr logs =>
                      decrypted <- lift (map_result (decryptLogData ctx) logs) ;;
                      ret (JArr decrypted)
                  | _ => throw not_a_list
                  end
                else ret logs
            end
        end
    end.

(** *** The errors of the specification, as the code throws them *)

Definition UnsupportedOperationError : JsError :=
  Err (str "Text file path is not specified in the configuration file").

Definition EmptyLogError : JsError := Err (str "Log file is empty").

(** *** Keys, records and runs of the specification *)

(** The first [k] characters of [s] are there and are ASCII. *)
Definition ascii_prefix (k : nat) (s : jsstring) : bool :=
  (k <=? length s)%nat && forallb (fun c => c <? 128) (firstn k s).

(** A key under which records can be encrypted: 32 bytes of UTF-8, the first
    16 characters ASCII (they make the 16 bytes of the initialization vector).
    A key of 32 ASCII characters is one. *)
Definition usable_key (key : jsstring) : bool :=
  (length (utf8_encode key) =? 32)%nat && ascii_prefix 16 key.

(** The ciphertext of a value under a key: the text of the value in UTF-8,
    padded, encrypted in CBC mode with the first 16 bytes of the key as
    initialization vector. *)
Definition ciphertext (key : jsstring) (log : json) : buffer :=
  let key_bytes := utf8_encode key in
  let iv := hd Aes.zero_block (fst (Aes.split_blocks (firstn 16 key_bytes))) in
  let data := utf8_encode (JSON_stringify log) in
  Aes.join_blocks
    (fst (Aes.cbc_encrypt (Aes.key_schedule key_bytes) iv
            (fst (Aes.split_blocks (data ++ Aes.padding (length data)))))).

(** A record whose strings are strings of 16-bit code units. *)
Definition serializable (r : LogRecord) : bool := valid_json (log_object r).

(** The world after the records of [rs] were written one after the other. *)
Definition after_writes (ctx : Context) (rs : list LogRecord) (w : World) : World :=
  fold_left (fun w r => snd (store ctx r w)) rs w.

(** The log file at [path] holds the entries of [entries], as the logger
    writes them. *)
Definition stored (w : World) (path : jsstring) (entries : list json) : Prop :=
  files w path = Some (utf8_encode (JSON_stringify_indent2 (JArr entries))).

(** The world in which the log file at [path] was rewritten with [entries]. *)
Definition written (w : World) (path : jsstring) (entries : list json) : World :=
  set_files w (fun q => if jsstring_eqb q path
                        then Some (utf8_encode (JSON_stringify_indent2 (JArr entries)))
                        else files w q).

(** The entry of the log file for a record: the record, or its ciphertext. *)
Definition entry_of (ctx : Context) (r : LogRecord) : json :=
  match encryptLogData ctx (log_object r) with
  | Ok e => e
  | Throw _ => JNull
  end.

(** The key of the context, when encryption is on, is usable. *)
Definition usable_context (ctx : Context) : bool :=
  if enableTextEncryption ctx
  then match encryptionKey ctx with
       | Some key => usable_key key
       | None => false
       end
  else true.

(** The sum over the cores of one tick counter. *)
Definition sum_ticks (f : CpuTimes -> N) (cpus : list CpuTimes) : N :=
  fold_right (fun cpu acc => f cpu + acc) 0 cpus.

(** [p] is the integer nearest to [num / den], the larger when there are two. *)
Definition rounds_to (p num den : N) : Prop :=
  2 * p * den <= 2 * num + den /\ 2 * num + den < 2 * (p + 1) * den.


(** A core on which no tick was counted. *)
Definition no_ticks (cpu : CpuTimes) : Prop :=
  t_user cpu = 0 /\ t_nice cpu = 0 /\ t_sys cpu = 0 /\ t_idle cpu = 0 /\ t_irq cpu = 0.

(** *** Sample configurations, worlds and records *)

Definition sample_key : jsstring := str "0123456789abcdef0123456789abcdef".

(** Sixteen times U+00E9: 32 bytes of UTF-8 in 16 characters. *)
Definition accented_key : jsstring := repeat 233 16.

(** 31 and 33 ASCII characters. *)
Definition short_key : jsstring := str "0123456789abcdef0123456789abcde".
Definition long_key : jsstring := str "0123456789abcdef0123456789abcdef0".

Definition log_path : jsstring := str "./logs/log.txt".

Definition text_config (secure : bool) (key : option jsstring) : Config :=
  {| database_type := Some (str "text");
     text := Some {| file_path := Some log_path;
                     enable_log_security := Some secure;
                     log_security_encryption_key := key |};
     sql := None;
     nosql := None |}.

Definition sql_config : Config :=
  {| database_type := Some (str "sql");
     text := None;
     sql := Some {| connectionString := Some (str "postgres://localhost/logs");
                    collectionName := None |};
     nosql := None |}.

(** The contexts these configurations load. *)
Definition plain_context : Context :=
  {| config := text_config false None; dbType := str "text";
     logFilePath := Some log_path; enableTextEncryption := false;
     encryptionKey := None |}.

Definition secure_context (key : jsstring) : Context :=
  {| config := text_config true (Some key); dbType := str "text";
     logFilePath := Some log_path; enableTextEncryption := true;
     encryptionKey := Some key |}.

Definition sql_context : Context :=
  {| config := sql_config; dbType := str "sql"; logFilePath := None;
     enableTextEncryption := false; encryptionKey := None |}.

(** A process 42 ms after the start mark [sample_start], on one core. *)
Definition sample_start : HrTime := {| seconds := 10; nanoseconds := 0 |}.

Definition sample_process : Process :=
  {| hrtime_now := {| seconds := 10; nanoseconds := 42000000 |};
     memory := {| rss := 50331648; heapTotal := 20971520; heapUsed := 12582912;
                  external := 1048576 |};
     cpus := [{| t_user := 33336; t_nice := 0; t_sys := 33336; t_idle := 33328;
                 t_irq := 0 |}];
     date_iso := str "2024-01-01T00:00:00.000Z" |}.

(** No file, every path writable, a database that accepts commands. *)
Definition empty_world : World :=
  {| files := fun _ => None;
     write_error := fun _ => None;
     console := [];
     database := {| rows := []; fault := None |};
     process := sample_process;
     sent := [{| res_statusCode := 200 |}] |}.

(** The same world with a database that rejects every command. *)
Definition faulty_world : World :=
  set_database empty_world
    {| rows := []; fault := Some (ClientError (str "connection terminated")) |}.

(** The same world with an empty log file. *)
Definition empty_file_world : World :=
  set_files empty_world (fun q => if jsstring_eqb q log_path then Some [] else None).

Definition sample_request : Request := {| req_method := str "GET"; req_url := [47; 99; 97; 102; 233] |}.
Definition sample_response : Response := {| res_statusCode := 200 |}.

Definition sample_record : LogRecord :=
  {| method := str "GET";
     url := [47; 99; 97; 102; 233];
     statusCode := 200;
     responseTime := str "42.000";
     timestamp := str "2024-01-01T00:00:00.000Z";
     memoryUsage := memory sample_process;
     cpuUsage := getCpuUsage (cpus sample_process) |}.

Definition other_record : LogRecord :=
  {| method := str "POST";
     url := str "/orders?id=7";
     statusCode := 201;
     responseTime := str "3.250";
     timestamp := str "2024-01-01T00:00:01.000Z";
     memoryUsage := memory sample_process;
     cpuUsage := getCpuUsage (cpus sample_process) |}.

(** *** Notions of the further properties *)

(** A lower-case hexadecimal digit. *)
Definition is_hex_digit (c : codeunit) : bool :=
  ((48 <=? c) && (c <=? 57)) || ((97 <=? c) && (c <=? 102)).

(** The counters of a core, each multiplied by [k]. *)
Definition scale_ticks (k : N) (cpu : CpuTimes) : CpuTimes :=
  {| t_user := k * t_user cpu; t_nice := k * t_nice cpu; t_sys := k * t_sys cpu;
     t_idle := k * t_idle cpu; t_irq := k * t_irq cpu |}.

(** A configuration for the nosql backend, and the context it loads. *)
Definition nosql_config : Config :=
  {| database_type := Some (str "nosql");
     text := None;
     sql := None;
     nosql := Some {| connectionString := Some (str "mongodb://localhost/logs");
                      collectionName := None |} |}.

Definition nosql_context : Context :=
  {| config := nosql_config; dbType := str "nosql"; logFilePath := None;
     enableTextEncryption := false; encryptionKey := None |}.

(* ================================================================== *)
(** * Part II. Properties                                              *)
(* ================================================================== *)

(** Case analysis on every comparison of naturals [N] in the goal. *)
Ltac n_cases :=
  repeat (match goal with
    | |- context [N.leb ?a ?b] => destruct (N.leb_spec a b)
    | |- context [N.ltb ?a ?b] => destruct (N.ltb_spec a b)
    | |- context [N.eqb ?a ?b] => destruct (N.eqb_spec a b)
    end; cbv iota; cbn [andb orb negb]).

(** Replaces every comparison of the goal by its value, when linear
    arithmetic settles it from the hypotheses. *)
Ltac n_decide :=
  repeat (match goal with
    | |- context [N.leb ?a ?b] =>
        first [ replace (N.leb a b) with true by (symmetry; apply N.leb_le; lia)
              | replace (N.leb a b) with false by (symmetry; apply N.leb_gt; lia) ]
    | |- context [N.ltb ?a ?b] =>
        first [ replace (N.ltb a b) with true by (symmetry; apply N.ltb_lt; lia)
              | replace (N.ltb a b) with false by (symmetry; apply N.ltb_ge; lia) ]
    | |- context [N.eqb ?a ?b] =>
        first [ replace (N.eqb a b) with true by (symmetry; apply N.eqb_eq; lia)
              | replace (N.eqb a b) with false by (symmetry; apply N.eqb_neq; lia) ]
    end; cbv iota; cbn [andb orb negb]).

(** Names the quotient and the remainder of [c] by [k], with their equation. *)
Ltac divmod c k q r :=
  let Hq := fresh "Hdiv" in
  let Hr := fresh "Hmod" in
  pose proof (N.div_mod' c k) as Hq;
  assert (Hr : c mod k < k) by (apply N.mod_lt; discriminate);
  set (q := c / k) in *; set (r := c mod k) in *; clearbody q r.

(** ** Bytes *)

Section Bytes.

Lemma to_N_below_256 (b : byte) : Byte.to_N b < 256.
Proof. pose proof (Byte.to_N_bounded b). lia. Qed.

Lemma byte_of_N_to_N (b : byte) : byte_of_N (Byte.to_N b) = b.
Proof.
  unfold byte_of_N.
  rewrite N.mod_small by apply to_N_below_256.
  now rewrite Byte.of_to_N.
Qed.

Lemma to_N_byte_of_N (n : N) : Byte.to_N (byte_of_N n) = n mod 256.
Proof.
  unfold byte_of_N.
  destruct (Byte.of_N (n mod 256)) as [b|] eqn:E.
  - now apply Byte.to_of_N.
  - apply Byte.of_N_None_iff in E.
    assert (n mod 256 < 256) by (apply N.mod_lt; discriminate). lia.
Qed.

Lemma to_N_byte_of_small (n : N) : n < 256 -> Byte.to_N (byte_of_N n) = n.
Proof. intros H. rewrite to_N_byte_of_N. now apply N.mod_small. Qed.

End Bytes.

(** ** Hexadecimal *)

Section Hex.

Lemma hex_value_digit (n : N) : n < 16 -> hex_value (hex_digit n) = Some n.
Proof.
  intros H. unfold hex_value, hex_digit.
  destruct (N.ltb_spec n 10); n_cases; try lia; f_equal; lia.
Qed.

Lemma hex_decode_encode (bs : buffer) : hex_decode (hex_encode bs) = bs.
Proof.
  induction bs as [|b bs IH]; [reflexivity|].
  pose proof (to_N_below_256 b) as Hb.
  assert (E : 16 * (Byte.to_N b / 16) + Byte.to_N b mod 16 = Byte.to_N b
              /\ Byte.to_N b / 16 < 16 /\ Byte.to_N b mod 16 < 16).
  { divmod (Byte.to_N b) 16 q r. lia. }
  destruct E as (E & Hq & Hr).
  cbn [hex_encode flat_map app hex_decode].
  fold (hex_encode bs). rewrite IH.
  rewrite !hex_value_digit by assumption.
  now rewrite E, byte_of_N_to_N.
Qed.

Lemma hex_encode_app (a b : buffer) : hex_encode (a ++ b) = hex_encode a ++ hex_encode b.
Proof. apply flat_map_app. Qed.

End Hex.

(** ** UTF-8 *)

Section Utf8.

Lemma decode_one_byte (c : N) (rest : buffer) :
  c < 128 -> utf8_decode (utf8_of_codepoint c ++ rest) = c :: utf8_decode rest.
Proof.
  intros H. unfold utf8_of_codepoint.
  destruct (N.ltb_spec c 128); [|lia].
  cbn [app utf8_decode].
  rewrite to_N_byte_of_small by lia.
  destruct (N.ltb_spec c 128); [reflexivity|lia].
Qed.

Lemma decode_two_bytes (c : N) (rest : buffer) :
  128 <= c < 2048 -> utf8_decode (utf8_of_codepoint c ++ rest) = c :: utf8_decode rest.
Proof.
  intros H. unfold utf8_of_codepoint.
  destruct (N.ltb_spec c 128); [lia|].
  destruct (N.ltb_spec c 2048); [|lia].
  cbn [app utf8_decode]. unfold is_continuation.
  divmod c 64 q r.
  rewrite !to_N_byte_of_small by lia.
  n_decide.
  f_equal. lia.
Qed.

Lemma decode_three_bytes (c : N) (rest : buffer) :
  2048 <= c < 65536 -> is_surrogate c = false ->
  utf8_decode (utf8_of_codepoint c ++ rest) = c :: utf8_decode rest.
Proof.
  intros H Hs. unfold utf8_of_codepoint.
  destruct (N.ltb_spec c 128); [lia|].
  destruct (N.ltb_spec c 2048); [lia|].
  destruct (N.ltb_spec c 65536); [|lia].
  cbn [app utf8_decode]. unfold is_continuation.
  replace (c / 4096) with (c / 64 / 64) by (rewrite N.Div0.div_div; reflexivity).
  assert (E : (224 + c / 64 / 64 - 224) * 4096 + (128 + (c / 64) mod 64 - 128) * 64
              + (128 + c mod 64 - 128) = c).
  { divmod c 64 q r. divmod q 64 q' r'. lia. }
  assert (B : c / 64 / 64 < 16 /\ (c / 64) mod 64 < 64 /\ c mod 64 < 64).
  { divmod c 64 q r. divmod q 64 q' r'. lia. }
  rewrite !to_N_byte_of_small by lia.
  rewrite E, Hs.
  set (a := c / 64 / 64) in *. set (b := (c / 64) mod 64) in *. set (d := c mod 64) in *.
  clearbody a b d. clear E.
  unfold is_surrogate in Hs.
  n_decide.
  reflexivity.
Qed.

Lemma decode_unit (c : N) (rest : buffer) :
  c < 65536 -> is_surrogate c = false ->
  utf8_decode (utf8_of_codepoint c ++ rest) = c :: utf8_decode rest.
Proof.
  intros H Hs.
  destruct (N.lt_ge_cases c 128); [now apply decode_one_byte|].
  destruct (N.lt_ge_cases c 2048); [now apply decode_two_bytes|].
  now apply decode_three_bytes.
Qed.

Lemma decode_pair (h l : N) (rest : buffer) :
  is_high_surrogate h = true -> is_low_surrogate l = true ->
  utf8_decode (utf8_of_codepoint (65536 + (h - 55296) * 1024 + (l - 56320)) ++ rest)
  = h :: l :: utf8_decode rest.
Proof.
  unfold is_high_surrogate, is_low_surrogate. intros Hh Hl.
  apply andb_prop in Hh, Hl. destruct Hh as [Hh1 Hh2], Hl as [Hl1 Hl2].
  apply N.leb_le in Hh1, Hh2, Hl1, Hl2.
  assert (Ediv : (65536 + (h - 55296) * 1024 + (l - 56320) - 65536) / 1024 = h - 55296).
  { symmetry. apply N.div_unique with (r := l - 56320); lia. }
  assert (Emod : (65536 + (h - 55296) * 1024 + (l - 56320) - 65536) mod 1024 = l - 56320).
  { symmetry. apply N.mod_unique with (q := h - 55296); lia. }
  set (cp := 65536 + (h - 55296) * 1024 + (l - 56320)) in *.
  assert (Hcp : 65536 <= cp < 1114112) by (unfold cp; lia).
  clearbody cp.
  unfold utf8_of_codepoint.
  destruct (N.ltb_spec cp 128); [lia|].
  destruct (N.ltb_spec cp 2048); [lia|].
  destruct (N.ltb_spec cp 65536); [lia|].
  cbn [app utf8_decode]. unfold is_continuation.
  replace (cp / 262144) with (cp / 64 / 64 / 64) by (rewrite !N.Div0.div_div; reflexivity).
  replace (cp / 4096) with (cp / 64 / 64) by (rewrite N.Div0.div_div; reflexivity).
  assert (E : (240 + cp / 64 / 64 / 64 - 240) * 262144
              + (128 + (cp / 64 / 64) mod 64 - 128) * 4096
              + (128 + (cp / 64) mod 64 - 128) * 64 + (128 + cp mod 64 - 128) = cp).
  { divmod cp 64 q r. divmod q 64 q' r'. divmod q' 64 q'' r''. lia. }
  assert (B : cp / 64 / 64 / 64 < 5 /\ (cp / 64 / 64) mod 64 < 64
              /\ (cp / 64) mod 64 < 64 /\ cp mod 64 < 64).
  { divmod cp 64 q r. divmod q 64 q' r'. divmod q' 64 q'' r''. lia. }
  rewrite !to_N_byte_of_small by lia.
  rewrite E, Ediv, Emod.
  set (a := cp / 64 / 64 / 64) in *. set (b := (cp / 64 / 64) mod 64) in *.
  set (d := (cp / 64) mod 64) in *. set (e := cp mod 64) in *.
  clearbody a b d e. clear E.
  n_decide.
  f_equal; [|f_equal]; lia.
Qed.

Lemma high_is_surrogate (c : N) : is_high_surrogate c = true -> is_surrogate c = true.
Proof. unfold is_high_surrogate, is_surrogate. n_cases; auto; lia. Qed.

Lemma low_is_surrogate (c : N) : is_low_surrogate c = true -> is_surrogate c = true.
Proof. unfold is_low_surrogate, is_surrogate. n_cases; auto; lia. Qed.

Lemma not_surrogate_not_high (c : N) : is_surrogate c = false -> is_high_surrogate c = false.
Proof.
  intros H. destruct (is_high_surrogate c) eqn:E; [|reflexivity].
  apply high_is_surrogate in E. congruence.
Qed.

Lemma not_surrogate_not_low (c : N) : is_surrogate c = false -> is_low_surrogate c = false.
Proof.
  intros H. destruct (is_low_surrogate c) eqn:E; [|reflexivity].
  apply low_is_surrogate in E. congruence.
Qed.

(** UTF-8 represents a well-formed string exactly. *)
Lemma utf8_decode_encode (s : jsstring) :
  well_formed s -> utf8_decode (utf8_encode s) = s.
Proof.
  induction 1 as [|c s Hc Hs _ IH|h l s Hh Hl _ IH].
  - reflexivity.
  - cbn [utf8_encode].
    rewrite (not_surrogate_not_high _ Hs), (not_surrogate_not_low _ Hs).
    rewrite decode_unit by assumption. now rewrite IH.
  - cbn [utf8_encode]. rewrite Hh, Hl.
    rewrite decode_pair by assumption. now rewrite IH.
Qed.

Lemma well_formed_app (s t : jsstring) :
  well_formed s -> well_formed t -> well_formed (s ++ t).
Proof.
  induction 1; intros Ht; cbn [app]; [assumption| |].
  - apply wf_unit; auto.
  - apply wf_pair; auto.
Qed.

End Utf8.

(** ** Decimal digits *)

Section Digits.

Lemma value_of_digits_acc (u : Decimal.uint) (acc : positive) :
  value_of_digits (N.pos acc) (units_of_uint u) = N.pos (Pos.of_uint_acc u acc).
Proof.
  revert acc.
  induction u as [|u IH|u IH|u IH|u IH|u IH|u IH|u IH|u IH|u IH|u IH]; intros acc;
    cbn [units_of_uint value_of_digits Pos.of_uint_acc]; [reflexivity|..];
    rewrite <- IH; f_equal; lia.
Qed.

Lemma value_of_uint (u : Decimal.uint) :
  value_of_digits 0 (units_of_uint u) = N.of_uint u.
Proof.
  unfold N.of_uint.
  induction u as [|u IH|u IH|u IH|u IH|u IH|u IH|u IH|u IH|u IH|u IH];
    cbn [units_of_uint value_of_digits Pos.of_uint]; [reflexivity|exact IH|..];
    rewrite <- value_of_digits_acc; f_equal.
Qed.

(** Reading the digits of [n] gives [n] back. *)
Lemma value_of_digits_of_N (n : N) : value_of_digits 0 (digits_of_N n) = n.
Proof.
  unfold digits_of_N. rewrite value_of_uint. apply DecimalN.Unsigned.of_to.
Qed.

Lemma units_are_digits (u : Decimal.uint) : forallb is_digit (units_of_uint u) = true.
Proof.
  induction u; cbn [units_of_uint forallb]; try rewrite IHu; reflexivity.
Qed.

Lemma span_all_digits (ds rest : jsstring) :
  forallb is_digit ds = true ->
  match rest with [] => true | c :: _ => negb (is_digit c) end = true ->
  span_digits (ds ++ rest) = (ds, rest).
Proof.
  intros Hds Hrest. induction ds as [|d ds IH]; cbn [app].
  - destruct rest as [|c rest]; [reflexivity|].
    cbn [span_digits]. apply negb_true_iff in Hrest. now rewrite Hrest.
  - cbn [forallb] in Hds. apply andb_prop in Hds. destruct Hds as [Hd Hds].
    cbn [span_digits]. rewrite Hd, (IH Hds). reflexivity.
Qed.

(** The digits of [n] are ["0"], or start with a digit other than zero. *)
Lemma digits_of_N_head (n : N) :
  digits_of_N n = [48]
  \/ exists c ds, digits_of_N n = c :: ds /\ c <> 48.
Proof.
  unfold digits_of_N.
  assert (E : N.to_uint n = Decimal.unorm (N.to_uint n)).
  { rewrite <- DecimalN.Unsigned.to_of. now rewrite DecimalN.Unsigned.of_to. }
  rewrite E. generalize (N.to_uint n) as u. clear E.
  induction u as [|u IH|u IH|u IH|u IH|u IH|u IH|u IH|u IH|u IH|u IH];
    cbn [Decimal.unorm units_of_uint];
    [left; reflexivity | exact IH | ..];
    right; eexists; eexists; (split; [reflexivity|discriminate]).
Qed.

Lemma digits_of_N_nonempty (n : N) : digits_of_N n <> [].
Proof.
  destruct (digits_of_N_head n) as [E|(c & ds & E & _)]; rewrite E; discriminate.
Qed.

Lemma digits_of_N_digits (n : N) : forallb is_digit (digits_of_N n) = true.
Proof. apply units_are_digits. Qed.

End Digits.

(** ** JSON: [JSON.parse] reads back what [JSON.stringify] writes *)

Section JsonStrings.

Lemma hex4_value_hex4 (c : N) :
  c < 65536 ->
  hex4_value (hex_digit (c / 4096 mod 16)) (hex_digit (c / 256 mod 16))
             (hex_digit (c / 16 mod 16)) (hex_digit (c mod 16)) = Some c.
Proof.
  intros H. unfold hex4_value.
  rewrite !hex_value_digit by (apply N.mod_lt; discriminate).
  f_equal.
  replace (c / 4096) with (c / 16 / 16 / 16) by (rewrite !N.Div0.div_div; reflexivity).
  replace (c / 256) with (c / 16 / 16) by (rewrite !N.Div0.div_div; reflexivity).
  divmod c 16 q r. divmod q 16 q' r'. divmod q' 16 q'' r''. divmod q'' 16 q3 r3.
  lia.
Qed.

Lemma surrogate_below (c : N) : is_surrogate c = true -> c < 65536.
Proof.
  unfold is_surrogate. intros H. apply andb_prop in H. destruct H as [_ H].
  apply N.leb_le in H. lia.
Qed.

Lemma surrogate_above (c : N) : is_surrogate c = true -> 55296 <= c.
Proof.
  unfold is_surrogate. intros H. apply andb_prop in H. destruct H as [H _].
  now apply N.leb_le in H.
Qed.

(** An escaped or plain unit is read back as the unit. *)
Lemma parse_quote_unit (c : codeunit) (t : jsstring) :
  parse_string (quote_unit c ++ t) = cons_unit c (parse_string t).
Proof.
  unfold quote_unit.
  destruct (N.eqb_spec c 8) as [->|H8]; [reflexivity|].
  destruct (N.eqb_spec c 9) as [->|H9]; [reflexivity|].
  destruct (N.eqb_spec c 10) as [->|H10]; [reflexivity|].
  destruct (N.eqb_spec c 12) as [->|H12]; [reflexivity|].
  destruct (N.eqb_spec c 13) as [->|H13]; [reflexivity|].
  destruct (N.eqb_spec c 34) as [->|H34]; [reflexivity|].
  destruct (N.eqb_spec c 92) as [->|H92]; [reflexivity|].
  destruct ((c <? 32) || is_surrogate c) eqn:E.
  - assert (Hc : c < 65536).
    { apply orb_prop in E. destruct E as [E|E].
      - apply N.ltb_lt in E. lia.
      - now apply surrogate_below. }
    unfold unicode_escape, hex4. cbn [app parse_string].
    change (92 =? 34) with false. change (92 =? 92) with true.
    change (117 =? 117) with true. cbv iota.
    now rewrite hex4_value_hex4.
  - apply orb_false_elim in E. destruct E as [E _]. apply N.ltb_ge in E.
    cbn [app parse_string]. n_decide. reflexivity.
Qed.

Lemma parse_surrogate (c : codeunit) (t : jsstring) :
  is_surrogate c = true -> parse_string (c :: t) = cons_unit c (parse_string t).
Proof.
  intros H. apply surrogate_above in H.
  cbn [parse_string]. n_decide. reflexivity.
Qed.

Lemma parse_quote_units_bounded (n : nat) :
  forall s rest, (length s <= n)%nat ->
  parse_string (quote_units s ++ 34 :: rest) = Some (s, rest).
Proof.
  induction n as [|n IH]; intros [|c s] rest Hlen; cbn [length] in Hlen;
    try reflexivity; try lia.
  cbn [quote_units]. destruct (is_high_surrogate c) eqn:Hc.
  - destruct s as [|d s'].
    + now rewrite parse_quote_unit.
    + destruct (is_low_surrogate d) eqn:Hd.
      * cbn [app].
        rewrite parse_surrogate by now apply high_is_surrogate.
        rewrite parse_surrogate by now apply low_is_surrogate.
        cbn [length] in Hlen. rewrite IH by lia. reflexivity.
      * rewrite <- app_assoc, parse_quote_unit, IH by lia. reflexivity.
  - rewrite <- app_assoc, parse_quote_unit, IH by lia. reflexivity.
Qed.

(** A string literal is read back as the string. *)
Lemma parse_quote_units (s rest : jsstring) :
  parse_string (quote_units s ++ 34 :: rest) = Some (s, rest).
Proof. apply (@parse_quote_units_bounded (length s)). apply Nat.le_refl. Qed.

End JsonStrings.

Section JsonIntegers.

Lemma ends_number_span (rest : jsstring) :
  ends_number rest = true ->
  match rest with [] => true | c :: _ => negb (is_digit c) end = true.
Proof.
  destruct rest as [|c rest]; [reflexivity|].
  cbn [ends_number]. intros H. apply negb_true_iff in H.
  apply orb_false_elim in H. destruct H as [H _].
  apply orb_false_elim in H. destruct H as [H _].
  apply orb_false_elim in H. destruct H as [H _].
  now rewrite H.
Qed.

Lemma ends_number_follows (rest : jsstring) :
  ends_number rest = true ->
  match rest with
  | c :: _ => negb ((c =? 46) || (c =? 101) || (c =? 69))
  | [] => true
  end = true.
Proof.
  destruct rest as [|c rest]; [reflexivity|].
  cbn [ends_number]. intros H. apply negb_true_iff in H.
  apply orb_false_elim in H. destruct H as [H H3].
  apply orb_false_elim in H. destruct H as [H H2].
  apply orb_false_elim in H. destruct H as [_ H1].
  now rewrite H1, H2, H3.
Qed.

Lemma digit_not_minus (c : codeunit) : is_digit c = true -> (c =? 45) = false.
Proof.
  unfold is_digit. intros H. apply andb_prop in H. destruct H as [H _].
  apply N.leb_le in H. apply N.eqb_neq. lia.
Qed.

(** An integer literal is read back as the integer. *)
Lemma parse_integer_to_string (n : Z) (rest : jsstring) :
  ends_number rest = true ->
  parse_integer (integer_to_string n ++ rest) = Some (n, rest).
Proof.
  intros Hrest. unfold integer_to_string.
  pose proof (digits_of_N_digits (Z.abs_N n)) as Hds.
  pose proof (value_of_digits_of_N (Z.abs_N n)) as Hval.
  pose proof (span_all_digits _ rest Hds (ends_number_span _ Hrest)) as Hspan.
  pose proof (ends_number_follows _ Hrest) as Hfol.
  assert (Hzero : match digits_of_N (Z.abs_N n) with
                  | [] => False
                  | d :: ds' => (d =? 48) && negb (length ds' =? 0)%nat = false
                  end).
  { destruct (digits_of_N_head (Z.abs_N n)) as [E|(c & ds & E & Hc)]; rewrite E.
    - reflexivity.
    - apply N.eqb_neq in Hc. now rewrite Hc. }
  destruct (digits_of_N (Z.abs_N n)) as [|d ds] eqn:E; [contradiction|].
  unfold parse_integer.
  destruct (Z.ltb_spec n 0) as [Hneg|Hpos].
  - cbn [app]. change (45 =? 45) with true. cbv iota.
    change (d :: ds ++ rest) with ((d :: ds) ++ rest).
    rewrite Hspan, Hzero, Hfol. cbn [orb negb].
    rewrite Hval. f_equal. f_equal. lia.
  - cbn [app].
    cbn [forallb] in Hds. apply andb_prop in Hds. destruct Hds as [Hd Hds].
    rewrite (digit_not_minus _ Hd).
    change (d :: ds ++ rest) with ((d :: ds) ++ rest).
    rewrite Hspan, Hzero, Hfol. cbn [orb negb].
    rewrite Hval. f_equal. f_equal. lia.
Qed.

End JsonIntegers.

Section JsonValues.

Lemma skip_ws_app (ws s : jsstring) :
  forallb is_ws ws = true -> skip_ws (ws ++ s) = skip_ws s.
Proof.
  induction ws as [|c ws IH]; intros H; [reflexivity|].
  cbn [forallb] in H. apply andb_prop in H. destruct H as [Hc H].
  cbn [app skip_ws]. rewrite Hc. auto.
Qed.

Lemma skip_ws_head (c : codeunit) (s : jsstring) :
  is_ws c = false -> skip_ws (c :: s) = c :: s.
Proof. intros H. cbn [skip_ws]. now rewrite H. Qed.

Lemma newline_indent_ws (gap ind : nat) : forallb is_ws (newline_indent gap ind) = true.
Proof.
  destruct gap as [|gap]; [reflexivity|].
  cbn [newline_indent forallb]. change (is_ws 10) with true. cbn [andb].
  induction ind as [|ind IH]; [reflexivity|].
  cbn [repeat forallb]. now rewrite IH.
Qed.

Lemma parse_value_ws (fuel : nat) (ws s : jsstring) :
  forallb is_ws ws = true -> parse_value fuel (ws ++ s) = parse_value fuel s.
Proof.
  intros H. destruct fuel as [|fuel]; [reflexivity|].
  cbn [parse_value]. now rewrite skip_ws_app.
Qed.

Lemma digit_facts (c : codeunit) :
  is_digit c = true ->
  is_ws c = false /\ (c =? 34) = false /\ (c =? 91) = false /\ (c =? 123) = false
  /\ (c =? 110) = false /\ (c =? 116) = false /\ (c =? 102) = false
  /\ c <> 93 /\ c <> 125.
Proof.
  unfold is_digit, is_ws. intros H. apply andb_prop in H. destruct H as [H1 H2].
  apply N.leb_le in H1, H2.
  repeat split; try lia; n_decide; reflexivity.
Qed.

(** The text of a value starts with a character that is no white space and
    closes no array or object. *)
Lemma serialize_head (gap ind : nat) (v : json) :
  exists c t, serialize gap ind v = c :: t
              /\ is_ws c = false /\ c <> 93 /\ c <> 125.
Proof.
  destruct v as [|[|]|n|s|[|x xs]|[|[k x] kxs]]; cbn [serialize].
  - exists 110, (str "ull"). repeat split; discriminate.
  - exists 116, (str "rue"). repeat split; discriminate.
  - exists 102, (str "alse"). repeat split; discriminate.
  - unfold integer_to_string. destruct (n <? 0)%Z.
    + eexists; eexists. cbn [app]. repeat split; discriminate.
    + pose proof (digits_of_N_digits (Z.abs_N n)) as Hd.
      destruct (digits_of_N (Z.abs_N n)) as [|d ds] eqn:E.
      * now apply digits_of_N_nonempty in E.
      * cbn [forallb] in Hd. apply andb_prop in Hd. destruct Hd as [Hd _].
        destruct (digit_facts _ Hd) as (? & _ & _ & _ & _ & _ & _ & ? & ?).
        exists d, ds. cbn [app]. auto.
  - unfold quote. eexists; eexists. repeat split; discriminate.
  - eexists; eexists. repeat split; discriminate.
  - eexists; eexists. repeat split; discriminate.
  - eexists; eexists. repeat split; discriminate.
  - eexists; eexists. repeat split; discriminate.
Qed.

Lemma ends_number_items (gap inner ind : nat) (xs : list json) (rest : jsstring) :
  ends_number (serialize_items gap inner xs ++ newline_indent gap ind ++ 93 :: rest) = true.
Proof. destruct xs; destruct gap; reflexivity. Qed.

Lemma ends_number_members (gap inner ind : nat) (kxs : list (jsstring * json))
      (rest : jsstring) :
  ends_number (serialize_members gap inner kxs ++ newline_indent gap ind ++ 125 :: rest) = true.
Proof. destruct kxs as [|[k x] kxs]; destruct gap; reflexivity. Qed.

Lemma parse_items_serialize (gap inner ind : nat) (xs : list json) :
  Forall reads_back xs ->
  forall x rest fuel,
    reads_back x ->
    (weight_items (x :: xs) <= fuel)%nat ->
    parse_items fuel
      (newline_indent gap inner ++ serialize gap inner x
         ++ serialize_items gap inner xs ++ newline_indent gap ind ++ 93 :: rest)
    = Some (x :: xs, rest).
Proof.
  induction 1 as [|y ys Hy _ IH]; intros x rest fuel Hx Hfuel;
    cbn [weight_items] in Hfuel;
    (destruct fuel as [|fuel]; [lia|]); cbn [parse_items].
  - rewrite parse_value_ws by apply newline_indent_ws.
    rewrite Hx; [|lia|apply ends_number_items].
    cbn [serialize_items app].
    rewrite skip_ws_app by apply newline_indent_ws.
    rewrite skip_ws_head by reflexivity.
    reflexivity.
  - rewrite parse_value_ws by apply newline_indent_ws.
    rewrite Hx; [|lia|apply ends_number_items].
    cbn [serialize_items app].
    rewrite skip_ws_head by reflexivity.
    change (44 =? 44) with true. cbv iota.
    rewrite <- !app_assoc.
    rewrite IH; [reflexivity|assumption|cbn [weight_items]; lia].
Qed.

Lemma parse_members_serialize (gap inner ind : nat) (kxs : list (jsstring * json)) :
  Forall (fun kv => reads_back (snd kv)) kxs ->
  forall k x rest fuel,
    reads_back x ->
    (weight_members ((k, x) :: kxs) <= fuel)%nat ->
    parse_members fuel
      (newline_indent gap inner ++ quote k ++ colon gap ++ serialize gap inner x
         ++ serialize_members gap inner kxs ++ newline_indent gap ind ++ 125 :: rest)
    = Some ((k, x) :: kxs, rest).
Proof.
  assert (Hcolon : forall s, exists ws, colon gap ++ s = 58 :: ws ++ s
                                        /\ forallb is_ws ws = true).
  { intros s. destruct gap; [exists []|exists [32]]; split; reflexivity. }
  induction 1 as [|[k' y] ys Hy _ IH]; intros k x rest fuel Hx Hfuel;
    cbn [weight_members] in Hfuel;
    (destruct fuel as [|fuel]; [lia|]); cbn [parse_members].
  - rewrite skip_ws_app by apply newline_indent_ws.
    unfold quote. cbn [app]. rewrite skip_ws_head by reflexivity.
    change (34 =? 34) with true. cbv iota.
    rewrite <- app_assoc. cbn [app]. rewrite parse_quote_units.
    destruct (Hcolon (serialize gap inner x ++ serialize_members gap inner []
                        ++ newline_indent gap ind ++ 125 :: rest)) as (ws & -> & Hws).
    rewrite skip_ws_head by reflexivity.
    change (58 =? 58) with true. cbv iota.
    rewrite parse_value_ws by assumption.
    rewrite Hx; [|lia|apply ends_number_members].
    cbn [serialize_members app].
    rewrite skip_ws_app by apply newline_indent_ws.
    rewrite skip_ws_head by reflexivity.
    reflexivity.
  - rewrite skip_ws_app by apply newline_indent_ws.
    unfold quote at 1. cbn [app]. rewrite skip_ws_head by reflexivity.
    change (34 =? 34) with true. cbv iota.
    rewrite <- app_assoc. cbn [app]. rewrite parse_quote_units.
    destruct (Hcolon (serialize gap inner x ++ serialize_members gap inner ((k', y) :: ys)
                        ++ newline_indent gap ind ++ 125 :: rest)) as (ws & -> & Hws).
    rewrite skip_ws_head by reflexivity.
    change (58 =? 58) with true. cbv iota.
    rewrite parse_value_ws by assumption.
    rewrite Hx; [|lia|apply ends_number_members].
    cbn [serialize_members app].
    rewrite skip_ws_head by reflexivity.
    change (44 =? 44) with true. cbv iota.
    rewrite <- !app_assoc.
    rewrite IH; [reflexivity|assumption|cbn [weight_members]; lia].
Qed.

Lemma integer_head (n : Z) :
  exists c t, integer_to_string n = c :: t /\ (c = 45 \/ is_digit c = true).
Proof.
  unfold integer_to_string. destruct (n <? 0)%Z.
  - eexists; eexists. cbn [app]. split; [reflexivity|now left].
  - pose proof (digits_of_N_digits (Z.abs_N n)) as Hd.
    destruct (digits_of_N (Z.abs_N n)) as [|d ds] eqn:E.
    + now apply digits_of_N_nonempty in E.
    + cbn [forallb] in Hd. apply andb_prop in Hd. destruct Hd as [Hd _].
      exists d, ds. cbn [app]. auto.
Qed.

(** [parse_value] reads the text of any value back, given enough depth. *)
Lemma serialize_reads_back (v : json) : reads_back v.
Proof.
  induction v as [|b|n|s|l IH|l IH] using json_ind; intros gap ind rest fuel Hfuel Hrest;
    (destruct fuel as [|fuel]; [cbn [weight] in Hfuel; lia|]).
  - reflexivity.
  - destruct b; reflexivity.
  - destruct (integer_head n) as (c & t & E & Hc).
    assert (F : is_ws c = false /\ (c =? 34) = false /\ (c =? 91) = false
                /\ (c =? 123) = false /\ (c =? 110) = false /\ (c =? 116) = false
                /\ (c =? 102) = false).
    { destruct Hc as [->|Hc]; [repeat split|].
      destruct (digit_facts _ Hc) as (? & ? & ? & ? & ? & ? & ? & _). auto 10. }
    destruct F as (F0 & F1 & F2 & F3 & F4 & F5 & F6).
    pose proof (parse_integer_to_string n rest Hrest) as Hp.
    cbn [serialize parse_value]. rewrite E in *. cbn [app] in *.
    rewrite skip_ws_head by assumption.
    rewrite F1, F2, F3, F4, F5, F6, Hp. reflexivity.
  - cbn [serialize parse_value]. unfold quote. cbn [app].
    rewrite skip_ws_head by reflexivity.
    change (34 =? 34) with true. cbv iota.
    rewrite <- app_assoc. cbn [app]. now rewrite parse_quote_units.
  - destruct l as [|x xs]; [reflexivity|].
    change (weight (JArr (x :: xs))) with (S (weight_items (x :: xs))) in Hfuel.
    change (serialize gap ind (JArr (x :: xs)))
      with (91 :: newline_indent gap (ind + gap) ++ serialize gap (ind + gap) x
              ++ serialize_items gap (ind + gap) xs ++ newline_indent gap ind ++ [93]).
    cbn [app]. rewrite <- !app_assoc. cbn [app].
    cbn [parse_value]. rewrite skip_ws_head by reflexivity.
    change (91 =? 34) with false. change (91 =? 91) with true. cbv iota.
    rewrite skip_ws_app by apply newline_indent_ws.
    destruct (serialize_head gap (ind + gap) x) as (c & t & E & Hws & Hc & _).
    rewrite E at 1. cbn [app]. rewrite skip_ws_head by assumption.
    apply N.eqb_neq in Hc. rewrite Hc.
    inversion IH as [|? ? Hx Hxs]; subst.
    rewrite parse_items_serialize; [reflexivity|assumption|assumption|lia].
  - destruct l as [|[k x] kxs]; [reflexivity|].
    change (weight (JObj ((k, x) :: kxs))) with (S (weight_members ((k, x) :: kxs))) in Hfuel.
    change (serialize gap ind (JObj ((k, x) :: kxs)))
      with (123 :: newline_indent gap (ind + gap) ++ quote k ++ colon gap
              ++ serialize gap (ind + gap) x
              ++ serialize_members gap (ind + gap) kxs ++ newline_indent gap ind ++ [125]).
    cbn [app]. rewrite <- !app_assoc. cbn [app].
    cbn [parse_value]. rewrite skip_ws_head by reflexivity.
    change (123 =? 34) with false. change (123 =? 91) with false.
    change (123 =? 123) with true. cbv iota.
    rewrite skip_ws_app by apply newline_indent_ws.
    unfold quote at 1. cbn [app]. rewrite skip_ws_head by reflexivity.
    change (34 =? 125) with false. cbv iota.
    inversion IH as [|? ? Hx Hxs]; subst.
    rewrite parse_members_serialize; [reflexivity|assumption|assumption|lia].
Qed.

End JsonValues.

Section JsonParse.

Lemma weight_items_le_length (gap inner : nat) (xs : list json) :
  Forall (fun v => forall gap ind, (weight v <= length (serialize gap ind v))%nat) xs ->
  (weight_items xs <= length (serialize_items gap inner xs))%nat.
Proof.
  induction 1 as [|x xs Hx _ IH]; [apply Nat.le_refl|].
  cbn [weight_items serialize_items length]. rewrite !length_app.
  specialize (Hx gap inner). lia.
Qed.

Lemma weight_members_le_length (gap inner : nat) (kxs : list (jsstring * json)) :
  Forall (fun kv => forall gap ind,
            (weight (snd kv) <= length (serialize gap ind (snd kv)))%nat) kxs ->
  (weight_members kxs <= length (serialize_members gap inner kxs))%nat.
Proof.
  induction 1 as [|[k x] kxs Hx _ IH]; [apply Nat.le_refl|].
  cbn [weight_members serialize_members length]. rewrite !length_app.
  specialize (Hx gap inner). cbn [snd] in Hx. lia.
Qed.

(** The depth the parser needs is at most the length of the text. *)
Lemma weight_le_length (v : json) :
  forall gap ind, (weight v <= length (serialize gap ind v))%nat.
Proof.
  induction v as [|b|n|s|l IH|l IH] using json_ind; intros gap ind.
  - cbn. lia.
  - destruct b; cbn; lia.
  - destruct (serialize_head gap ind (JNum n)) as (c & t & E & _).
    rewrite E. cbn [weight length]. lia.
  - cbn [weight serialize quote length]. lia.
  - destruct l as [|x xs]; [cbn; lia|].
    change (weight (JArr (x :: xs))) with (S (S (weight x + weight_items xs))).
    change (serialize gap ind (JArr (x :: xs)))
      with (91 :: newline_indent gap (ind + gap) ++ serialize gap (ind + gap) x
              ++ serialize_items gap (ind + gap) xs ++ newline_indent gap ind ++ [93]).
    inversion IH as [|? ? Hx Hxs]; subst.
    pose proof (weight_items_le_length gap (ind + gap) Hxs).
    specialize (Hx gap (ind + gap)%nat).
    cbn [length]. rewrite !length_app. cbn [length]. lia.
  - destruct l as [|[k x] kxs]; [cbn; lia|].
    change (weight (JObj ((k, x) :: kxs))) with (S (S (weight x + weight_members kxs))).
    change (serialize gap ind (JObj ((k, x) :: kxs)))
      with (123 :: newline_indent gap (ind + gap) ++ quote k ++ colon gap
              ++ serialize gap (ind + gap) x
              ++ serialize_members gap (ind + gap) kxs ++ newline_indent gap ind ++ [125]).
    inversion IH as [|? ? Hx Hxs]; subst.
    pose proof (weight_members_le_length gap (ind + gap) Hxs).
    specialize (Hx gap (ind + gap)%nat). cbn [snd] in Hx.
    cbn [length]. rewrite !length_app. cbn [length]. lia.
Qed.

(** [JSON.parse] returns the value whose text it is given, for either gap. *)
Theorem JSON_parse_serialize (gap : nat) (v : json) :
  JSON_parse (serialize gap 0 v) = Some v.
Proof.
  unfold JSON_parse.
  pose proof (@serialize_reads_back v gap 0%nat [] (S (length (serialize gap 0 v)))) as H.
  rewrite List.app_nil_r in H. rewrite H; [reflexivity| |reflexivity].
  pose proof (weight_le_length v gap 0). lia.
Qed.

Corollary JSON_parse_stringify (v : json) : JSON_parse (JSON_stringify v) = Some v.
Proof. apply JSON_parse_serialize. Qed.

Corollary JSON_parse_stringify_indent2 (v : json) :
  JSON_parse (JSON_stringify_indent2 v) = Some v.
Proof. apply JSON_parse_serialize. Qed.

End JsonParse.

(** ** The text [JSON.stringify] writes is well-formed UTF-16 *)

Section JsonWellFormed.

Lemma well_formed_ascii_cons (c : codeunit) (s : jsstring) :
  c < 128 -> well_formed s -> well_formed (c :: s).
Proof.
  intros Hc Hs. apply wf_unit; [lia| |assumption].
  unfold is_surrogate. n_decide. reflexivity.
Qed.

Lemma well_formed_ascii (s : jsstring) :
  forallb (fun c => c <? 128) s = true -> well_formed s.
Proof.
  induction s as [|c s IH]; intros H; [constructor|].
  cbn [forallb] in H. apply andb_prop in H. destruct H as [Hc H].
  apply N.ltb_lt in Hc. apply well_formed_ascii_cons; auto.
Qed.

Lemma hex_digit_ascii (n : N) : n < 16 -> hex_digit n < 128.
Proof. intros H. unfold hex_digit. destruct (n <? 10); lia. Qed.

Lemma quote_unit_well_formed (c : codeunit) :
  c < 65536 -> well_formed (quote_unit c).
Proof.
  intros Hc. unfold quote_unit.
  destruct (c =? 8); [now apply well_formed_ascii|].
  destruct (c =? 9); [now apply well_formed_ascii|].
  destruct (c =? 10); [now apply well_formed_ascii|].
  destruct (c =? 12); [now apply well_formed_ascii|].
  destruct (c =? 13); [now apply well_formed_ascii|].
  destruct (c =? 34); [now apply well_formed_ascii|].
  destruct (c =? 92); [now apply well_formed_ascii|].
  destruct ((c <? 32) || is_surrogate c) eqn:E.
  - unfold unicode_escape, hex4.
    repeat (apply well_formed_ascii_cons;
            [first [lia | apply hex_digit_ascii; apply N.mod_lt; discriminate]|]).
    constructor.
  - apply orb_false_elim in E. destruct E as [_ E].
    apply wf_unit; [assumption|assumption|constructor].
Qed.

Lemma quote_units_well_formed_bounded (n : nat) :
  forall s, (length s <= n)%nat -> valid_units s = true -> well_formed (quote_units s).
Proof.
  induction n as [|n IH]; intros [|c s] Hlen Hv; cbn [length] in Hlen;
    try constructor; try lia.
  cbn [valid_units forallb] in Hv. apply andb_prop in Hv. destruct Hv as [Hc Hv].
  apply N.ltb_lt in Hc.
  cbn [quote_units]. destruct (is_high_surrogate c) eqn:Hh.
  - destruct s as [|d s'].
    + now apply quote_unit_well_formed.
    + destruct (is_low_surrogate d) eqn:Hl.
      * cbn [forallb] in Hv. apply andb_prop in Hv. destruct Hv as [_ Hv].
        cbn [length] in Hlen.
        apply wf_pair; [assumption|assumption|]. apply IH; [lia|assumption].
      * apply well_formed_app; [now apply quote_unit_well_formed|].
        apply IH; [lia|assumption].
  - apply well_formed_app; [now apply quote_unit_well_formed|].
    apply IH; [lia|assumption].
Qed.

Lemma quote_well_formed (s : jsstring) :
  valid_units s = true -> well_formed (quote s).
Proof.
  intros H. unfold quote. apply well_formed_ascii_cons; [lia|].
  apply well_formed_app; [|now apply well_formed_ascii].
  now apply (@quote_units_well_formed_bounded (length s)).
Qed.

Lemma digits_well_formed (n : N) : well_formed (digits_of_N n).
Proof.
  apply well_formed_ascii. pose proof (digits_of_N_digits n) as H.
  induction (digits_of_N n) as [|c s IH]; [reflexivity|].
  cbn [forallb] in *. apply andb_prop in H. destruct H as [Hc H].
  rewrite IH by assumption. unfold is_digit in Hc.
  apply andb_prop in Hc. destruct Hc as [_ Hc]. apply N.leb_le in Hc.
  n_decide. reflexivity.
Qed.

Lemma newline_indent_well_formed (gap ind : nat) : well_formed (newline_indent gap ind).
Proof.
  destruct gap; [constructor|]. cbn [newline_indent].
  apply well_formed_ascii_cons; [lia|].
  induction ind; [constructor|]. cbn [repeat]. apply well_formed_ascii_cons; [lia|assumption].
Qed.

Lemma colon_well_formed (gap : nat) : well_formed (colon gap).
Proof. destruct gap; now apply well_formed_ascii. Qed.

Lemma serialize_items_well_formed (gap inner : nat) (xs : list json) :
  Forall (fun v => forall gap ind, valid_json v = true -> well_formed (serialize gap ind v)) xs ->
  forallb valid_json xs = true ->
  well_formed (serialize_items gap inner xs).
Proof.
  induction 1 as [|x xs Hx _ IH]; intros Hv; [constructor|].
  cbn [forallb] in Hv. apply andb_prop in Hv. destruct Hv as [Hvx Hv].
  cbn [serialize_items]. apply well_formed_ascii_cons; [lia|].
  repeat apply well_formed_app; auto using newline_indent_well_formed.
Qed.

Lemma serialize_members_well_formed (gap inner : nat) (kxs : list (jsstring * json)) :
  Forall (fun kv => forall gap ind, valid_json (snd kv) = true ->
                                    well_formed (serialize gap ind (snd kv))) kxs ->
  forallb (fun kv => valid_units (fst kv) && valid_json (snd kv)) kxs = true ->
  well_formed (serialize_members gap inner kxs).
Proof.
  induction 1 as [|[k x] kxs Hx _ IH]; intros Hv; [constructor|].
  cbn [forallb fst snd] in Hv. apply andb_prop in Hv. destruct Hv as [Hvx Hv].
  apply andb_prop in Hvx. destruct Hvx as [Hk Hvx]. cbn [snd] in Hx.
  cbn [serialize_members]. apply well_formed_ascii_cons; [lia|].
  repeat apply well_formed_app;
    auto using newline_indent_well_formed, quote_well_formed, colon_well_formed.
Qed.

(** The text of a value whose strings are 16-bit has no lone surrogate. *)
Lemma serialize_well_formed (v : json) :
  forall gap ind, valid_json v = true -> well_formed (serialize gap ind v).
Proof.
  induction v as [|b|n|s|l IH|l IH] using json_ind; intros gap ind Hv.
  - now apply well_formed_ascii.
  - destruct b; now apply well_formed_ascii.
  - cbn [serialize]. unfold integer_to_string.
    apply well_formed_app; [destruct (n <? 0)%Z; now apply well_formed_ascii|].
    apply digits_well_formed.
  - now apply quote_well_formed.
  - destruct l as [|x xs]; [now apply well_formed_ascii|].
    change (serialize gap ind (JArr (x :: xs)))
      with (91 :: newline_indent gap (ind + gap) ++ serialize gap (ind + gap) x
              ++ serialize_items gap (ind + gap) xs ++ newline_indent gap ind ++ [93]).
    cbn [valid_json forallb] in Hv. apply andb_prop in Hv. destruct Hv as [Hvx Hv].
    inversion IH as [|? ? Hx Hxs]; subst.
    apply well_formed_ascii_cons; [lia|].
    repeat apply well_formed_app;
      auto using newline_indent_well_formed, serialize_items_well_formed.
    now apply well_formed_ascii.
  - destruct l as [|[k x] kxs]; [now apply well_formed_ascii|].
    change (serialize gap ind (JObj ((k, x) :: kxs)))
      with (123 :: newline_indent gap (ind + gap) ++ quote k ++ colon gap
              ++ serialize gap (ind + gap) x
              ++ serialize_members gap (ind + gap) kxs ++ newline_indent gap ind ++ [125]).
    cbn [valid_json forallb fst snd] in Hv. apply andb_prop in Hv. destruct Hv as [Hvx Hv].
    apply andb_prop in Hvx. destruct Hvx as [Hk Hvx].
    inversion IH as [|? ? Hx Hxs]; subst. cbn [snd] in Hx.
    apply well_formed_ascii_cons; [lia|].
    repeat apply well_formed_app;
      auto using newline_indent_well_formed, serialize_members_well_formed,
                 quote_well_formed, colon_well_formed.
    now apply well_formed_ascii.
Qed.

(** Written as UTF-8 and read back, the text of a value is unchanged. *)
Lemma utf8_serialize (gap ind : nat) (v : json) :
  valid_json v = true ->
  utf8_decode (utf8_encode (serialize gap ind v)) = serialize gap ind v.
Proof. intros H. apply utf8_decode_encode. now apply serialize_well_formed. Qed.

End JsonWellFormed.

(** ** AES: the inverse cipher undoes the cipher *)

Section AesBytes.
Import Aes.

Lemma to_bits_inj (a b : byte) : Byte.to_bits a = Byte.to_bits b -> a = b.
Proof.
  intros H. rewrite <- (Byte.of_bits_to_bits a), <- (Byte.of_bits_to_bits b).
  now rewrite H.
Qed.

Lemma bxor_bits (a b : byte) :
  Byte.to_bits (bxor a b) = bits_xor (Byte.to_bits a) (Byte.to_bits b).
Proof. unfold bxor. apply Byte.to_bits_of_bits. Qed.

(** Splits an equation between bytes into equations between their bits. *)
Ltac by_bits :=
  apply to_bits_inj;
  repeat rewrite bxor_bits;
  repeat match goal with
    | |- context [Byte.to_bits ?a] =>
        is_var a;
        let b0 := fresh a "0" in let b1 := fresh a "1" in
        let b2 := fresh a "2" in let b3 := fresh a "3" in
        let b4 := fresh a "4" in let b5 := fresh a "5" in
        let b6 := fresh a "6" in let b7 := fresh a "7" in
        destruct (Byte.to_bits a) as [b0 [b1 [b2 [b3 [b4 [b5 [b6 b7]]]]]]]
    end;
  cbn [bits_xor];
  repeat (f_equal; try btauto).

Lemma bxor_comm (a b : byte) : bxor a b = bxor b a.
Proof. by_bits. Qed.

Lemma bxor_assoc (a b c : byte) : bxor a (bxor b c) = bxor (bxor a b) c.
Proof. by_bits. Qed.

Lemma bxor_cancel (a k : byte) : bxor (bxor a k) k = a.
Proof. by_bits. Qed.

Lemma bxor_zero_r (a : byte) : bxor a x00 = a.
Proof.
  apply to_bits_inj. rewrite bxor_bits.
  destruct (Byte.to_bits a) as [b0 [b1 [b2 [b3 [b4 [b5 [b6 b7]]]]]]].
  cbn. repeat (f_equal; try btauto).
Qed.

Lemma bxor_zero_l (a : byte) : bxor x00 a = a.
Proof. rewrite bxor_comm. apply bxor_zero_r. Qed.

Lemma xor4_interchange (a b c d a' b' c' d' : byte) :
  xor4 (bxor a a') (bxor b b') (bxor c c') (bxor d d')
  = bxor (xor4 a b c d) (xor4 a' b' c' d').
Proof. unfold xor4. by_bits. Qed.

Lemma xtime_additive (a b : byte) : xtime (bxor a b) = bxor (xtime a) (xtime b).
Proof.
  unfold xtime. rewrite bxor_bits. apply to_bits_inj. rewrite bxor_bits.
  destruct (Byte.to_bits a) as [a0 [a1 [a2 [a3 [a4 [a5 [a6 a7]]]]]]].
  destruct (Byte.to_bits b) as [b0 [b1 [b2 [b3 [b4 [b5 [b6 b7]]]]]]].
  cbn [bits_xor]. rewrite !Byte.to_bits_of_bits. cbn [bits_xor].
  repeat (f_equal; try btauto).
Qed.

Lemma scale_additive (c : bool) (a b : byte) :
  scale c (bxor a b) = bxor (scale c a) (scale c b).
Proof. destruct c; [reflexivity|]. cbn [scale]. now rewrite bxor_zero_r. Qed.

Lemma bxor_interchange (a b c d : byte) :
  bxor (bxor a b) (bxor c d) = bxor (bxor a c) (bxor b d).
Proof. by_bits. Qed.

(** Multiplication by a constant distributes over addition. *)
Lemma gmul_additive (k a b : byte) : gmul (bxor a b) k = bxor (gmul a k) (gmul b k).
Proof.
  unfold gmul.
  destruct (Byte.to_bits k) as [k0 [k1 [k2 [k3 [k4 [k5 [k6 k7]]]]]]].
  cbv zeta. rewrite !xtime_additive, !scale_additive.
  generalize (scale k0 a) (scale k0 b)
             (scale k1 (xtime a)) (scale k1 (xtime b))
             (scale k2 (xtime (xtime a))) (scale k2 (xtime (xtime b)))
             (scale k3 (xtime (xtime (xtime a)))) (scale k3 (xtime (xtime (xtime b))))
             (scale k4 (xtime (xtime (xtime (xtime a)))))
             (scale k4 (xtime (xtime (xtime (xtime b)))))
             (scale k5 (xtime (xtime (xtime (xtime (xtime a))))))
             (scale k5 (xtime (xtime (xtime (xtime (xtime b))))))
             (scale k6 (xtime (xtime (xtime (xtime (xtime (xtime a)))))))
             (scale k6 (xtime (xtime (xtime (xtime (xtime (xtime b)))))))
             (scale k7 (xtime (xtime (xtime (xtime (xtime (xtime (xtime a))))))))
             (scale k7 (xtime (xtime (xtime (xtime (xtime (xtime (xtime b)))))))).
  intros s0 t0 s1 t1 s2 t2 s3 t3 s4 t4 s5 t5 s6 t6 s7 t7.
  by_bits.
Qed.

Lemma gmul_xor4 (k a b c d : byte) :
  gmul (xor4 a b c d) k = xor4 (gmul a k) (gmul b k) (gmul c k) (gmul d k).
Proof. unfold xor4. now rewrite !gmul_additive. Qed.

Lemma mix_column_additive (v w : word) :
  mix_column (xor_word v w) = xor_word (mix_column v) (mix_column w).
Proof.
  destruct v as [[[a b] c] d], w as [[[a' b'] c'] d'].
  cbn [xor_word mix_column]. rewrite !gmul_additive, !xor4_interchange. reflexivity.
Qed.

Lemma inv_mix_column_additive (v w : word) :
  inv_mix_column (xor_word v w) = xor_word (inv_mix_column v) (inv_mix_column w).
Proof.
  destruct v as [[[a b] c] d], w as [[[a' b'] c'] d'].
  cbn [xor_word inv_mix_column]. rewrite !gmul_additive, !xor4_interchange. reflexivity.
Qed.

Lemma unmix_first (a : byte) :
  inv_mix_column (mix_column (a, x00, x00, x00)) = (a, x00, x00, x00).
Proof. destruct a; vm_compute; reflexivity. Qed.

Lemma unmix_second (a : byte) :
  inv_mix_column (mix_column (x00, a, x00, x00)) = (x00, a, x00, x00).
Proof. destruct a; vm_compute; reflexivity. Qed.

Lemma unmix_third (a : byte) :
  inv_mix_column (mix_column (x00, x00, a, x00)) = (x00, x00, a, x00).
Proof. destruct a; vm_compute; reflexivity. Qed.

Lemma unmix_fourth (a : byte) :
  inv_mix_column (mix_column (x00, x00, x00, a)) = (x00, x00, x00, a).
Proof. destruct a; vm_compute; reflexivity. Qed.

Lemma word_decomposition (a b c d : byte) :
  (a, b, c, d)
  = xor_word (a, x00, x00, x00)
      (xor_word (x00, b, x00, x00) (xor_word (x00, x00, c, x00) (x00, x00, x00, d))).
Proof.
  cbn [xor_word]. rewrite !bxor_zero_r, !bxor_zero_l. reflexivity.
Qed.

(** InvMixColumns undoes MixColumns on every column. *)
Lemma inv_mix_column_mix_column (w : word) : inv_mix_column (mix_column w) = w.
Proof.
  destruct w as [[[a b] c] d].
  rewrite (word_decomposition a b c d) at 1.
  rewrite !mix_column_additive, !inv_mix_column_additive.
  rewrite unmix_first, unmix_second, unmix_third, unmix_fourth.
  symmetry. apply word_decomposition.
Qed.

Lemma inv_sub_byte_sub_byte (a : byte) : inv_sub_byte (sub_byte a) = a.
Proof. destruct a; vm_compute; reflexivity. Qed.

Lemma inv_mix_columns_mix_columns (s : block) : inv_mix_columns (mix_columns s) = s.
Proof.
  destruct s as [[[a b] c] d]. unfold inv_mix_columns, mix_columns. cbn [map_block].
  now rewrite !inv_mix_column_mix_column.
Qed.

Lemma inv_sub_bytes_sub_bytes (s : block) : inv_sub_bytes (sub_bytes s) = s.
Proof.
  destruct s as [[[[[[a0 a1] a2] a3] [[[b0 b1] b2] b3]] [[[c0 c1] c2] c3]] [[[e0 e1] e2] e3]].
  unfold inv_sub_bytes, sub_bytes. cbn [map_block map_word].
  now rewrite !inv_sub_byte_sub_byte.
Qed.

Lemma inv_shift_rows_shift_rows (s : block) : inv_shift_rows (shift_rows s) = s.
Proof.
  destruct s as [[[[[[a0 a1] a2] a3] [[[b0 b1] b2] b3]] [[[c0 c1] c2] c3]] [[[e0 e1] e2] e3]].
  reflexivity.
Qed.

Lemma xor_word_cancel (w k : word) : xor_word (xor_word w k) k = w.
Proof.
  destruct w as [[[a b] c] d], k as [[[a' b'] c'] d'].
  cbn [xor_word]. now rewrite !bxor_cancel.
Qed.

Lemma xor_block_cancel (s k : block) : xor_block (xor_block s k) k = s.
Proof.
  destruct s as [[[a b] c] d], k as [[[a' b'] c'] d'].
  cbn [xor_block]. now rewrite !xor_word_cancel.
Qed.

Lemma inv_round_round (s k : block) : inv_round (round s k) k = s.
Proof.
  unfold inv_round, round, add_round_key.
  now rewrite xor_block_cancel, inv_mix_columns_mix_columns,
    inv_shift_rows_shift_rows, inv_sub_bytes_sub_bytes.
Qed.

Lemma inv_rounds_rounds (ks : list block) (s : block) :
  fold_left inv_round (rev ks) (fold_left round ks s) = s.
Proof.
  revert s. induction ks as [|k ks IH]; intros s; [reflexivity|].
  cbn [fold_left rev]. rewrite fold_left_app. cbn [fold_left].
  now rewrite IH, inv_round_round.
Qed.

(** InvCipher undoes Cipher, whatever the round keys. *)
Theorem decrypt_block_encrypt_block (ks : schedule) (p : block) :
  decrypt_block ks (encrypt_block ks p) = p.
Proof.
  unfold decrypt_block, encrypt_block, add_round_key.
  now rewrite xor_block_cancel, inv_shift_rows_shift_rows, inv_sub_bytes_sub_bytes,
    inv_rounds_rounds, xor_block_cancel.
Qed.

(** CBC decryption undoes CBC encryption and ends on the same chaining value. *)
Lemma cbc_decrypt_encrypt (ks : schedule) (ps : list block) (iv : block) :
  cbc_decrypt ks iv (fst (cbc_encrypt ks iv ps)) = (ps, snd (cbc_encrypt ks iv ps)).
Proof.
  revert iv. induction ps as [|p ps IH]; intros iv; [reflexivity|].
  cbn [cbc_encrypt].
  specialize (IH (encrypt_block ks (xor_block p iv))).
  destruct (cbc_encrypt ks (encrypt_block ks (xor_block p iv)) ps) as [cs ch].
  cbn [fst snd cbc_decrypt] in *. rewrite IH.
  now rewrite decrypt_block_encrypt_block, xor_block_cancel.
Qed.

End AesBytes.

(** ** Blocks, padding and the streaming interface of the cipher *)

Section AesStreams.
Import Aes.

Lemma length_bytes_of_block (b : block) : length (bytes_of_block b) = 16%nat.
Proof.
  destruct b as [[[[[[a0 a1] a2] a3] [[[b0 b1] b2] b3]] [[[c0 c1] c2] c3]] [[[e0 e1] e2] e3]].
  reflexivity.
Qed.

Lemma length_join_blocks (bs : list block) : length (join_blocks bs) = (16 * length bs)%nat.
Proof.
  induction bs as [|b bs IH]; [reflexivity|].
  cbn [join_blocks flat_map length]. rewrite length_app, length_bytes_of_block.
  fold (join_blocks bs). lia.
Qed.

Lemma split_blocks_cons (b : block) (rest : buffer) :
  split_blocks (bytes_of_block b ++ rest)
  = (b :: fst (split_blocks rest), snd (split_blocks rest)).
Proof.
  destruct b as [[[[[[a0 a1] a2] a3] [[[b0 b1] b2] b3]] [[[c0 c1] c2] c3]] [[[e0 e1] e2] e3]].
  cbn [bytes_of_block bytes_of_word app split_blocks].
  now destruct (split_blocks rest).
Qed.

Lemma split_blocks_short (r : buffer) : (length r < 16)%nat -> split_blocks r = ([], r).
Proof.
  intros H.
  do 16 (destruct r as [|? r]; [reflexivity|]).
  cbn [length] in H. lia.
Qed.

Lemma split_blocks_join (bs : list block) (r : buffer) :
  (length r < 16)%nat -> split_blocks (join_blocks bs ++ r) = (bs, r).
Proof.
  intros H. induction bs as [|b bs IH].
  - now apply split_blocks_short.
  - cbn [join_blocks flat_map]. fold (join_blocks bs).
    rewrite <- app_assoc, split_blocks_cons, IH. reflexivity.
Qed.

Lemma split_blocks_spec_bounded (n : nat) :
  forall data, (length data <= n)%nat ->
  data = join_blocks (fst (split_blocks data)) ++ snd (split_blocks data)
  /\ (length (snd (split_blocks data)) < 16)%nat.
Proof.
  induction n as [|n IH]; intros data Hlen.
  - destruct data; [|cbn [length] in Hlen; lia]. split; [reflexivity|cbn; lia].
  - do 16 (destruct data as [|? data]; [split; [reflexivity|cbn [split_blocks snd length]; lia]|]).
    cbn [length] in Hlen.
    destruct (IH data ltac:(lia)) as [E L].
    cbn [split_blocks]. destruct (split_blocks data) as [bs r].
    cbn [fst snd] in *. split; [|assumption].
    cbn [join_blocks flat_map bytes_of_block bytes_of_word app].
    fold (join_blocks bs). now rewrite <- E.
Qed.

(** The blocks and the rest that [split_blocks] returns make up the data, and
    the rest is shorter than a block. *)
Lemma split_blocks_spec (data : buffer) :
  data = join_blocks (fst (split_blocks data)) ++ snd (split_blocks data)
  /\ (length (snd (split_blocks data)) < 16)%nat.
Proof. apply (@split_blocks_spec_bounded (length data)). apply Nat.le_refl. Qed.

Lemma padding_short (n : nat) :
  (n < 16)%nat -> padding n = repeat (byte_of_N (N.of_nat (16 - n))) (16 - n).
Proof. intros H. unfold padding. now rewrite Nat.mod_small. Qed.

(** The rest of the input and its padding are exactly one block. *)
Lemma split_blocks_padded (r : buffer) :
  (length r < 16)%nat ->
  exists pb, split_blocks (r ++ padding (length r)) = ([pb], [])
             /\ bytes_of_block pb = r ++ padding (length r).
Proof.
  intros H.
  assert (L : length (r ++ padding (length r)) = 16%nat).
  { rewrite length_app, padding_short, repeat_length by assumption. lia. }
  destruct (split_blocks_spec (r ++ padding (length r))) as [E R].
  destruct (split_blocks (r ++ padding (length r))) as [bs rest]. cbn [fst snd] in *.
  assert (L' : (16 * length bs + length rest = 16)%nat).
  { rewrite E in L. now rewrite length_app, length_join_blocks in L. }
  destruct bs as [|pb [|pb' bs]]; cbn [length] in L'; try lia.
  destruct rest; [|cbn [length] in L'; lia].
  exists pb. split; [reflexivity|].
  rewrite E. cbn [join_blocks flat_map]. now rewrite !List.app_nil_r.
Qed.

Lemma forallb_repeat_eqb (v : byte) (k : nat) :
  forallb (fun b => Byte.eqb b v) (repeat v k) = true.
Proof.
  induction k as [|k IH]; [reflexivity|].
  cbn [repeat forallb]. rewrite IH. now rewrite (Byte.byte_dec_lb (eq_refl v)).
Qed.

(** Removing the padding gives the rest of the input back. *)
Lemma unpad_padding (r : buffer) :
  (length r < 16)%nat -> unpad (r ++ padding (length r)) = Some r.
Proof.
  intros H. rewrite padding_short by assumption.
  set (k := (16 - length r)%nat). set (v := byte_of_N (N.of_nat k)).
  assert (Hk : (1 <= k <= 16)%nat) by (unfold k; lia).
  assert (Hlast : List.last (r ++ repeat v k) x00 = v).
  { destruct k as [|k']; [lia|].
    cbn [repeat]. rewrite repeat_cons, app_assoc. apply last_last. }
  assert (Hv : N.to_nat (Byte.to_N v) = k).
  { unfold v. rewrite to_N_byte_of_small by lia. apply Nat2N.id. }
  unfold unpad. rewrite Hlast, Hv.
  replace (16 - k)%nat with (length r) by (unfold k; lia).
  rewrite skipn_app, skipn_all, Nat.sub_diag. cbn [app skipn].
  rewrite forallb_repeat_eqb.
  rewrite firstn_app, firstn_all, Nat.sub_diag. cbn [firstn].
  rewrite List.app_nil_r.
  destruct (Nat.leb_spec 1 k); [|lia]. destruct (Nat.leb_spec k 16); [|lia].
  reflexivity.
Qed.

(** What a cipher returns for [data]: the CBC encryption of [data] and its
    padding. *)
Lemma cipher_output (ks : schedule) (iv : block) (data : buffer) :
  let (c, updated) := cipher_update (fresh ks iv) data in
  exists ps pb r cs ch cb,
    split_blocks data = (ps, r)
    /\ bytes_of_block pb = r ++ padding (length r)
    /\ cbc_encrypt ks iv ps = (cs, ch)
    /\ cb = encrypt_block ks (xor_block pb ch)
    /\ updated = join_blocks cs
    /\ cipher_final c = bytes_of_block cb.
Proof.
  unfold cipher_update, fresh. cbn [pending keys chain app].
  destruct (split_blocks_spec data) as [E R].
  destruct (split_blocks data) as [ps r]. cbn [fst snd] in *.
  destruct (cbc_encrypt ks iv ps) as [cs ch] eqn:Ecs.
  destruct (split_blocks_padded r R) as (pb & Epb & Hpb).
  exists ps, pb, r, cs, ch, (encrypt_block ks (xor_block pb ch)).
  repeat split; try assumption.
  unfold cipher_final. cbn [pending keys chain]. rewrite Epb.
  cbn [cbc_encrypt fst join_blocks flat_map]. apply List.app_nil_r.
Qed.

(** Deciphering what a cipher returned for [data] gives [data]. *)
Theorem decipher_cipher (ks : schedule) (iv : block) (data : buffer) :
  let (c, updated) := cipher_update (fresh ks iv) data in
  let (d, plain) := decipher_update (fresh ks iv) (updated ++ cipher_final c) in
  exists final, decipher_final d = Ok final /\ plain ++ final = data.
Proof.
  pose proof (cipher_output ks iv data) as H.
  destruct (cipher_update (fresh ks iv) data) as [c updated].
  destruct H as (ps & pb & r & cs & ch & cb & Es & Hpb & Ecs & Ecb & Eu & Ef).
  rewrite Eu, Ef.
  destruct (split_blocks_spec data) as [E R]. rewrite Es in E, R. cbn [fst snd] in E, R.
  unfold decipher_update, fresh. cbn [pending keys chain app].
  replace (join_blocks cs ++ bytes_of_block cb) with (join_blocks (cs ++ [cb]) ++ []).
  2:{ unfold join_blocks. rewrite flat_map_app. cbn [flat_map].
      now rewrite !List.app_nil_r. }
  rewrite split_blocks_join by (cbn; lia).
  rewrite rev_app_distr. cbn [rev app]. rewrite rev_involutive.
  pose proof (cbc_decrypt_encrypt ks ps iv) as Hd. rewrite Ecs in Hd. cbn [fst snd] in Hd.
  rewrite Hd.
  exists r. split; [|symmetry; exact E].
  unfold decipher_final. cbn [pending keys chain].
  replace (bytes_of_block cb) with (join_blocks [cb] ++ [])
    by (cbn [join_blocks flat_map]; now rewrite !List.app_nil_r).
  rewrite split_blocks_join by (cbn; lia).
  cbn [cbc_decrypt fst join_blocks flat_map]. rewrite List.app_nil_r.
  rewrite Ecb, decrypt_block_encrypt_block, xor_block_cancel, Hpb.
  now rewrite unpad_padding.
Qed.

End AesStreams.

(** ** Fixed notation *)

Section Fixed.

Lemma value_of_leading_zeros (z : nat) (s : jsstring) :
  value_of_digits 0 (repeat 48 z ++ s) = value_of_digits 0 s.
Proof. induction z as [|z IH]; [reflexivity|exact IH]. Qed.

Lemma forallb_is_digit_zeros (z : nat) : forallb is_digit (repeat 48 z) = true.
Proof. induction z as [|z IH]; [reflexivity|exact IH]. Qed.

Lemma span_digits_all (ds : jsstring) :
  forallb is_digit ds = true -> span_digits ds = (ds, []).
Proof.
  intros H. rewrite <- (List.app_nil_r ds) at 1. now apply span_all_digits.
Qed.

(** A numeral in fixed notation with [d] decimals denotes [n / 10^d]. *)
Lemma fixed_value_fixed_notation (d : nat) (n : N) :
  fixed_value (fixed_notation d n) = Some (n, d).
Proof.
  unfold fixed_notation.
  pose proof (digits_of_N_digits n) as Hd.
  pose proof (digits_of_N_nonempty n) as Hne.
  pose proof (value_of_digits_of_N n) as Hv.
  destruct d as [|d].
  - unfold fixed_value. rewrite span_digits_all by assumption.
    destruct (digits_of_N n); [contradiction|]. now rewrite Hv.
  - cbv beta iota zeta.
    set (m := repeat 48 (S d + 1 - length (digits_of_N n)) ++ digits_of_N n).
    assert (Hm : forallb is_digit m = true).
    { unfold m. rewrite forallb_app, forallb_is_digit_zeros. exact Hd. }
    assert (Hlen : (S d < length m)%nat).
    { unfold m. rewrite length_app, repeat_length.
      destruct (digits_of_N n); [contradiction|]. cbn [length]. lia. }
    assert (Hmv : value_of_digits 0 m = n).
    { unfold m. now rewrite value_of_leading_zeros. }
    clearbody m.
    pose proof (firstn_skipn (length m - S d) m) as Hsplit.
    assert (Hi : forallb is_digit (firstn (length m - S d) m) = true
                 /\ forallb is_digit (skipn (length m - S d) m) = true).
    { rewrite <- Hsplit in Hm. rewrite forallb_app in Hm. now apply andb_prop in Hm. }
    destruct Hi as [Hi Hf].
    assert (Li : length (firstn (length m - S d) m) = (length m - S d)%nat)
      by (apply firstn_length_le; lia).
    assert (Lf : length (skipn (length m - S d) m) = S d)
      by (rewrite length_skipn; lia).
    set (ip := firstn (length m - S d) m) in *.
    set (fp := skipn (length m - S d) m) in *.
    clearbody ip fp.
    unfold fixed_value. cbn [app].
    rewrite (span_all_digits ip (46 :: fp) Hi eq_refl).
    destruct ip as [|i ip]; [cbn [length] in Li; lia|].
    change (46 =? 46) with true. cbv iota.
    rewrite span_digits_all by assumption.
    destruct fp as [|f fp]; [discriminate|].
    now rewrite Hsplit, Hmv, Lf.
Qed.

Lemma toFixed_NaN (d : nat) : toFixed d NaN = str "NaN".
Proof. reflexivity. Qed.

Lemma fixed_value_NaN : fixed_value (str "NaN") = None.
Proof. reflexivity. Qed.

(** [((u / t) * 100).toFixed(2)] for tick counts [u] and [t], [t] positive:
    the hundredths nearest to [10000 u / t], the larger when there are two. *)
Lemma percent_toFixed (u t : N) :
  0 < t ->
  toFixed 2 (js_mul (js_div (number_of_N u) (number_of_N t)) (number_of_N 100))
  = fixed_notation 2 ((2 * 10000 * u + t) / (2 * t)).
Proof.
  intros Ht. destruct t as [|p]; [lia|].
  unfold number_of_N, js_div, js_mul, toFixed, Qzero, Qneg, round_half_up.
  cbn [inject_Z Qnum Qden Z.of_N Z.eqb Qdiv Qinv Qmult Qabs].
  change (10 ^ Z.of_nat 2)%Z with 100%Z.
  replace (Z.of_N u * 1 * 100 <? 0)%Z with false by (symmetry; apply Z.ltb_ge; lia).
  cbn [app]. f_equal.
  rewrite <- (N2Z.id ((2 * 10000 * u + N.pos p) / (2 * N.pos p))).
  f_equal. rewrite N2Z.inj_div. f_equal; lia.
Qed.


End Fixed.

(** ** Keys and initialization vectors *)

Section Keys.

Lemma length_utf8_of_codepoint (cp : N) :
  (1 <= length (utf8_of_codepoint cp))%nat
  /\ (length (utf8_of_codepoint cp) = 1%nat -> cp < 128).
Proof.
  unfold utf8_of_codepoint.
  destruct (N.ltb_spec cp 128); [split; [apply Nat.le_refl|auto]|].
  destruct (cp <? 2048); [split; [cbn; lia|discriminate]|].
  destruct (cp <? 65536); split; cbn [length]; try lia; discriminate.
Qed.

Lemma utf8_encode_unit (c : N) (s : jsstring) :
  is_surrogate c = false ->
  utf8_encode (c :: s) = utf8_of_codepoint c ++ utf8_encode s.
Proof.
  intros H. cbn [utf8_encode].
  now rewrite (not_surrogate_not_high _ H), (not_surrogate_not_low _ H).
Qed.

Lemma ascii_not_surrogate (c : N) : c < 128 -> is_surrogate c = false.
Proof. intros H. unfold is_surrogate. n_decide. reflexivity. Qed.

Lemma utf8_encode_ascii (c : N) (s : jsstring) :
  c < 128 -> utf8_encode (c :: s) = byte_of_N c :: utf8_encode s.
Proof.
  intros H. rewrite utf8_encode_unit by now apply ascii_not_surrogate.
  unfold utf8_of_codepoint. now destruct (N.ltb_spec c 128); [|lia].
Qed.

(** UTF-8 takes at least one byte per code unit, and exactly one only when
    every unit is ASCII. *)
Lemma length_utf8_encode_bounded (n : nat) :
  forall s, (length s <= n)%nat ->
  (length s <= length (utf8_encode s))%nat
  /\ (length (utf8_encode s) = length s -> forallb (fun c => c <? 128) s = true).
Proof.
  induction n as [|n IH]; intros [|c s] Hlen; cbn [length] in Hlen;
    try (split; [apply Nat.le_refl|reflexivity]); try lia.
  assert (Hs : (length s <= n)%nat) by lia.
  destruct (IH s Hs) as [Is Es].
  assert (Hrep : length (utf8_of_codepoint replacement_char) = 3%nat) by reflexivity.
  cbn [utf8_encode].
  destruct (is_high_surrogate c) eqn:Hh.
  - destruct s as [|d s'].
    + rewrite Hrep. cbn [length]. split; [lia|discriminate].
    + destruct (is_low_surrogate d) eqn:Hl.
      * cbn [length] in *.
        destruct (IH s' ltac:(lia)) as [Is' _].
        destruct (length_utf8_of_codepoint (65536 + (c - 55296) * 1024 + (d - 56320)))
          as [L1 L2].
        assert (L4 : length (utf8_of_codepoint
                               (65536 + (c - 55296) * 1024 + (d - 56320))) = 4%nat).
        { unfold is_high_surrogate, is_low_surrogate in Hh, Hl.
          apply andb_prop in Hh, Hl. destruct Hh as [Hh1 Hh2], Hl as [Hl1 Hl2].
          apply N.leb_le in Hh1, Hh2, Hl1, Hl2.
          unfold utf8_of_codepoint. n_decide. reflexivity. }
        rewrite length_app, L4. split; lia.
      * rewrite length_app, Hrep. cbn [length] in *. split; lia.
  - destruct (is_low_surrogate c) eqn:Hl.
    + rewrite length_app, Hrep. cbn [length]. split; lia.
    + destruct (length_utf8_of_codepoint c) as [L1 L2].
      rewrite length_app. cbn [length forallb]. split; [lia|].
      intros E. assert (Hc : c < 128) by (apply L2; lia).
      apply N.ltb_lt in Hc. rewrite Hc. apply Es. lia.
Qed.

Lemma length_utf8_encode (s : jsstring) :
  (length s <= length (utf8_encode s))%nat
  /\ (length (utf8_encode s) = length s -> forallb (fun c => c <? 128) s = true).
Proof. apply (@length_utf8_encode_bounded (length s)). apply Nat.le_refl. Qed.

(** The bytes of an ASCII prefix are the first bytes of the string. *)
Lemma utf8_encode_ascii_prefix (k : nat) :
  forall s, forallb (fun c => c <? 128) (firstn k s) = true ->
  utf8_encode (firstn k s) = firstn k (utf8_encode s)
  /\ length (utf8_encode (firstn k s)) = length (firstn k s).
Proof.
  induction k as [|k IH]; intros [|c s] H; try (split; reflexivity).
  cbn [firstn forallb] in H. apply andb_prop in H. destruct H as [Hc H].
  apply N.ltb_lt in Hc. destruct (IH s H) as [E L].
  cbn [firstn]. rewrite !utf8_encode_ascii by assumption.
  cbn [firstn length]. split; [now rewrite E|now rewrite L].
Qed.

(** Under a usable key the initialization vector is the first 16 bytes of
    the key. *)
Lemma usable_key_iv (key : jsstring) :
  usable_key key = true ->
  length (utf8_encode key) = 32%nat
  /\ utf8_encode (slice key 0 16) = firstn 16 (utf8_encode key)
  /\ length (utf8_encode (slice key 0 16)) = 16%nat.
Proof.
  unfold usable_key, ascii_prefix, slice. intros H.
  apply andb_prop in H. destruct H as [H32 H].
  apply andb_prop in H. destruct H as [H16 Hascii].
  apply Nat.eqb_eq in H32. apply Nat.leb_le in H16.
  cbn [Nat.sub skipn].
  destruct (utf8_encode_ascii_prefix 16 key Hascii) as [E L].
  repeat split; try assumption.
  rewrite L. apply firstn_length_le. assumption.
Qed.

(** A key of 32 bytes that yields a 16-byte initialization vector is usable. *)
Lemma iv_usable_key (key : jsstring) :
  length (utf8_encode key) = 32%nat ->
  length (utf8_encode (slice key 0 16)) = 16%nat ->
  usable_key key = true.
Proof.
  unfold usable_key, ascii_prefix, slice. cbn [Nat.sub skipn]. intros H32 H16.
  rewrite H32. cbn [Nat.eqb andb].
  destruct (Nat.leb_spec 16 (length key)) as [Hk|Hk].
  - destruct (length_utf8_encode (firstn 16 key)) as [_ E].
    rewrite firstn_length_le in E by assumption. now rewrite E.
  - rewrite firstn_all2 in H16 by lia. congruence.
Qed.

End Keys.

(** ** [encryptLogData] and [decryptLogData] *)

Section Encryption.
Import Aes.

Lemma cbc_encrypt_app (ks : schedule) (ps qs : list block) (iv : block) :
  cbc_encrypt ks iv (ps ++ qs)
  = (fst (cbc_encrypt ks iv ps) ++ fst (cbc_encrypt ks (snd (cbc_encrypt ks iv ps)) qs),
     snd (cbc_encrypt ks (snd (cbc_encrypt ks iv ps)) qs)).
Proof.
  revert iv. induction ps as [|p ps IH]; intros iv.
  - cbn [app cbc_encrypt fst snd]. now destruct (cbc_encrypt ks iv qs).
  - cbn [app cbc_encrypt]. rewrite IH.
    destruct (cbc_encrypt ks (encrypt_block ks (xor_block p iv)) ps) as [cs ch].
    reflexivity.
Qed.

Lemma padding_mod (a b : nat) : padding (16 * a + b) = padding b.
Proof.
  unfold padding.
  replace ((16 * a + b) mod 16)%nat with (b mod 16)%nat; [reflexivity|].
  rewrite Nat.add_comm, Nat.mul_comm. symmetry. apply Nat.Div0.mod_add.
Qed.

(** The two chunks of a cipher are the CBC encryption of the padded data. *)
Lemma cipher_batch (ks : schedule) (iv : block) (data : buffer) :
  let (c, updated) := cipher_update (fresh ks iv) data in
  updated ++ cipher_final c
  = join_blocks (fst (cbc_encrypt ks iv
                        (fst (split_blocks (data ++ padding (length data)))))).
Proof.
  pose proof (cipher_output ks iv data) as H.
  destruct (cipher_update (fresh ks iv) data) as [c updated].
  destruct H as (ps & pb & r & cs & ch & cb & Es & Hpb & Ecs & Ecb & Eu & Ef).
  destruct (split_blocks_spec data) as [E R]. rewrite Es in E, R. cbn [fst snd] in E, R.
  assert (Hpad : data ++ padding (length data) = join_blocks (ps ++ [pb]) ++ []).
  { rewrite E at 2. rewrite length_app, length_join_blocks, padding_mod.
    rewrite E at 1. unfold join_blocks. rewrite flat_map_app. cbn [flat_map].
    rewrite Hpb, !List.app_nil_r, <- app_assoc. reflexivity. }
  rewrite Hpad, split_blocks_join by (cbn; lia). cbn [fst].
  rewrite cbc_encrypt_app, Ecs. cbn [fst snd cbc_encrypt].
  unfold join_blocks. rewrite flat_map_app. cbn [flat_map].
  rewrite List.app_nil_r, Eu, Ef, Ecb. reflexivity.
Qed.

Lemma createCipheriv_usable (key : jsstring) :
  usable_key key = true ->
  createCipheriv (utf8_encode key) (utf8_encode (slice key 0 16))
  = Ok (fresh (key_schedule (utf8_encode key))
              (hd zero_block (fst (split_blocks (firstn 16 (utf8_encode key)))))).
Proof.
  intros H. destruct (usable_key_iv key H) as (H32 & Eiv & H16).
  unfold createCipheriv. rewrite H16, H32, Eiv. reflexivity.
Qed.

(** Under a usable key [encryptLogData] returns the hex string of the
    ciphertext. *)
Lemma encryptLogData_usable (ctx : Context) (key : jsstring) (log : json) :
  enableTextEncryption ctx = true -> encryptionKey ctx = Some key ->
  usable_key key = true ->
  encryptLogData ctx log = Ok (JStr (hex_encode (ciphertext key log))).
Proof.
  intros He Hk Hu. unfold encryptLogData. rewrite He, Hk. cbn [negb].
  rewrite createCipheriv_usable by assumption. cbn [bind_result].
  pose proof (cipher_batch (key_schedule (utf8_encode key))
                (hd zero_block (fst (split_blocks (firstn 16 (utf8_encode key)))))
                (utf8_encode (JSON_stringify log))) as H.
  destruct (cipher_update _ _) as [c updated].
  rewrite <- hex_encode_app, H. reflexivity.
Qed.

(** [decryptLogData] reads back what [encryptLogData] wrote. *)
Lemma decryptLogData_ciphertext (ctx : Context) (key : jsstring) (log : json) :
  encryptionKey ctx = Some key -> usable_key key = true -> valid_json log = true ->
  decryptLogData ctx (JStr (hex_encode (ciphertext key log))) = Ok log.
Proof.
  intros Hk Hu Hv. unfold decryptLogData. rewrite Hk.
  unfold createDecipheriv. rewrite createCipheriv_usable by assumption.
  cbn [bind_result]. rewrite hex_decode_encode.
  set (ks := key_schedule (utf8_encode key)).
  set (iv := hd zero_block (fst (split_blocks (firstn 16 (utf8_encode key))))).
  set (data := utf8_encode (JSON_stringify log)).
  pose proof (cipher_batch ks iv data) as Hb.
  pose proof (decipher_cipher ks iv data) as Hd.
  destruct (cipher_update (fresh ks iv) data) as [c updated].
  unfold ciphertext. fold ks iv data. rewrite <- Hb.
  destruct (decipher_update (fresh ks iv) (updated ++ cipher_final c)) as [d plain].
  destruct Hd as (final & Hf & E). rewrite Hf. cbn [bind_result].
  rewrite E. unfold data, JSON_stringify. rewrite utf8_serialize by assumption.
  now rewrite JSON_parse_serialize.
Qed.

End Encryption.

(** ** Loading the module *)

Section Load.

Lemma jsstring_eqb_refl (s : jsstring) : jsstring_eqb s s = true.
Proof. unfold jsstring_eqb. now destruct (list_eq_dec N.eq_dec s s). Qed.

Lemma jsstring_eqb_eq (a b : jsstring) : jsstring_eqb a b = true <-> a = b.
Proof.
  unfold jsstring_eqb. destruct (list_eq_dec N.eq_dec a b); split; auto; discriminate.
Qed.

Lemma truthy_string_default (s : option jsstring) :
  truthy_string s = true -> s = Some (or_default s []).
Proof. destruct s as [[|c s]|]; try discriminate. reflexivity. Qed.

(** What a loaded text configuration leaves in the module variables. *)
Lemma load_text (cfg : Config) (ctx : Context) :
  load cfg = Ok ctx -> database_type cfg = Some (str "text") ->
  exists t path,
    text cfg = Some t /\ config ctx = cfg /\ dbType ctx = str "text"
    /\ logFilePath ctx = Some path
    /\ enableTextEncryption ctx = truthy_bool (enable_log_security t)
    /\ (enableTextEncryption ctx = true ->
        encryptionKey ctx = log_security_encryption_key t
        /\ truthy_string (encryptionKey ctx) = true).
Proof.
  intros Hload Hdb. unfold load in Hload. rewrite Hdb in Hload.
  change (truthy_string (Some (str "text"))) with true in Hload.
  change (or_default (Some (str "text")) []) with (str "text") in Hload.
  change (jsstring_eqb (str "text") (str "text")) with true in Hload.
  cbn [negb] in Hload. cbv iota in Hload.
  destruct (text cfg) as [t|] eqn:Et; [|discriminate].
  destruct (truthy_string (file_path t)) eqn:Ep; [|discriminate].
  cbn [bind_result] in Hload.
  exists t, (path_resolve (or_default (file_path t) [])).
  destruct (truthy_bool (enable_log_security t)) eqn:Ee.
  - destruct (truthy_string (log_security_encryption_key t)) eqn:Ek;
      [|discriminate].
    cbn [negb] in Hload. injection Hload as <-. cbn. auto 10.
  - injection Hload as <-. cbn. repeat split; auto; discriminate.
Qed.

End Load.

(** ** The file sink *)

Section FileSink.

Variable ctx : Context.
Variable path : jsstring.
Hypothesis Htext : dbType ctx = str "text".
Hypothesis Hpath : logFilePath ctx = Some path.

Lemma stored_written (w : World) (entries : list json) :
  stored (written w path entries) path entries.
Proof. unfold stored, written. cbn [files set_files]. now rewrite jsstring_eqb_refl. Qed.

Lemma serialize_nonempty (gap ind : nat) (v : json) : serialize gap ind v <> [].
Proof. destruct (serialize_head gap ind v) as (c & t & E & _). rewrite E. discriminate. Qed.

(** The first write, into a log file that is absent or empty. *)
Lemma store_fresh (w : World) (r : LogRecord) (entry : json) :
  encryptLogData ctx (log_object r) = Ok entry ->
  files w path = None \/ files w path = Some [] ->
  write_error w path = None ->
  store ctx r w = (Ok tt, written w path [entry]).
Proof.
  intros Henc Hfile Hw.
  cbv [store try_catch write_log bind lift ret throw
       fs_existsSync fs_readFileSync fs_writeFileSync].
  rewrite Htext. change (jsstring_eqb (str "text") (str "text")) with true. cbv iota.
  rewrite Henc, Hpath.
  destruct Hfile as [Hfile|Hfile];
    repeat (rewrite ?Hfile, ?Hw; try change (utf8_decode []) with (@nil N);
            cbv beta iota zeta);
    reflexivity.
Qed.

(** A later write, after the entries already in the log file. *)
Lemma store_append (w : World) (r : LogRecord) (entry : json) (entries : list json) :
  encryptLogData ctx (log_object r) = Ok entry ->
  stored w path entries -> forallb valid_json entries = true ->
  write_error w path = None ->
  store ctx r w = (Ok tt, written w path (entries ++ [entry])).
Proof.
  intros Henc Hfile Hvalid Hw. unfold stored in Hfile.
  cbv [store try_catch write_log bind lift ret throw
       fs_existsSync fs_readFileSync fs_writeFileSync].
  rewrite Htext. change (jsstring_eqb (str "text") (str "text")) with true. cbv iota.
  rewrite Henc, Hpath, Hfile. cbv beta iota zeta. rewrite Hfile. cbv beta iota zeta.
  assert (E0 : utf8_decode (utf8_encode (JSON_stringify_indent2 (JArr entries)))
               = JSON_stringify_indent2 (JArr entries))
    by (apply utf8_serialize; exact Hvalid).
  rewrite !E0.
  pose proof (serialize_nonempty 2 0 (JArr entries)) as Hne.
  fold (JSON_stringify_indent2 (JArr entries)) in Hne.
  destruct (JSON_stringify_indent2 (JArr entries)) as [|c text] eqn:E; [contradiction|].
  rewrite <- E, JSON_parse_stringify_indent2.
  cbv beta iota zeta. now rewrite Hw.
Qed.

Lemma write_error_written (w : World) (entries : list json) :
  write_error (written w path entries) = write_error w.
Proof. reflexivity. Qed.

(** The log file after a run of writes that follows some entries. *)
Lemma after_writes_append (rs : list LogRecord) :
  Forall (fun r => encryptLogData ctx (log_object r) = Ok (entry_of ctx r)
                   /\ valid_json (entry_of ctx r) = true) rs ->
  forall w entries,
    stored w path entries -> forallb valid_json entries = true ->
    write_error w path = None ->
    stored (after_writes ctx rs w) path (entries ++ map (entry_of ctx) rs)
    /\ console (after_writes ctx rs w) = console w.
Proof.
  induction 1 as [|r rs [Henc Hv] _ IH]; intros w entries Hs Hvalid Hw.
  - cbn [after_writes fold_left map]. now rewrite List.app_nil_r.
  - cbn [after_writes fold_left map].
    rewrite (@store_append w r (entry_of ctx r) entries Henc Hs Hvalid Hw). cbn [snd].
    fold (after_writes ctx rs (written w path (entries ++ [entry_of ctx r]))).
    destruct (IH (written w path (entries ++ [entry_of ctx r]))
                 (entries ++ [entry_of ctx r])) as [IH1 IH2].
    + apply stored_written.
    + rewrite forallb_app, Hvalid. cbn [forallb]. now rewrite Hv.
    + now rewrite write_error_written.
    + rewrite <- app_assoc in IH1. cbn [app] in IH1. now split.
Qed.

(** The log file after a run of writes into an absent or empty file. *)
Lemma after_writes_fresh (r : LogRecord) (rs : list LogRecord) (w : World) :
  Forall (fun r => encryptLogData ctx (log_object r) = Ok (entry_of ctx r)
                   /\ valid_json (entry_of ctx r) = true) (r :: rs) ->
  files w path = None \/ files w path = Some [] ->
  write_error w path = None ->
  stored (after_writes ctx (r :: rs) w) path (map (entry_of ctx) (r :: rs))
  /\ console (after_writes ctx (r :: rs) w) = console w.
Proof.
  intros H Hfile Hw. inversion H as [|? ? [Henc Hv] Hrs]; subst.
  cbn [after_writes fold_left map].
  rewrite (@store_fresh w r (entry_of ctx r) Henc Hfile Hw). cbn [snd].
  fold (after_writes ctx rs (written w path [entry_of ctx r])).
  destruct (@after_writes_append rs Hrs (written w path [entry_of ctx r]) [entry_of ctx r])
    as [H1 H2].
  - apply stored_written.
  - cbn [forallb]. now rewrite Hv.
  - now rewrite write_error_written.
  - now split.
Qed.

(** Reading a log file that holds [entries]. *)
Lemma read_stored (w : World) (entries : list json) (t : TextConfig) :
  text (config ctx) = Some t ->
  stored w path entries -> forallb valid_json entries = true ->
  readTextLogs ctx w
  = (if truthy_bool (enable_log_security t)
     then match map_result (decryptLogData ctx) entries with
          | Ok decrypted => Ok (JArr decrypted)
          | Throw e => Throw e
          end
     else Ok (JArr entries), w).
Proof.
  intros Ht Hfile Hvalid. unfold stored in Hfile.
  cbv [readTextLogs bind lift ret throw fs_readFileSync].
  rewrite Htext. change (jsstring_eqb (str "text") (str "text")) with true.
  cbn [negb]. cbv iota. rewrite Hpath, Hfile. cbv beta iota zeta.
  assert (E0 : utf8_decode (utf8_encode (JSON_stringify_indent2 (JArr entries)))
               = JSON_stringify_indent2 (JArr entries))
    by (apply utf8_serialize; exact Hvalid).
  rewrite !E0.
  pose proof (serialize_nonempty 2 0 (JArr entries)) as Hne.
  fold (JSON_stringify_indent2 (JArr entries)) in Hne.
  destruct (JSON_stringify_indent2 (JArr entries)) as [|c body] eqn:E; [contradiction|].
  rewrite <- E, JSON_parse_stringify_indent2, Ht.
  destruct (truthy_bool (enable_log_security t)); [|reflexivity].
  now destruct (map_result (decryptLogData ctx) entries).
Qed.

End FileSink.

(* ================================================================== *)
(** * Part III. The properties of the specification                    *)
(* ================================================================== *)

(** ** Encryption of records *)

Section RecordEncryption.

Lemma hex_digit_below (n : N) : n < 16 -> hex_digit n < 65536.
Proof. intros H. pose proof (hex_digit_ascii H). lia. Qed.

Lemma hex_encode_valid (bs : buffer) : valid_units (hex_encode bs) = true.
Proof.
  induction bs as [|b bs IH]; [reflexivity|].
  cbn [hex_encode flat_map app valid_units forallb].
  fold (hex_encode bs). fold (valid_units (hex_encode bs)). rewrite IH.
  assert (H1 : Byte.to_N b / 16 < 16 /\ Byte.to_N b mod 16 < 16).
  { pose proof (to_N_below_256 b). divmod (Byte.to_N b) 16 q r. lia. }
  destruct H1 as [H1 H2].
  apply hex_digit_below in H1, H2. apply N.ltb_lt in H1, H2.
  now rewrite H1, H2.
Qed.

(** Under a usable context every serializable record is written as a valid
    entry. *)
Lemma entry_of_serializable (ctx : Context) (r : LogRecord) :
  usable_context ctx = true -> serializable r = true ->
  encryptLogData ctx (log_object r) = Ok (entry_of ctx r)
  /\ valid_json (entry_of ctx r) = true.
Proof.
  unfold usable_context, entry_of. intros Hu Hs.
  destruct (enableTextEncryption ctx) eqn:He.
  - destruct (encryptionKey ctx) as [key|] eqn:Hk; [|discriminate].
    rewrite (encryptLogData_usable ctx (log_object r) He Hk Hu).
    split; [reflexivity|]. cbn [valid_json]. apply hex_encode_valid.
  - unfold encryptLogData. rewrite He. cbn [negb]. now split.
Qed.

(** Decrypting the entries of serializable records gives their objects. *)
Lemma decrypt_entries (ctx : Context) (key : jsstring) (rs : list LogRecord) :
  enableTextEncryption ctx = true -> encryptionKey ctx = Some key ->
  usable_key key = true -> forallb serializable rs = true ->
  map_result (decryptLogData ctx) (map (entry_of ctx) rs) = Ok (map log_object rs).
Proof.
  intros He Hk Hu. induction rs as [|r rs IH]; intros Hs; [reflexivity|].
  cbn [forallb] in Hs. apply andb_prop in Hs. destruct Hs as [Hr Hs].
  cbn [map map_result]. unfold entry_of at 1.
  rewrite (encryptLogData_usable ctx (log_object r) He Hk Hu).
  rewrite (decryptLogData_ciphertext ctx (log_object r) Hk Hu Hr).
  cbn [bind_result]. now rewrite IH.
Qed.

End RecordEncryption.

(** C1 (amended).  For every key whose UTF-8 encoding is exactly 32 bytes and
    whose first 16 characters are ASCII (a usable key; every key of 32 ASCII
    characters is one) and every serializable record [r], decrypting the
    result of encrypting [r] with the same key returns a record equal to
    [r]. *)
Theorem decrypt_encrypt (ctx : Context) (key : jsstring) (r : LogRecord) :
  enableTextEncryption ctx = true -> encryptionKey ctx = Some key ->
  usable_key key = true -> serializable r = true ->
  bind_result (encryptLogData ctx (log_object r)) (decryptLogData ctx)
  = Ok (log_object r).
Proof.
  intros He Hk Hu Hs.
  rewrite (encryptLogData_usable ctx (log_object r) He Hk Hu). cbn [bind_result].
  now apply decryptLogData_ciphertext.
Qed.

Lemma decrypt_encrypt_witness :
  load (text_config true (Some sample_key)) = Ok (secure_context sample_key)
  /\ usable_key sample_key = true
  /\ serializable sample_record = true
  /\ bind_result (encryptLogData (secure_context sample_key) (log_object sample_record))
                 (decryptLogData (secure_context sample_key))
     = Ok (log_object sample_record).
Proof.
  split; [reflexivity|]. split; [reflexivity|]. split; [reflexivity|].
  apply (@decrypt_encrypt (secure_context sample_key) sample_key sample_record);
    reflexivity.
Defined.

(** C1 as stated fails: [accented_key] is exactly 32 bytes long, it is
    accepted when the module is loaded, and encrypting a serializable record
    under it throws, because the 16 characters taken for the initialization
    vector make 32 bytes. *)
Lemma decrypt_encrypt_accented_key :
  load (text_config true (Some accented_key)) = Ok (secure_context accented_key)
  /\ length (utf8_encode accented_key) = 32%nat
  /\ serializable sample_record = true
  /\ bind_result (encryptLogData (secure_context accented_key) (log_object sample_record))
                 (decryptLogData (secure_context accented_key))
     = Throw InvalidIV.
Proof. repeat split; vm_compute; reflexivity. Qed.



(** ** Validation of the key *)

(** C3 (amended).  Loading the module with encryption enabled checks only
    that a key is configured: it fails when the key is missing or empty, and
    succeeds with any other key, whatever its length.  A key whose UTF-8
    encoding is not 32 bytes long is refused each time a record is encrypted:
    the cipher constructor throws, the logger reports the error, and the log
    file is left as it was.  Under a usable key (32 bytes, the first 16
    characters ASCII) every record is encrypted. *)
Theorem key_checked_when_encrypting (cfg : Config) (t : TextConfig) :
  database_type cfg = Some (str "text") -> text cfg = Some t ->
  truthy_string (file_path t) = true -> enable_log_security t = Some true ->
  (truthy_string (log_security_encryption_key t) = false ->
   load cfg = Throw (Err (str "Encryption key is not set in the configuration file")))
  /\ (forall key,
        log_security_encryption_key t = Some key -> key <> [] ->
        exists ctx,
          load cfg = Ok ctx
          /\ dbType ctx = str "text"
          /\ enableTextEncryption ctx = true /\ encryptionKey ctx = Some key
          /\ (length (utf8_encode key) <> 32%nat ->
              forall r w,
                (encryptLogData ctx (log_object r) = Throw InvalidIV
                 \/ encryptLogData ctx (log_object r) = Throw InvalidKeyLength)
                /\ fst (store ctx r w) = Ok tt
                /\ files (snd (store ctx r w)) = files w
                /\ length (console (snd (store ctx r w))) = S (length (console w)))
          /\ (usable_key key = true ->
              forall r, encryptLogData ctx (log_object r)
                        = Ok (JStr (hex_encode (ciphertext key (log_object r)))))).
Proof.
  intros Hdb Ht Hp He.
  assert (Hload : forall k,
             log_security_encryption_key t = k ->
             load cfg
             = if negb (truthy_string k)
               then Throw (Err (str "Encryption key is not set in the configuration file"))
               else Ok {| config := cfg; dbType := str "text";
                          logFilePath := Some (path_resolve (or_default (file_path t) []));
                          enableTextEncryption := true; encryptionKey := k |}).
  { intros k Hk. unfold load. rewrite Hdb.
    change (truthy_string (Some (str "text"))) with true.
    change (or_default (Some (str "text")) []) with (str "text").
    change (jsstring_eqb (str "text") (str "text")) with true.
    cbn [negb]. cbv iota. rewrite Ht, Hp, He, Hk. reflexivity. }
  split.
  - intros Hk. rewrite (Hload _ eq_refl), Hk. reflexivity.
  - intros key Hk Hne. rewrite (Hload _ Hk).
    destruct key as [|c key]; [contradiction|]. cbn [truthy_string negb].
    eexists. split; [reflexivity|]. cbn [dbType enableTextEncryption encryptionKey].
    refine (conj eq_refl (conj eq_refl (conj eq_refl (conj _ _)))).
    + intros Hlen r w.
      set (ctx := {| config := cfg; dbType := str "text";
                     logFilePath := Some (path_resolve (or_default (file_path t) []));
                     enableTextEncryption := true; encryptionKey := Some (c :: key) |}).
      assert (Henc : encryptLogData ctx (log_object r) = Throw InvalidIV
                     \/ encryptLogData ctx (log_object r) = Throw InvalidKeyLength).
      { unfold encryptLogData, createCipheriv. cbn [ctx enableTextEncryption encryptionKey negb].
        destruct (length (utf8_encode (slice (c :: key) 0 16)) =? 16)%nat;
          [|left; reflexivity].
        destruct (length (utf8_encode (c :: key)) =? 32)%nat eqn:E;
          [apply Nat.eqb_eq in E; contradiction|right; reflexivity]. }
      split; [exact Henc|].
      cbv [store try_catch write_log bind lift ret throw console_error].
      change (dbType ctx) with (str "text").
      change (jsstring_eqb (str "text") (str "text")) with true. cbv iota.
      destruct Henc as [-> | ->]; cbn [fst snd files console set_console];
        rewrite length_app; cbn [length]; repeat split; lia.
    + intros Hu r. now apply encryptLogData_usable.
Qed.

Lemma key_checked_when_encrypting_witness :
  usable_key sample_key = true
  /\ exists ctx,
       load (text_config true (Some sample_key)) = Ok ctx
       /\ forall r, encryptLogData ctx (log_object r)
                    = Ok (JStr (hex_encode (ciphertext sample_key (log_object r)))).
Proof.
  split; [reflexivity|].
  destruct (@key_checked_when_encrypting (text_config true (Some sample_key))
              {| file_path := Some log_path; enable_log_security := Some true;
                 log_security_encryption_key := Some sample_key |}
              eq_refl eq_refl eq_refl eq_refl) as [_ H].
  destruct (H sample_key eq_refl ltac:(discriminate)) as (ctx & Hl & _ & _ & _ & _ & Hu).
  exists ctx. split; [exact Hl|]. apply Hu. reflexivity.
Defined.

(** C3 as stated fails: with encryption enabled, the module loads with a
    key of 31 bytes and with one of 33 bytes.  The keys are refused when a
    record is written, and the failure is reported, not thrown. *)
Lemma load_accepts_short_key :
  length (utf8_encode short_key) = 31%nat
  /\ load (text_config true (Some short_key)) = Ok (secure_context short_key)
  /\ length (utf8_encode long_key) = 33%nat
  /\ load (text_config true (Some long_key)) = Ok (secure_context long_key)
  /\ encryptLogData (secure_context short_key) (log_object sample_record)
     = Throw InvalidKeyLength
  /\ store (secure_context short_key) sample_record empty_world
     = (Ok tt, set_console empty_world [(str "Error logging data:", InvalidKeyLength)]).
Proof. repeat split; vm_compute; reflexivity. Qed.

(** ** The log file *)

(** C2 (amended).  Starting from a log file that is absent or empty and can
    be written, after the sequential writes of [n >= 1] serializable records
    [r1..rn] (with encryption off, or on under a usable key) [readTextLogs]
    returns exactly [n] records, equal to [r1..rn] in write order; no write
    reported an error. *)
Theorem writes_then_read
        (cfg : Config) (ctx : Context) (path : jsstring)
        (rs : list LogRecord) (w : World) :
  load cfg = Ok ctx -> database_type cfg = Some (str "text") ->
  logFilePath ctx = Some path -> usable_context ctx = true ->
  rs <> [] -> forallb serializable rs = true ->
  files w path = None \/ files w path = Some [] -> write_error w path = None ->
  exists records,
    readTextLogs ctx (after_writes ctx rs w) = (Ok (JArr records), after_writes ctx rs w)
    /\ records = map log_object rs
    /\ length records = length rs
    /\ console (after_writes ctx rs w) = console w.
Proof.
  intros Hload Hdb Hpath Hu Hne Hs Hfile Hw.
  destruct (load_text cfg Hload Hdb) as (t & path' & Ht & Hcfg & Htext & _ & He & Hk).
  assert (Hentries : Forall (fun r => encryptLogData ctx (log_object r) = Ok (entry_of ctx r)
                                      /\ valid_json (entry_of ctx r) = true) rs).
  { apply Forall_forall. intros r Hr. apply entry_of_serializable; [assumption|].
    rewrite forallb_forall in Hs. now apply Hs. }
  assert (Hvalid : forallb valid_json (map (entry_of ctx) rs) = true).
  { apply forallb_forall. intros e He'. apply in_map_iff in He'.
    destruct He' as (r & <- & Hr). rewrite Forall_forall in Hentries.
    now apply Hentries. }
  destruct rs as [|r rs]; [contradiction|].
  destruct (@after_writes_fresh ctx path Htext Hpath r rs w Hentries Hfile Hw)
    as [Hstored Hconsole].
  exists (map log_object (r :: rs)).
  rewrite <- Hcfg in Ht.
  rewrite (@read_stored ctx path Htext Hpath _ _ t Ht Hstored Hvalid).
  rewrite <- He.
  refine (conj _ (conj eq_refl (conj (length_map _ _) Hconsole))).
  unfold usable_context in Hu.
  destruct (enableTextEncryption ctx) eqn:Hen.
  - destruct (encryptionKey ctx) as [key|] eqn:Hkey; [|discriminate].
    now rewrite (decrypt_entries ctx (r :: rs) Hen Hkey Hu Hs).
  - do 3 f_equal. apply map_ext_in. intros r' _.
    unfold entry_of, encryptLogData. now rewrite Hen.
Qed.

Lemma writes_then_read_witness :
  exists records,
    readTextLogs (secure_context sample_key)
      (after_writes (secure_context sample_key) [sample_record; other_record] empty_world)
    = (Ok (JArr records),
       after_writes (secure_context sample_key) [sample_record; other_record] empty_world)
    /\ records = [log_object sample_record; log_object other_record].
Proof.
  destruct (@writes_then_read (text_config true (Some sample_key))
              (secure_context sample_key) log_path [sample_record; other_record]
              empty_world eq_refl eq_refl eq_refl eq_refl
              ltac:(discriminate) eq_refl (or_introl eq_refl) eq_refl)
    as (records & Hread & Hrecords & _).
  exists records. split; [exact Hread|exact Hrecords].
Defined.

(** C2 as stated fails for [n = 0]: when nothing was written, [readTextLogs]
    does not return an empty sequence, it throws (the log file is absent, or
    empty). *)
Lemma read_after_no_write :
  load (text_config false None) = Ok plain_context
  /\ readTextLogs plain_context (after_writes plain_context [] empty_world)
     = (Throw (SystemError (str "ENOENT")), empty_world)
  /\ readTextLogs plain_context (after_writes plain_context [] empty_file_world)
     = (Throw EmptyLogError, empty_file_world).
Proof. repeat split. Qed.

(** C6 (amended).  With the text backend active, [readTextLogs] fails with
    the empty-log error when the log file exists and is zero-length; when the
    file is absent it fails too, but with the file system's own error
    (ENOENT), raised by the read itself. *)
Theorem read_empty_or_absent (ctx : Context) (path : jsstring) (w : World) :
  dbType ctx = str "text" -> logFilePath ctx = Some path ->
  (files w path = Some [] -> readTextLogs ctx w = (Throw EmptyLogError, w))
  /\ (files w path = None ->
      readTextLogs ctx w = (Throw (SystemError (str "ENOENT")), w)).
Proof.
  intros Htext Hpath.
  split; intros Hfile;
    cbv [readTextLogs bind lift ret throw fs_readFileSync];
    rewrite Htext; change (jsstring_eqb (str "text") (str "text")) with true;
    cbn [negb]; cbv iota; rewrite Hpath, Hfile; reflexivity.
Qed.

Lemma read_empty_or_absent_witness :
  readTextLogs plain_context empty_file_world = (Throw EmptyLogError, empty_file_world)
  /\ readTextLogs plain_context empty_world
     = (Throw (SystemError (str "ENOENT")), empty_world).
Proof.
  split.
  - apply (@read_empty_or_absent plain_context log_path empty_file_world);
      reflexivity.
  - apply (@read_empty_or_absent plain_context log_path empty_world); reflexivity.
Defined.

(** C6 as stated fails: when the log file is absent the error is not the
    empty-log error. *)
Lemma read_absent_file :
  files empty_world log_path = None
  /\ fst (readTextLogs plain_context empty_world) = Throw (SystemError (str "ENOENT"))
  /\ SystemError (str "ENOENT") <> EmptyLogError.
Proof. repeat split. discriminate. Qed.

(** C7.  When the active backend is not the text backend, [readTextLogs]
    fails with the unsupported-operation error, whatever the state; it
    returns records only when the text backend is active. *)
Theorem read_other_backend (ctx : Context) (w : World) :
  dbType ctx <> str "text" ->
  readTextLogs ctx w = (Throw UnsupportedOperationError, w).
Proof.
  intros H. unfold readTextLogs.
  destruct (jsstring_eqb (dbType ctx) (str "text")) eqn:E.
  - apply jsstring_eqb_eq in E. contradiction.
  - reflexivity.
Qed.

Lemma read_other_backend_witness :
  load sql_config = Ok sql_context
  /\ readTextLogs sql_context empty_world = (Throw UnsupportedOperationError, empty_world).
Proof.
  split; [reflexivity|].
  apply (@read_other_backend sql_context empty_world). discriminate.
Defined.

(** ** Failures of the write *)

Section WriteFailure.

Lemma make_log_returns (start : HrTime) (req : Request) (res : Response) (w : World) :
  exists r, make_log start req res w = (Ok r, w).
Proof.
  eexists.
  cbv [make_log bind ret process_hrtime_since process_memoryUsage os_cpus
       date_toISOString].
  reflexivity.
Qed.

(** The write touches neither the console nor the responses. *)
Lemma write_log_frame (ctx : Context) (r : LogRecord) (w : World) :
  console (snd (write_log ctx r w)) = console w
  /\ sent (snd (write_log ctx r w)) = sent w.
Proof.
  cbv [write_log bind lift ret throw fs_existsSync fs_readFileSync fs_writeFileSync
       db_insert].
  repeat (match goal with
    | |- context [match ?x with _ => _ end] =>
        lazymatch x with
        | context [match _ with _ => _ end] => fail
        | _ => destruct x
        end
    end; cbv beta iota zeta); split; reflexivity.
Qed.

End WriteFailure.

(** C5.  When the write of a request's record fails, whatever the backend,
    the listener catches the error and reports it on the console: the
    listener returns normally (nothing propagates, the process goes on), and
    the responses already sent are as they were. *)
Theorem write_failure_is_contained
        (ctx : Context) (start : HrTime) (req : Request) (res : Response)
        (w : World) (r : LogRecord) (e : JsError) :
  make_log start req res w = (Ok r, w) ->
  fst (write_log ctx r w) = Throw e ->
  fst (on_finish ctx start req res w) = Ok tt
  /\ console (snd (on_finish ctx start req res w))
     = console w ++ [(str "Error logging data:", e)]
  /\ sent (snd (on_finish ctx start req res w)) = sent w.
Proof.
  intros Hlog Hfail.
  destruct (write_log_frame ctx r w) as [Hc Hs].
  unfold on_finish, bind. rewrite Hlog. unfold store, try_catch.
  destruct (write_log ctx r w) as [[a|e'] w']; cbn [fst snd] in *; [discriminate|].
  injection Hfail as ->.
  unfold console_error. cbn [fst snd console sent set_console].
  now rewrite Hc, Hs.
Qed.

Lemma write_failure_is_contained_witness :
  exists r,
    make_log sample_start sample_request sample_response faulty_world = (Ok r, faulty_world)
    /\ fst (on_finish sql_context sample_start sample_request sample_response faulty_world)
       = Ok tt
    /\ console (snd (on_finish sql_context sample_start sample_request sample_response
                       faulty_world))
       = [(str "Error logging data:", ClientError (str "connection terminated"))].
Proof.
  destruct (make_log_returns sample_start sample_request sample_response faulty_world)
    as [r Hr].
  exists r. split; [exact Hr|].
  assert (Hfail : fst (write_log sql_context r faulty_world)
                  = Throw (ClientError (str "connection terminated")))
    by reflexivity.
  destruct (@write_failure_is_contained sql_context sample_start sample_request
              sample_response faulty_world r _ Hr Hfail) as (H1 & H2 & _).
  split; [exact H1|exact H2].
Defined.

(** ** Metrics *)

Section Metrics.

Lemma fold_left_sum_ticks (f : CpuTimes -> N) (cpus : list CpuTimes) (a : N) :
  fold_left (fun acc cpu => acc + f cpu) cpus a = a + sum_ticks f cpus.
Proof.
  revert a. induction cpus as [|cpu cpus IH]; intros a; cbn [fold_left sum_ticks fold_right].
  - lia.
  - rewrite IH. fold (sum_ticks f cpus). lia.
Qed.

(** [getCpuUsage] in terms of the sums over the cores. *)
Lemma getCpuUsage_sums (cpus : list CpuTimes) :
  let t := sum_ticks t_user cpus + sum_ticks t_nice cpus + sum_ticks t_sys cpus
           + sum_ticks t_idle cpus + sum_ticks t_irq cpus in
  let percent u :=
    toFixed 2 (js_mul (js_div (number_of_N u) (number_of_N t)) (number_of_N 100)) in
  getCpuUsage cpus
  = {| user := percent (sum_ticks t_user cpus);
       system := percent (sum_ticks t_sys cpus);
       idle := percent (sum_ticks t_idle cpus);
       total := t |}.
Proof.
  unfold getCpuUsage. rewrite !fold_left_sum_ticks, !N.add_0_l. reflexivity.
Qed.

Lemma rounds_to_div (num den : N) :
  0 < den -> rounds_to ((2 * num + den) / (2 * den)) num den.
Proof.
  intros H. unfold rounds_to.
  pose proof (N.div_mod' (2 * num + den) (2 * den)) as E.
  assert (R : (2 * num + den) mod (2 * den) < 2 * den) by (apply N.mod_lt; lia).
  set (q := (2 * num + den) / (2 * den)) in *.
  set (r := (2 * num + den) mod (2 * den)) in *. clearbody q r.
  split; nia.
Qed.

(** A published percentage: a numeral with two decimals, the hundredths
    nearest to the exact percentage, at most 100. *)
Lemma percent_in_range (u t : N) :
  0 < t -> u <= t ->
  exists p,
    toFixed 2 (js_mul (js_div (number_of_N u) (number_of_N t)) (number_of_N 100))
    = fixed_notation 2 p
    /\ fixed_value (fixed_notation 2 p) = Some (p, 2%nat)
    /\ rounds_to p (10000 * u) t
    /\ p <= 10000.
Proof.
  intros Ht Hu. exists ((2 * (10000 * u) + t) / (2 * t)).
  pose proof (@rounds_to_div (10000 * u) t Ht) as Hr.
  repeat split.
  - rewrite percent_toFixed by assumption. f_equal. f_equal. lia.
  - apply fixed_value_fixed_notation.
  - apply Hr.
  - apply Hr.
  - destruct Hr as [Hr _].
    set (p := (2 * (10000 * u) + t) / (2 * t)) in *. clearbody p.
    destruct (N.le_gt_cases p 10000) as [H|H]; [exact H|].
    assert (H' : 10001 <= p) by lia.
    pose proof (N.mul_le_mono_l _ _ (2 * t) H'). nia.
Qed.

Lemma zero_total_NaN (u : N) :
  toFixed 2 (js_mul (js_div (number_of_N u) (number_of_N 0)) (number_of_N 100))
  = str "NaN" \/ u <> 0.
Proof. destruct u; [left; reflexivity|right; discriminate]. Qed.

Lemma sum_no_ticks (f : CpuTimes -> N) (cpus : list CpuTimes) :
  Forall (fun cpu => f cpu = 0) cpus -> sum_ticks f cpus = 0.
Proof.
  induction 1 as [|cpu cpus H _ IH]; [reflexivity|].
  cbn [sum_ticks fold_right]. fold (sum_ticks f cpus). lia.
Qed.

End Metrics.




(** C10.  The divisions of [getCpuUsage] are not guarded: on a snapshot in
    which every counter of every core is zero it returns normally, with the
    string NaN (no numeral) as [user], [system] and [idle] and a zero
    [total].  A published percentage is a numeral in range exactly when the
    raw tick total is positive. *)
Theorem cpu_usage_zero_total (cpus : list CpuTimes) :
  Forall no_ticks cpus ->
  getCpuUsage cpus
  = {| user := str "NaN"; system := str "NaN"; idle := str "NaN"; total := 0 |}
  /\ fixed_value (str "NaN") = None
  /\ forall snapshot,
       0 < total (getCpuUsage snapshot)
       <-> exists p, fixed_value (user (getCpuUsage snapshot)) = Some (p, 2%nat)
                     /\ p <= 10000.
Proof.
  intros Hz. split; [|split; [reflexivity|]].
  - rewrite getCpuUsage_sums. cbv zeta.
    rewrite !sum_no_ticks; [reflexivity|..];
      (eapply Forall_impl; [|exact Hz]); unfold no_ticks; intros cpu H; tauto.
  - intros snapshot. split.
    + intros Ht.
      pose proof (getCpuUsage_sums snapshot) as E. cbv zeta in E.
      rewrite E in Ht |- *. cbn [total user] in Ht |- *.
      destruct (@percent_in_range (sum_ticks t_user snapshot) _ Ht ltac:(lia))
        as (p & Ep & Vp & _ & Bp).
      exists p. rewrite Ep. now split.
    + intros (p & Hp & _).
      destruct (N.eq_0_gt_0_cases (total (getCpuUsage snapshot))) as [E0|Hpos];
        [|exact Hpos].
      pose proof (getCpuUsage_sums snapshot) as E. cbv zeta in E.
      rewrite E in E0, Hp. cbn [total user] in E0, Hp. rewrite E0 in Hp.
      assert (Hu : sum_ticks t_user snapshot = 0) by lia.
      rewrite Hu in Hp. discriminate.
Qed.

Lemma cpu_usage_zero_total_witness :
  getCpuUsage [{| t_user := 0; t_nice := 0; t_sys := 0; t_idle := 0; t_irq := 0 |};
               {| t_user := 0; t_nice := 0; t_sys := 0; t_idle := 0; t_irq := 0 |}]
  = {| user := str "NaN"; system := str "NaN"; idle := str "NaN"; total := 0 |}.
Proof.
  apply (@cpu_usage_zero_total
           [{| t_user := 0; t_nice := 0; t_sys := 0; t_idle := 0; t_irq := 0 |};
            {| t_user := 0; t_nice := 0; t_sys := 0; t_idle := 0; t_irq := 0 |}]).
  repeat constructor.
Defined.



(* ------------------------------------------------------------------ *)
(** ** The examples about numbers, in binary64                         *)
(* ------------------------------------------------------------------ *)

(** The snapshot whose published percentages exceed 100 in sum gives the
    same three strings when every operation is rounded to binary64. *)
Lemma binary64_thirds :
  getCpuUsage_binary64 [{| t_user := 33336; t_nice := 0; t_sys := 33336; t_idle := 33328;
                           t_irq := 0 |}]
  = {| user := str "33.34"; system := str "33.34"; idle := str "33.33"; total := 100000 |}.
Proof. vm_compute. reflexivity. Qed.

(** Two cores with 25 user ticks of 100 each: both arithmetics agree. *)
Lemma binary64_quarters :
  getCpuUsage_binary64
    [{| t_user := 25; t_nice := 5; t_sys := 10; t_idle := 50; t_irq := 10 |};
     {| t_user := 25; t_nice := 5; t_sys := 10; t_idle := 50; t_irq := 10 |}]
  = getCpuUsage
      [{| t_user := 25; t_nice := 5; t_sys := 10; t_idle := 50; t_irq := 10 |};
       {| t_user := 25; t_nice := 5; t_sys := 10; t_idle := 50; t_irq := 10 |}].
Proof. vm_compute. reflexivity. Qed.

(** Zero divided by zero is NaN in binary64 as well. *)
Lemma binary64_no_ticks :
  getCpuUsage_binary64
    [{| t_user := 0; t_nice := 0; t_sys := 0; t_idle := 0; t_irq := 0 |};
     {| t_user := 0; t_nice := 0; t_sys := 0; t_idle := 0; t_irq := 0 |}]
  = {| user := str "NaN"; system := str "NaN"; idle := str "NaN"; total := 0 |}.
Proof. vm_compute. reflexivity. Qed.

(** The response time of the sample request, with line 148 in binary64. *)
Lemma binary64_elapsed :
  exists elapsed,
    process_hrtime_since sample_start empty_world = (Ok elapsed, empty_world)
    /\ toFixed 3 (number_of_binary64 (elapsedTimeInMs_binary64 elapsed)) = str "42.000".
Proof. eexists. split; [reflexivity|]. vm_compute. reflexivity. Qed.

(* ================================================================== *)
(** * Part IV. Further properties of the code                          *)
(* ================================================================== *)

(** ** The cipher against published examples *)

Section KnownAnswers.
Import Aes.

(** The example of FIPS 197, appendix C.3 (AES-256). *)
Lemma aes256_example_vector :
  hex_encode
    (bytes_of_block
       (encrypt_block
          (key_schedule
             (hex_decode (str "000102030405060708090a0b0c0d0e0f101112131415161718191a1b1c1d1e1f")))
          (hd zero_block
              (fst (split_blocks (hex_decode (str "00112233445566778899aabbccddeeff")))))))
  = str "8ea2b7ca516745bfeafc49904b496089".
Proof. vm_compute. reflexivity. Qed.

(** The first two blocks of the CBC-AES256 example of NIST SP 800-38A,
    F.2.5. *)
Lemma cbc_aes256_example_vector :
  hex_encode
    (join_blocks
       (fst (cbc_encrypt
               (key_schedule
                  (hex_decode
                     (str "603deb1015ca71be2b73aef0857d77811f352c073b6108d72d9810a30914dff4")))
               (hd zero_block
                   (fst (split_blocks (hex_decode (str "000102030405060708090a0b0c0d0e0f")))))
               (fst (split_blocks
                       (hex_decode
                          (str "6bc1bee22e409f96e93d7e117393172aae2d8a571e03ac9c9eb76fac45af8e51")))))))
  = str "f58c4c04d6e5f1ba779eabfb5f7bfbd69cfc4e967edb808d679f777bc6702c7d".
Proof. vm_compute. reflexivity. Qed.

End KnownAnswers.

(** ** Loading and keys *)

Section LoadedContexts.

Lemma or_default_truthy (s : option jsstring) :
  truthy_string s = true -> or_default s [] <> [] /\ s = Some (or_default s []).
Proof. destruct s as [[|c s]|]; try discriminate. intros _. split; [discriminate|reflexivity]. Qed.

End LoadedContexts.

(** X1.  Whatever configuration the module loads with, the variables it
    leaves satisfy: the backend is the configured one, and one of text, sql
    and nosql; a log file path is set exactly for the text backend;
    encryption is on only for the text backend, with a key that is not
    empty, and follows [enable_log_security]; with encryption off no key is
    kept. *)
Theorem load_invariant (cfg : Config) (ctx : Context) :
  load cfg = Ok ctx ->
  config ctx = cfg
  /\ database_type cfg = Some (dbType ctx)
  /\ (dbType ctx = str "text" \/ dbType ctx = str "sql" \/ dbType ctx = str "nosql")
  /\ (dbType ctx = str "text" <-> exists path, path <> [] /\ logFilePath ctx = Some path)
  /\ (enableTextEncryption ctx = true ->
      dbType ctx = str "text"
      /\ (exists t, text cfg = Some t /\ enable_log_security t = Some true)
      /\ exists key, key <> [] /\ encryptionKey ctx = Some key)
  /\ (enableTextEncryption ctx = false ->
      encryptionKey ctx = None
      /\ forall t, dbType ctx = str "text" -> text cfg = Some t ->
                   enable_log_security t <> Some true).
Proof.
  unfold load. intros H.
  destruct (truthy_string (database_type cfg)) eqn:Ht; cbn [negb] in H; [|discriminate].
  destruct (or_default_truthy _ Ht) as [Hne Hd].
  set (ty := or_default (database_type cfg) []) in *.
  destruct (jsstring_eqb ty (str "text")) eqn:Etext.
  - apply jsstring_eqb_eq in Etext.
    destruct (text cfg) as [t|] eqn:Hcfg; [|discriminate].
    destruct (truthy_string (file_path t)) eqn:Hp; [|discriminate].
    destruct (or_default_truthy _ Hp) as [Hpne _].
    cbn [bind_result] in H. unfold path_resolve in H.
    destruct (truthy_bool (enable_log_security t)) eqn:Hs.
    + destruct (truthy_string (log_security_encryption_key t)) eqn:Hk;
        cbn [negb] in H; [|discriminate].
      injection H as <-. cbn [config dbType logFilePath enableTextEncryption encryptionKey].
      destruct (or_default_truthy _ Hk) as [Hkne Hkd].
      repeat split; try assumption; try discriminate; auto.
      * intros _. eexists. split; [exact Hpne|reflexivity].
      * exists t. split; [reflexivity|].
        destruct (enable_log_security t) as [[|]|]; try discriminate. reflexivity.
      * eexists. split; [exact Hkne|exact Hkd].
    + injection H as <-. cbn [config dbType logFilePath enableTextEncryption encryptionKey].
      repeat split; try assumption; try discriminate; auto.
      * intros _. eexists. split; [exact Hpne|reflexivity].
      * intros t' _ E. injection E as <-. intros E. rewrite E in Hs. discriminate.
  - assert (Hnt : ty <> str "text").
    { intros E. apply jsstring_eqb_eq in E. congruence. }
    destruct (jsstring_eqb ty (str "sql")) eqn:Esql.
    + apply jsstring_eqb_eq in Esql.
      destruct (sql cfg) as [d|]; [|discriminate].
      destruct (truthy_string (connectionString d)); [|discriminate].
      cbn [bind_result] in H.
      injection H as <-. cbn [config dbType logFilePath enableTextEncryption encryptionKey].
      repeat split; try assumption; try discriminate; auto;
        try (intros; contradiction); try (intros (p & _ & E); discriminate).
    + destruct (jsstring_eqb ty (str "nosql")) eqn:Enosql; [|discriminate].
      apply jsstring_eqb_eq in Enosql.
      destruct (nosql cfg) as [d|]; [|discriminate].
      destruct (truthy_string (connectionString d)); [|discriminate].
      cbn [bind_result] in H.
      injection H as <-. cbn [config dbType logFilePath enableTextEncryption encryptionKey].
      repeat split; try assumption; try discriminate; auto;
        try (intros; contradiction); try (intros (p & _ & E); discriminate).
Qed.

Lemma load_invariant_witness :
  load (text_config true (Some sample_key)) = Ok (secure_context sample_key)
  /\ dbType (secure_context sample_key) = str "text".
Proof.
  assert (H : load (text_config true (Some sample_key)) = Ok (secure_context sample_key))
    by reflexivity.
  split; [exact H|].
  destruct (load_invariant _ H) as (_ & _ & _ & _ & He & _).
  exact (proj1 (He eq_refl)).
Defined.

(** X2.  [enable_log_security] only counts for the text backend: a
    configuration for sql or nosql with a connection string loads whatever
    its [text] section says, with encryption off and no key, and
    [encryptLogData] then returns every record as it is. *)
Theorem security_needs_text (cfg : Config) (d : DbConfig) :
  (database_type cfg = Some (str "sql") /\ sql cfg = Some d)
  \/ (database_type cfg = Some (str "nosql") /\ nosql cfg = Some d) ->
  truthy_string (connectionString d) = true ->
  exists ctx,
    load cfg = Ok ctx
    /\ enableTextEncryption ctx = false /\ encryptionKey ctx = None
    /\ logFilePath ctx = None
    /\ forall log, encryptLogData ctx log = Ok log.
Proof.
  intros [[Hty Hd]|[Hty Hd]] Hc; unfold load; rewrite Hty; cbn [truthy_string str negb];
    cbv beta iota zeta.
  - change (jsstring_eqb (or_default (Some (str "sql")) []) (str "text")) with false.
    change (jsstring_eqb (or_default (Some (str "sql")) []) (str "sql")) with true.
    cbv beta iota. rewrite Hd, Hc. cbn [bind_result].
    eexists. split; [reflexivity|]. repeat split.
  - change (jsstring_eqb (or_default (Some (str "nosql")) []) (str "text")) with false.
    change (jsstring_eqb (or_default (Some (str "nosql")) []) (str "sql")) with false.
    change (jsstring_eqb (or_default (Some (str "nosql")) []) (str "nosql")) with true.
    cbv beta iota. rewrite Hd, Hc. cbn [bind_result].
    eexists. split; [reflexivity|]. repeat split.
Qed.

Lemma security_needs_text_witness :
  exists ctx,
    load {| database_type := Some (str "sql");
            text := Some {| file_path := None; enable_log_security := Some true;
                            log_security_encryption_key := None |};
            sql := Some {| connectionString := Some (str "postgres://localhost/logs");
                           collectionName := None |};
            nosql := None |} = Ok ctx
    /\ enableTextEncryption ctx = false.
Proof.
  destruct (@security_needs_text
              {| database_type := Some (str "sql");
                 text := Some {| file_path := None; enable_log_security := Some true;
                                 log_security_encryption_key := None |};
                 sql := Some {| connectionString := Some (str "postgres://localhost/logs");
                                collectionName := None |};
                 nosql := None |}
              {| connectionString := Some (str "postgres://localhost/logs");
                 collectionName := None |}
              (or_introl (conj eq_refl eq_refl)) eq_refl)
    as (ctx & Hl & He & _).
  exists ctx. split; assumption.
Defined.

Section KeyLengths.


End KeyLengths.



(** X4.  With encryption on, [encryptLogData] returns a ciphertext exactly
    when the key is usable.  Otherwise it throws, whatever the record: an
    initialization vector error when the first 16 characters of the key do
    not make 16 bytes, a key length error when they do and the key is not 32
    bytes long. *)
Theorem encrypts_iff_usable_key (ctx : Context) (key : jsstring) (log : json) :
  enableTextEncryption ctx = true -> encryptionKey ctx = Some key ->
  ((exists c, encryptLogData ctx log = Ok c) <-> usable_key key = true)
  /\ (length (utf8_encode (slice key 0 16)) <> 16%nat ->
      encryptLogData ctx log = Throw InvalidIV)
  /\ (length (utf8_encode (slice key 0 16)) = 16%nat ->
      length (utf8_encode key) <> 32%nat ->
      encryptLogData ctx log = Throw InvalidKeyLength).
Proof.
  intros He Hk.
  assert (Hiv : length (utf8_encode (slice key 0 16)) <> 16%nat ->
                encryptLogData ctx log = Throw InvalidIV).
  { intros H. unfold encryptLogData, createCipheriv. rewrite He, Hk. cbn [negb].
    apply Nat.eqb_neq in H. rewrite H. reflexivity. }
  assert (Hlen : length (utf8_encode (slice key 0 16)) = 16%nat ->
                 length (utf8_encode key) <> 32%nat ->
                 encryptLogData ctx log = Throw InvalidKeyLength).
  { intros H16 H32. unfold encryptLogData, createCipheriv. rewrite He, Hk. cbn [negb].
    apply Nat.eqb_neq in H32. rewrite H16, H32. reflexivity. }
  split; [|split; assumption].
  split.
  - intros [c Hc].
    destruct (Nat.eq_dec (length (utf8_encode (slice key 0 16))) 16) as [H16|H16];
      [|rewrite (Hiv H16) in Hc; discriminate].
    destruct (Nat.eq_dec (length (utf8_encode key)) 32) as [H32|H32];
      [|rewrite (Hlen H16 H32) in Hc; discriminate].
    now apply iv_usable_key.
  - intros Hu. eexists. exact (@encryptLogData_usable ctx key log He Hk Hu).
Qed.

Lemma encrypts_iff_usable_key_witness :
  encryptLogData (secure_context short_key) (log_object sample_record)
  = Throw InvalidKeyLength.
Proof.
  apply (proj2 (proj2 (@encrypts_iff_usable_key (secure_context short_key) short_key
                         (log_object sample_record) eq_refl eq_refl)));
    [vm_compute; reflexivity|vm_compute; discriminate].
Defined.

(** ** Ciphertexts *)

Section CiphertextShape.
Import Aes.

Lemma length_hex_encode (bs : buffer) : length (hex_encode bs) = (2 * length bs)%nat.
Proof.
  induction bs as [|b bs IH]; [reflexivity|].
  change (hex_encode (b :: bs))
    with (hex_digit (Byte.to_N b / 16) :: hex_digit (Byte.to_N b mod 16) :: hex_encode bs).
  cbn [length]. lia.
Qed.

Lemma hex_digit_is_hex_digit (n : N) : n < 16 -> is_hex_digit (hex_digit n) = true.
Proof.
  intros H. unfold hex_digit, is_hex_digit.
  destruct (N.ltb_spec n 10); n_decide; reflexivity.
Qed.

Lemma hex_encode_digits (bs : buffer) : forallb is_hex_digit (hex_encode bs) = true.
Proof.
  induction bs as [|b bs IH]; [reflexivity|].
  change (hex_encode (b :: bs))
    with (hex_digit (Byte.to_N b / 16) :: hex_digit (Byte.to_N b mod 16) :: hex_encode bs).
  pose proof (to_N_below_256 b) as Hb.
  cbn [forallb]. rewrite !hex_digit_is_hex_digit, IH; [reflexivity| |].
  - apply N.mod_lt. discriminate.
  - apply N.Div0.div_lt_upper_bound. exact Hb.
Qed.

Lemma length_cbc_encrypt (ks : schedule) (ps : list block) :
  forall iv, length (fst (cbc_encrypt ks iv ps)) = length ps.
Proof.
  induction ps as [|p ps IH]; intros iv; [reflexivity|].
  cbn [cbc_encrypt]. specialize (IH (encrypt_block ks (xor_block p iv))).
  destruct (cbc_encrypt ks (encrypt_block ks (xor_block p iv)) ps). cbn [fst length] in *.
  now rewrite IH.
Qed.

Lemma join_blocks_app (a b : list block) :
  join_blocks (a ++ b) = join_blocks a ++ join_blocks b.
Proof. unfold join_blocks. apply flat_map_app. Qed.

(** The blocks of data that starts with whole blocks. *)
Lemma split_blocks_join_app (bs : list block) (rest : buffer) :
  split_blocks (join_blocks bs ++ rest)
  = (bs ++ fst (split_blocks rest), snd (split_blocks rest)).
Proof.
  induction bs as [|b bs IH].
  - cbn [join_blocks flat_map app]. now destruct (split_blocks rest).
  - change (join_blocks (b :: bs)) with (bytes_of_block b ++ join_blocks bs).
    rewrite <- app_assoc, split_blocks_cons, IH. reflexivity.
Qed.

(** The padded data is the whole blocks of the data and one more block. *)
Lemma split_blocks_padded_data (data : buffer) :
  exists pb,
    split_blocks (data ++ padding (length data)) = (fst (split_blocks data) ++ [pb], []).
Proof.
  destruct (split_blocks_spec data) as [E R].
  set (bs := fst (split_blocks data)) in *. set (r := snd (split_blocks data)) in *.
  destruct (@split_blocks_padded r R) as (pb & Hs & _).
  exists pb.
  rewrite E at 2. rewrite length_app, length_join_blocks, padding_mod.
  rewrite E at 1. rewrite <- app_assoc, split_blocks_join_app, Hs. reflexivity.
Qed.

Lemma length_ciphertext (key : jsstring) (log : json) :
  length (ciphertext key log)
  = (16 * (length (utf8_encode (JSON_stringify log)) / 16 + 1))%nat.
Proof.
  unfold ciphertext. cbv zeta.
  set (data := utf8_encode (JSON_stringify log)).
  destruct (split_blocks_padded_data data) as (pb & Hs).
  rewrite Hs. cbn [fst]. rewrite length_join_blocks, length_cbc_encrypt, length_app.
  cbn [length].
  destruct (split_blocks_spec data) as [E R].
  assert (Hd : (length data / 16 = length (fst (split_blocks data)))%nat).
  { rewrite E at 1. rewrite length_app, length_join_blocks.
    rewrite Nat.mul_comm, Nat.div_add_l by discriminate.
    rewrite Nat.div_small by exact R. lia. }
  rewrite Hd. lia.
Qed.

(** Data of [16 * k] bytes is [k] whole blocks. *)
Lemma whole_blocks (p : buffer) (k : nat) :
  length p = (16 * k)%nat ->
  p = join_blocks (fst (split_blocks p)) /\ length (fst (split_blocks p)) = k.
Proof.
  intros H. destruct (split_blocks_spec p) as [E R].
  assert (L : length p = (16 * length (fst (split_blocks p))
                          + length (snd (split_blocks p)))%nat).
  { rewrite E at 1. now rewrite length_app, length_join_blocks. }
  assert (Hr : snd (split_blocks p) = []).
  { apply length_zero_iff_nil. lia. }
  rewrite Hr, List.app_nil_r in E. rewrite Hr in L. cbn [length] in L.
  split; [exact E|lia].
Qed.

(** The first [32 * k] digits of a ciphertext are fixed by the key and the
    first [16 * k] bytes of the text. *)
Lemma ciphertext_prefix (key : jsstring) (log : json) (k : nat) :
  (16 * k <= length (utf8_encode (JSON_stringify log)))%nat ->
  firstn (32 * k) (hex_encode (ciphertext key log))
  = hex_encode
      (join_blocks
         (fst (cbc_encrypt (key_schedule (utf8_encode key))
                 (hd zero_block (fst (split_blocks (firstn 16 (utf8_encode key)))))
                 (fst (split_blocks
                         (firstn (16 * k) (utf8_encode (JSON_stringify log)))))))).
Proof.
  intros Hk. unfold ciphertext. cbv zeta.
  set (data := utf8_encode (JSON_stringify log)) in *.
  set (ks := key_schedule (utf8_encode key)).
  set (iv := hd zero_block (fst (split_blocks (firstn 16 (utf8_encode key))))).
  set (p := firstn (16 * k) data).
  assert (Lp : length p = (16 * k)%nat) by (unfold p; now apply firstn_length_le).
  destruct (@whole_blocks p k Lp) as [Ep Lb].
  set (bs := fst (split_blocks p)) in *.
  assert (Ed : data ++ padding (length data)
               = join_blocks bs ++ (skipn (16 * k) data ++ padding (length data))).
  { rewrite <- Ep, app_assoc. unfold p. now rewrite firstn_skipn. }
  rewrite Ed, split_blocks_join_app. cbn [fst].
  rewrite cbc_encrypt_app. cbn [fst].
  rewrite join_blocks_app, hex_encode_app.
  rewrite firstn_app.
  assert (L : length (hex_encode (join_blocks (fst (cbc_encrypt ks iv bs)))) = (32 * k)%nat).
  { rewrite length_hex_encode, length_join_blocks, length_cbc_encrypt. lia. }
  rewrite L, Nat.sub_diag. cbn [firstn]. rewrite List.app_nil_r.
  rewrite <- L. apply firstn_all.
Qed.

End CiphertextShape.

(** X5.  Under a usable key the entry [encryptLogData] returns for a record
    is a string of lower-case hexadecimal digits, 32 for each 16 bytes of
    the record's JSON text in UTF-8 and 32 more: its length tells the length
    of the text up to 16 bytes. *)
Theorem ciphertext_shape (ctx : Context) (key : jsstring) (log : json) :
  enableTextEncryption ctx = true -> encryptionKey ctx = Some key ->
  usable_key key = true ->
  exists h,
    encryptLogData ctx log = Ok (JStr h)
    /\ forallb is_hex_digit h = true
    /\ length h = (32 * (length (utf8_encode (JSON_stringify log)) / 16 + 1))%nat.
Proof.
  intros He Hk Hu. exists (hex_encode (ciphertext key log)).
  split; [exact (@encryptLogData_usable ctx key log He Hk Hu)|].
  split; [apply hex_encode_digits|].
  rewrite length_hex_encode, length_ciphertext. lia.
Qed.

Lemma ciphertext_shape_witness :
  exists h,
    encryptLogData (secure_context sample_key) (JArr []) = Ok (JStr h)
    /\ length h = 32%nat.
Proof.
  destruct (@ciphertext_shape (secure_context sample_key) sample_key (JArr [])
              eq_refl eq_refl eq_refl) as (h & E & _ & L).
  exists h. split; [exact E|exact L].
Defined.

(** X6.  The initialization vector is a part of the key, the same for every
    record: when the JSON texts of two records agree on their first
    [16 * k] bytes, their ciphertexts under a usable key agree on their
    first [32 * k] digits. *)
Theorem shared_prefix_shows (ctx : Context) (key : jsstring) (log1 log2 : json) (k : nat) :
  enableTextEncryption ctx = true -> encryptionKey ctx = Some key ->
  usable_key key = true ->
  (16 * k <= length (utf8_encode (JSON_stringify log1)))%nat ->
  (16 * k <= length (utf8_encode (JSON_stringify log2)))%nat ->
  firstn (16 * k) (utf8_encode (JSON_stringify log1))
  = firstn (16 * k) (utf8_encode (JSON_stringify log2)) ->
  exists h1 h2,
    encryptLogData ctx log1 = Ok (JStr h1)
    /\ encryptLogData ctx log2 = Ok (JStr h2)
    /\ (32 * k <= length h1)%nat /\ (32 * k <= length h2)%nat
    /\ firstn (32 * k) h1 = firstn (32 * k) h2.
Proof.
  intros He Hk Hu H1 H2 E.
  exists (hex_encode (ciphertext key log1)), (hex_encode (ciphertext key log2)).
  split; [exact (@encryptLogData_usable ctx key log1 He Hk Hu)|].
  split; [exact (@encryptLogData_usable ctx key log2 He Hk Hu)|].
  rewrite !length_hex_encode, !length_ciphertext.
  assert (D1 : (k <= length (utf8_encode (JSON_stringify log1)) / 16)%nat)
    by (apply Nat.div_le_lower_bound; [discriminate|exact H1]).
  assert (D2 : (k <= length (utf8_encode (JSON_stringify log2)) / 16)%nat)
    by (apply Nat.div_le_lower_bound; [discriminate|exact H2]).
  split; [lia|]. split; [lia|].
  rewrite !ciphertext_prefix by assumption. now rewrite E.
Qed.

Lemma shared_prefix_shows_witness :
  exists h1 h2,
    encryptLogData (secure_context sample_key) (log_object sample_record) = Ok (JStr h1)
    /\ encryptLogData (secure_context sample_key)
         (JObj [(str "method", JStr (str "GET")); (str "url", JStr (str "/other"))])
       = Ok (JStr h2)
    /\ firstn 32 h1 = firstn 32 h2.
Proof.
  destruct (@shared_prefix_shows (secure_context sample_key) sample_key
              (log_object sample_record)
              (JObj [(str "method", JStr (str "GET")); (str "url", JStr (str "/other"))])
              1 eq_refl eq_refl eq_refl)
    as (h1 & h2 & E1 & E2 & _ & _ & E);
    [vm_compute; lia|vm_compute; lia|vm_compute; reflexivity|].
  exists h1, h2. repeat split; assumption.
Defined.

Section PartialBlocks.
Import Aes.

(** A decipher that was given no whole number of blocks, or nothing, fails
    at [final]. *)
Lemma decipher_partial (ks : schedule) (iv : block) (bs : buffer) :
  (length bs mod 16 <> 0)%nat \/ bs = [] ->
  decipher_final (fst (decipher_update (fresh ks iv) bs)) = Throw WrongFinalBlockLength.
Proof.
  intros H. unfold decipher_update. cbn [pending fresh app keys chain].
  destruct (split_blocks_spec bs) as [E R].
  destruct (split_blocks bs) as [cs rest] eqn:Hs. cbn [fst snd] in E, R.
  destruct rest as [|b rest].
  - destruct H as [H|H].
    + exfalso. apply H. rewrite E, List.app_nil_r, length_join_blocks.
      rewrite Nat.mul_comm. apply Nat.Div0.mod_mul.
    + subst bs. cbn in Hs. injection Hs as <-. reflexivity.
  - destruct (cbc_decrypt ks iv cs) as [ps ch] eqn:Hd.
    assert (Hf : decipher_final {| keys := ks; chain := ch; pending := b :: rest |}
                 = Throw WrongFinalBlockLength).
    { unfold decipher_final. cbn [pending].
      rewrite split_blocks_short by exact R. reflexivity. }
    destruct (rev cs); cbn [fst]; exact Hf.
Qed.

End PartialBlocks.

(** X7.  An entry cut short is refused: under a usable key, [decryptLogData]
    throws the error of a wrong final block length on the hex string of any
    bytes that are not a whole number of 16-byte blocks, and on the empty
    string. *)
Theorem decrypt_rejects_partial_blocks (ctx : Context) (key : jsstring) (bs : buffer) :
  encryptionKey ctx = Some key -> usable_key key = true ->
  (length bs mod 16 <> 0)%nat \/ bs = [] ->
  decryptLogData ctx (JStr (hex_encode bs)) = Throw WrongFinalBlockLength.
Proof.
  intros Hk Hu H. unfold decryptLogData, createDecipheriv. rewrite Hk.
  rewrite createCipheriv_usable by assumption. cbn [bind_result].
  rewrite hex_decode_encode.
  pose proof (@decipher_partial
                (Aes.key_schedule (utf8_encode key))
                (hd Aes.zero_block (fst (Aes.split_blocks (firstn 16 (utf8_encode key)))))
                bs H) as Hf.
  destruct (decipher_update _ bs) as [d updated]. cbn [fst] in Hf.
  rewrite Hf. reflexivity.
Qed.

Lemma decrypt_rejects_partial_blocks_witness :
  decryptLogData (secure_context sample_key) (JStr (str "00ff"))
  = Throw WrongFinalBlockLength.
Proof.
  apply (@decrypt_rejects_partial_blocks (secure_context sample_key) sample_key
           [x00; xff] eq_refl eq_refl).
  left. discriminate.
Defined.

(** ** CPU snapshots *)

Section Snapshots.

Lemma sum_ticks_permutation (f : CpuTimes -> N) (a b : list CpuTimes) :
  Permutation a b -> sum_ticks f a = sum_ticks f b.
Proof.
  induction 1 as [|x l l' _ IH|x y l|l l' l'' _ IH1 _ IH2]; cbn [sum_ticks fold_right].
  - reflexivity.
  - fold (sum_ticks f l) (sum_ticks f l'). now rewrite IH.
  - fold (sum_ticks f l). lia.
  - congruence.
Qed.

Lemma sum_ticks_scale (f : CpuTimes -> N) (k : N) (cpus : list CpuTimes) :
  (forall cpu, f (scale_ticks k cpu) = k * f cpu) ->
  sum_ticks f (map (scale_ticks k) cpus) = k * sum_ticks f cpus.
Proof.
  intros Hf. induction cpus as [|cpu cpus IH]; cbn [map sum_ticks fold_right].
  - now rewrite N.mul_0_r.
  - fold (sum_ticks f (map (scale_ticks k) cpus)) (sum_ticks f cpus).
    rewrite IH, Hf. lia.
Qed.

(** The percentage of [k * u] ticks of [k * t] is that of [u] of [t]. *)
Lemma percent_scale (k u t : N) :
  0 < k ->
  toFixed 2 (js_mul (js_div (number_of_N (k * u)) (number_of_N (k * t))) (number_of_N 100))
  = toFixed 2 (js_mul (js_div (number_of_N u) (number_of_N t)) (number_of_N 100)).
Proof.
  intros Hk. destruct (N.eq_0_gt_0_cases t) as [Ht|Ht].
  - subst t. rewrite N.mul_0_r.
    destruct (N.eq_0_gt_0_cases u) as [Hu|Hu].
    + subst u. now rewrite N.mul_0_r.
    + assert (Hku : 0 < k * u) by nia.
      destruct u as [|u]; [lia|]. destruct k as [|k]; [lia|]. reflexivity.
  - rewrite !percent_toFixed by nia.
    f_equal.
    replace (2 * 10000 * (k * u) + k * t) with (k * (2 * 10000 * u + t)) by lia.
    replace (2 * (k * t)) with (k * (2 * t)) by lia.
    apply N.Div0.div_mul_cancel_l. lia.
Qed.

End Snapshots.

(** X8.  [getCpuUsage] does not depend on the order in which [os.cpus()]
    lists the cores. *)
Theorem cpu_usage_any_order (cpus cpus' : list CpuTimes) :
  Permutation cpus cpus' -> getCpuUsage cpus = getCpuUsage cpus'.
Proof.
  intros H. rewrite !getCpuUsage_sums. cbv zeta.
  now rewrite !(sum_ticks_permutation _ H).
Qed.

Lemma cpu_usage_any_order_witness :
  getCpuUsage [{| t_user := 1; t_nice := 2; t_sys := 3; t_idle := 4; t_irq := 5 |};
               {| t_user := 60; t_nice := 0; t_sys := 20; t_idle := 5; t_irq := 0 |}]
  = getCpuUsage [{| t_user := 60; t_nice := 0; t_sys := 20; t_idle := 5; t_irq := 0 |};
                 {| t_user := 1; t_nice := 2; t_sys := 3; t_idle := 4; t_irq := 5 |}].
Proof. apply cpu_usage_any_order. apply perm_swap. Defined.

(** X9.  The published percentages depend on the proportions of the
    counters only: with every counter of every core multiplied by the same
    positive factor, [user], [system] and [idle] are the same strings and
    [total] is multiplied by the factor. *)
Theorem cpu_usage_scale (k : N) (cpus : list CpuTimes) :
  0 < k ->
  getCpuUsage (map (scale_ticks k) cpus)
  = {| user := user (getCpuUsage cpus);
       system := system (getCpuUsage cpus);
       idle := idle (getCpuUsage cpus);
       total := k * total (getCpuUsage cpus) |}.
Proof.
  intros Hk. rewrite !getCpuUsage_sums. cbv zeta. cbn [user system idle total].
  rewrite !sum_ticks_scale by reflexivity.
  rewrite <- !N.mul_add_distr_l.
  rewrite !percent_scale by exact Hk. reflexivity.
Qed.

Lemma cpu_usage_scale_witness :
  user (getCpuUsage
          (map (scale_ticks 1000)
               [{| t_user := 1; t_nice := 0; t_sys := 1; t_idle := 1; t_irq := 0 |}]))
  = str "33.33".
Proof.
  rewrite (@cpu_usage_scale 1000
             [{| t_user := 1; t_nice := 0; t_sys := 1; t_idle := 1; t_irq := 0 |}]
             eq_refl).
  reflexivity.
Defined.



(** ** Requests and their records *)

Section RecordsOfRequests.







End RecordsOfRequests.



Section OtherFiles.

Variable ctx : Context.
Variable path : jsstring.
Hypothesis Htext : dbType ctx = str "text".
Hypothesis Hpath : logFilePath ctx = Some path.

(** A write into a log file whose JSON text is no array and not null. *)
Lemma store_no_array (w : World) (r : LogRecord) (bytes : buffer) (v : json) :
  usable_context ctx = true ->
  files w path = Some bytes -> utf8_decode bytes <> [] ->
  JSON_parse (utf8_decode bytes) = Some v ->
  v <> JNull -> (forall l, v <> JArr l) ->
  store ctx r w
  = (Ok tt, set_console w (console w ++ [(str "Error logging data:", not_an_array)])).
Proof.
  intros Hkey Hfile Hne Hparse Hnull Harr.
  assert (Henc : exists e, encryptLogData ctx (log_object r) = Ok e).
  { unfold usable_context in Hkey.
    destruct (enableTextEncryption ctx) eqn:He.
    - destruct (encryptionKey ctx) as [key|] eqn:Hk; [|discriminate].
      eexists. exact (@encryptLogData_usable ctx key (log_object r) He Hk Hkey).
    - eexists. unfold encryptLogData. rewrite He. reflexivity. }
  destruct Henc as [e Henc].
  cbv [store try_catch write_log bind lift ret throw
       fs_existsSync fs_readFileSync fs_writeFileSync console_error].
  rewrite Htext. change (jsstring_eqb (str "text") (str "text")) with true. cbv iota.
  rewrite Henc, Hpath, Hfile. cbv beta iota zeta. rewrite Hfile. cbv beta iota zeta.
  destruct (utf8_decode bytes) as [|c text] eqn:E; [contradiction|].
  rewrite Hparse. cbv beta iota zeta.
  destruct v; try reflexivity.
  exfalso. eapply Harr. reflexivity.
Qed.

End OtherFiles.

(** X12.  A log file that holds JSON which is no array (an object, a
    string, a number, a boolean) is never repaired: every record written
    after that is dropped, with one error on the console each, and the file
    stays as it is. *)
Theorem no_array_file_stops_logging
        (ctx : Context) (path : jsstring) (rs : list LogRecord) (w : World)
        (bytes : buffer) (v : json) :
  dbType ctx = str "text" -> logFilePath ctx = Some path ->
  usable_context ctx = true ->
  files w path = Some bytes -> utf8_decode bytes <> [] ->
  JSON_parse (utf8_decode bytes) = Some v ->
  v <> JNull -> (forall l, v <> JArr l) ->
  files (after_writes ctx rs w) = files w
  /\ console (after_writes ctx rs w)
     = console w ++ map (fun _ => (str "Error logging data:", not_an_array)) rs.
Proof.
  intros Htext Hpath Hkey Hfile Hne Hparse Hnull Harr.
  revert w Hfile. induction rs as [|r rs IH]; intros w Hfile.
  - cbn [after_writes fold_left map]. now rewrite List.app_nil_r.
  - cbn [after_writes fold_left map].
    rewrite (@store_no_array ctx path Htext Hpath w r bytes v Hkey Hfile Hne Hparse
               Hnull Harr).
    cbn [snd]. fold (after_writes ctx rs
                       (set_console w (console w ++ [(str "Error logging data:", not_an_array)]))).
    destruct (IH (set_console w (console w ++ [(str "Error logging data:", not_an_array)]))
                 Hfile) as [IH1 IH2].
    rewrite IH1, IH2. cbn [files console set_console].
    rewrite <- app_assoc. split; reflexivity.
Qed.

Lemma no_array_file_stops_logging_witness :
  console (after_writes plain_context [sample_record; other_record]
             (set_files empty_world
                (fun q => if jsstring_eqb q log_path then Some [x7b; x7d] else None)))
  = [(str "Error logging data:", not_an_array); (str "Error logging data:", not_an_array)].
Proof.
  apply (@no_array_file_stops_logging plain_context log_path [sample_record; other_record]
           (set_files empty_world
              (fun q => if jsstring_eqb q log_path then Some [x7b; x7d] else None))
           [x7b; x7d] (JObj []) eq_refl eq_refl eq_refl eq_refl);
    [discriminate|reflexivity|discriminate|discriminate].
Defined.

Section ListenerFrame.

(** What a write leaves as it is. *)
Lemma write_log_sink (ctx : Context) (r : LogRecord) (w : World) :
  (forall q, logFilePath ctx <> Some q -> files (snd (write_log ctx r w)) q = files w q)
  /\ (dbType ctx = str "text" -> database (snd (write_log ctx r w)) = database w)
  /\ (dbType ctx <> str "text" -> files (snd (write_log ctx r w)) = files w)
  /\ write_error (snd (write_log ctx r w)) = write_error w
  /\ process (snd (write_log ctx r w)) = process w.
Proof.
  unfold write_log.
  destruct (jsstring_eqb (dbType ctx) (str "text")) eqn:Et.
  - apply jsstring_eqb_eq in Et.
    cbv [bind lift ret throw fs_existsSync fs_readFileSync fs_writeFileSync].
    assert (Hq : forall p q (data : list byte),
               logFilePath ctx = Some p -> logFilePath ctx <> Some q ->
               (if jsstring_eqb q p then Some data else files w q) = files w q).
    { intros p q data Hp Hn. destruct (jsstring_eqb q p) eqn:E; [|reflexivity].
      apply jsstring_eqb_eq in E. subst q. contradiction. }
    repeat (match goal with
      | |- context [match ?x with _ => _ end] =>
          lazymatch x with
          | context [match _ with _ => _ end] => fail
          | _ => destruct x eqn:?
          end
      end; cbv beta iota zeta);
      cbn [snd files database write_error process set_files];
      (split; [intros; try reflexivity; now apply Hq|]);
      (split; [reflexivity|]); (split; [intros; contradiction|]); split; reflexivity.
  - assert (Hnt : dbType ctx <> str "text").
    { intros E. apply jsstring_eqb_eq in E. congruence. }
    cbv [bind lift ret throw db_insert].
    repeat (match goal with
      | |- context [match ?x with _ => _ end] =>
          lazymatch x with
          | context [match _ with _ => _ end] => fail
          | _ => destruct x eqn:?
          end
      end; cbv beta iota zeta);
      cbn [snd files database write_error process set_database];
      (split; [reflexivity|]); (split; [intros; contradiction|]);
      (split; [reflexivity|]); split; reflexivity.
Qed.

End ListenerFrame.

(** X13.  The listener of the finish event never throws, whatever the
    backend, the configuration and the state of the files and the
    database.  It prints one error at most.  Apart from the console it
    changes only its own sink: with the text backend no file but the log
    file, and not the database; with another backend no file at all; never
    the responses. *)
Theorem listener_is_safe
        (ctx : Context) (start : HrTime) (req : Request) (res : Response) (w : World) :
  let w' := snd (on_finish ctx start req res w) in
  fst (on_finish ctx start req res w) = Ok tt
  /\ (console w' = console w
      \/ exists e, console w' = console w ++ [(str "Error logging data:", e)])
  /\ (forall q, logFilePath ctx <> Some q -> files w' q = files w q)
  /\ (dbType ctx = str "text" -> database w' = database w)
  /\ (dbType ctx <> str "text" -> files w' = files w)
  /\ write_error w' = write_error w
  /\ process w' = process w
  /\ sent w' = sent w.
Proof.
  destruct (make_log_returns start req res w) as [r Hr].
  destruct (write_log_frame ctx r w) as [Hc Hs].
  destruct (write_log_sink ctx r w) as (Hf & Hd & Hn & He & Hp).
  unfold on_finish, bind. rewrite Hr. unfold store, try_catch.
  destruct (write_log ctx r w) as [[[]|e] w1]; cbn [fst snd] in *.
  - repeat split; auto.
  - unfold console_error. cbn [fst snd console files database write_error process sent
                               set_console].
    repeat split; auto. right. exists e. now rewrite Hc.
Qed.

(** X14.  With the sql backend and a database that accepts commands, the
    listener adds exactly one row, to the table named by [collectionName]
    ([loggerData] when it is missing or empty), and touches no file: the
    seven values in the order of the columns, the memory and the CPU figures
    as JSON texts from which [JSON.parse] gives the two objects back. *)
Theorem sql_row (ctx : Context) (start : HrTime) (req : Request) (res : Response)
        (w : World) :
  dbType ctx = str "sql" -> fault (database w) = None ->
  exists r mem cpu,
    make_log start req res w = (Ok r, w)
    /\ on_finish ctx start req res w
       = (Ok tt,
          set_database w
            {| rows := rows (database w)
                       ++ [(table_of (sql (config ctx)),
                            JArr [JStr (req_method req); JStr (req_url req);
                                  JNum (res_statusCode res); JStr (responseTime r);
                                  JStr (date_iso (process w)); JStr mem; JStr cpu])];
               fault := None |})
    /\ JSON_parse mem = Some (memoryUsage_object (memory (process w)))
    /\ JSON_parse cpu = Some (cpuUsage_object (getCpuUsage (cpus (process w))))
    /\ (table_of (sql (config ctx)) = str "loggerData"
        \/ exists d, sql (config ctx) = Some d
                     /\ collectionName d = Some (table_of (sql (config ctx)))).
Proof.
  intros Hsql Hok.
  eexists. exists (JSON_stringify (memoryUsage_object (memory (process w)))).
  exists (JSON_stringify (cpuUsage_object (getCpuUsage (cpus (process w))))).
  split.
  { cbv [make_log bind ret process_hrtime_since process_memoryUsage os_cpus
         date_toISOString]. reflexivity. }
  split.
  { cbv [on_finish make_log bind ret process_hrtime_since process_memoryUsage os_cpus
         date_toISOString store try_catch write_log db_insert].
    rewrite Hsql. change (jsstring_eqb (str "sql") (str "text")) with false.
    change (jsstring_eqb (str "sql") (str "sql")) with true. cbv beta iota zeta.
    rewrite Hok. cbn [method url statusCode responseTime timestamp memoryUsage cpuUsage].
    now destruct (memory (process w)). }
  split; [apply JSON_parse_stringify|]. split; [apply JSON_parse_stringify|].
  unfold table_of, or_default.
  destruct (sql (config ctx)) as [d|]; [|now left].
  destruct (collectionName d) as [[|c s]|] eqn:E; [now left| |now left].
  right. exists d. now rewrite E.
Qed.

Lemma sql_row_witness :
  exists r mem cpu,
    make_log sample_start sample_request sample_response empty_world = (Ok r, empty_world)
    /\ rows (database (snd (on_finish sql_context sample_start sample_request
                              sample_response empty_world)))
       = [(str "loggerData",
           JArr [JStr (str "GET"); JStr (req_url sample_request); JNum 200;
                 JStr (responseTime r); JStr (str "2024-01-01T00:00:00.000Z");
                 JStr mem; JStr cpu])].
Proof.
  destruct (@sql_row sql_context sample_start sample_request sample_response empty_world
              eq_refl eq_refl) as (r & mem & cpu & Hr & H & _).
  exists r, mem, cpu. split; [exact Hr|]. rewrite H. reflexivity.
Defined.

(** X15.  With the nosql backend the listener adds the record itself, as
    one document, to the collection named by [collectionName] ([loggerData]
    when it is missing or empty) and touches no file; when the database
    rejects the command nothing is stored and the error is printed. *)
Theorem nosql_document (ctx : Context) (start : HrTime) (req : Request) (res : Response)
        (w : World) :
  dbType ctx = str "nosql" ->
  exists r,
    make_log start req res w = (Ok r, w)
    /\ method r = req_method req /\ url r = req_url req
    /\ statusCode r = res_statusCode res
    /\ (fault (database w) = None ->
        on_finish ctx start req res w
        = (Ok tt,
           set_database w
             {| rows := rows (database w) ++ [(table_of (nosql (config ctx)), log_object r)];
                fault := None |}))
    /\ (forall e, fault (database w) = Some e ->
        on_finish ctx start req res w
        = (Ok tt, set_console w (console w ++ [(str "Error logging data:", e)])))
    /\ (table_of (nosql (config ctx)) = str "loggerData"
        \/ exists d, nosql (config ctx) = Some d
                     /\ collectionName d = Some (table_of (nosql (config ctx)))).
Proof.
  intros Hno.
  eexists. split.
  { cbv [make_log bind ret process_hrtime_since process_memoryUsage os_cpus
         date_toISOString]. reflexivity. }
  cbn [method url statusCode].
  do 3 (split; [reflexivity|]).
  split; [|split].
  - intros Hok.
    cbv [on_finish make_log bind ret process_hrtime_since process_memoryUsage os_cpus
         date_toISOString store try_catch write_log db_insert].
    rewrite Hno. change (jsstring_eqb (str "nosql") (str "text")) with false.
    change (jsstring_eqb (str "nosql") (str "sql")) with false.
    change (jsstring_eqb (str "nosql") (str "nosql")) with true. cbv beta iota zeta.
    now rewrite Hok.
  - intros e He.
    cbv [on_finish make_log bind ret process_hrtime_since process_memoryUsage os_cpus
         date_toISOString store try_catch write_log db_insert console_error].
    rewrite Hno. change (jsstring_eqb (str "nosql") (str "text")) with false.
    change (jsstring_eqb (str "nosql") (str "sql")) with false.
    change (jsstring_eqb (str "nosql") (str "nosql")) with true. cbv beta iota zeta.
    now rewrite He.
  - unfold table_of, or_default.
    destruct (nosql (config ctx)) as [d|]; [|now left].
    destruct (collectionName d) as [[|c s]|] eqn:E; [now left| |now left].
    right. exists d. now rewrite E.
Qed.

Lemma nosql_document_witness :
  exists r,
    load nosql_config = Ok nosql_context
    /\ method r = str "GET"
    /\ rows (database
               (snd (on_finish
                       nosql_context
                       sample_start sample_request sample_response empty_world)))
       = [(str "loggerData", log_object r)].
Proof.
  destruct (@nosql_document
              nosql_context
              sample_start sample_request sample_response empty_world eq_refl)
    as (r & _ & Hm & _ & _ & H & _).
  exists r. split; [reflexivity|]. split; [exact Hm|]. rewrite (H eq_refl). reflexivity.
Defined.

(** ** Reading the log back *)

Section ReadingBack.



(** The entries of a run of writes are there to be read. *)
Lemma entries_after_writes (ctx : Context) (path : jsstring) (rs : list LogRecord)
      (w : World) :
  dbType ctx = str "text" -> logFilePath ctx = Some path ->
  usable_context ctx = true -> rs <> [] -> forallb serializable rs = true ->
  files w path = None \/ files w path = Some [] -> write_error w path = None ->
  stored (after_writes ctx rs w) path (map (entry_of ctx) rs)
  /\ forallb valid_json (map (entry_of ctx) rs) = true.
Proof.
  intros Htext Hpath Hkey Hne Hser Hfile Hw.
  assert (Hall : Forall (fun r => encryptLogData ctx (log_object r) = Ok (entry_of ctx r)
                                  /\ valid_json (entry_of ctx r) = true) rs).
  { apply Forall_forall. intros r Hin. apply entry_of_serializable; [exact Hkey|].
    rewrite forallb_forall in Hser. now apply Hser. }
  split.
  - destruct rs as [|r rs]; [contradiction|].
    exact (proj1 (@after_writes_fresh ctx path Htext Hpath r rs w Hall Hfile Hw)).
  - apply forallb_forall. intros x Hin. apply in_map_iff in Hin.
    destruct Hin as (r & <- & Hin).
    rewrite Forall_forall in Hall. exact (proj2 (Hall r Hin)).
Qed.

End ReadingBack.



(** X17.  Security switched on over a log written without it: once records
    were written in plain text, [readTextLogs] under a configuration with
    security on (and a usable key) throws a type error, for the entries are
    objects where the decipher wants strings; the log cannot be read this
    way any more. *)
Theorem security_switched_on
        (ctx0 ctx1 : Context) (path key : jsstring) (t : TextConfig)
        (rs : list LogRecord) (w : World) :
  dbType ctx0 = str "text" -> logFilePath ctx0 = Some path ->
  enableTextEncryption ctx0 = false ->
  dbType ctx1 = str "text" -> logFilePath ctx1 = Some path ->
  text (config ctx1) = Some t -> enable_log_security t = Some true ->
  encryptionKey ctx1 = Some key -> usable_key key = true ->
  rs <> [] -> forallb serializable rs = true ->
  files w path = None \/ files w path = Some [] -> write_error w path = None ->
  exists m,
    readTextLogs ctx1 (after_writes ctx0 rs w)
    = (Throw (TypeError m), after_writes ctx0 rs w).
Proof.
  intros Ht0 Hp0 He0 Ht1 Hp1 Ht Hsec Hk Hu Hne Hser Hfile Hw.
  assert (Hkey0 : usable_context ctx0 = true) by (unfold usable_context; now rewrite He0).
  destruct (@entries_after_writes ctx0 path rs w Ht0 Hp0 Hkey0 Hne Hser Hfile Hw)
    as [Hs Hv].
  rewrite (@read_stored ctx1 path Ht1 Hp1 _ _ t Ht Hs Hv).
  rewrite Hsec. cbn [truthy_bool].
  destruct rs as [|r rs]; [contradiction|]. cbn [map map_result].
  assert (E : entry_of ctx0 r = log_object r).
  { unfold entry_of, encryptLogData. now rewrite He0. }
  rewrite E. unfold decryptLogData at 1. rewrite Hk.
  unfold createDecipheriv. rewrite createCipheriv_usable by exact Hu.
  cbn [bind_result log_object]. eexists. reflexivity.
Qed.

Lemma security_switched_on_witness :
  exists m,
    readTextLogs (secure_context sample_key)
      (after_writes plain_context [sample_record] empty_world)
    = (Throw (TypeError m), after_writes plain_context [sample_record] empty_world).
Proof.
  apply (@security_switched_on plain_context (secure_context sample_key) log_path
           sample_key
           {| file_path := Some log_path; enable_log_security := Some true;
              log_security_encryption_key := Some sample_key |}
           [sample_record] empty_world
           eq_refl eq_refl eq_refl eq_refl eq_refl eq_refl eq_refl eq_refl eq_refl);
    [discriminate|reflexivity|now left|reflexivity].
Defined.

(** X18.  Security switched off over an encrypted log: [readTextLogs] under
    a configuration without security returns the entries as they are in the
    file, one hexadecimal string for each record, in the order of the
    writes; nothing is decrypted and nothing fails. *)
Theorem security_switched_off
        (ctx0 ctx1 : Context) (path key : jsstring) (t : TextConfig)
        (rs : list LogRecord) (w : World) :
  dbType ctx1 = str "text" -> logFilePath ctx1 = Some path ->
  enableTextEncryption ctx1 = true -> encryptionKey ctx1 = Some key ->
  usable_key key = true ->
  dbType ctx0 = str "text" -> logFilePath ctx0 = Some path ->
  text (config ctx0) = Some t -> enable_log_security t <> Some true ->
  rs <> [] -> forallb serializable rs = true ->
  files w path = None \/ files w path = Some [] -> write_error w path = None ->
  readTextLogs ctx0 (after_writes ctx1 rs w)
  = (Ok (JArr (map (fun r => JStr (hex_encode (ciphertext key (log_object r)))) rs)),
     after_writes ctx1 rs w).
Proof.
  intros Ht1 Hp1 He1 Hk Hu Ht0 Hp0 Ht Hsec Hne Hser Hfile Hw.
  assert (Hkey1 : usable_context ctx1 = true)
    by (unfold usable_context; now rewrite He1, Hk).
  destruct (@entries_after_writes ctx1 path rs w Ht1 Hp1 Hkey1 Hne Hser Hfile Hw)
    as [Hs Hv].
  rewrite (@read_stored ctx0 path Ht0 Hp0 _ _ t Ht Hs Hv).
  assert (Hoff : truthy_bool (enable_log_security t) = false).
  { destruct (enable_log_security t) as [[|]|]; try reflexivity. now contradiction Hsec. }
  rewrite Hoff. do 3 f_equal. apply map_ext. intros r.
  unfold entry_of. now rewrite (@encryptLogData_usable ctx1 key (log_object r) He1 Hk Hu).
Qed.

Lemma security_switched_off_witness :
  readTextLogs plain_context
    (after_writes (secure_context sample_key) [sample_record] empty_world)
  = (Ok (JArr [JStr (hex_encode (ciphertext sample_key (log_object sample_record)))]),
     after_writes (secure_context sample_key) [sample_record] empty_world).
Proof.
  apply (@security_switched_off plain_context (secure_context sample_key) log_path
           sample_key
           {| file_path := Some log_path; enable_log_security := Some false;
              log_security_encryption_key := None |}
           [sample_record] empty_world
           eq_refl eq_refl eq_refl eq_refl eq_refl eq_refl eq_refl eq_refl);
    [discriminate|discriminate|reflexivity|now left|reflexivity].
Defined.

(** X19.  [readTextLogs] only reads: whatever it returns or throws, for
    every configuration and every state of the files, no file is created
    or changed and nothing is printed. *)
Theorem read_changes_nothing (ctx : Context) (w : World) :
  snd (readTextLogs ctx w) = w.
Proof.
  cbv [readTextLogs bind lift ret throw fs_readFileSync].
  repeat (match goal with
    | |- context [match ?x with _ => _ end] =>
        lazymatch x with
        | context [match _ with _ => _ end] => fail
        | _ => destruct x
        end
    end; cbv beta iota zeta; cbn [negb snd]); reflexivity.
Qed.

(** ** The log file over time *)

Section AppendOnly.



End AppendOnly.


